(** * The block eigensolver of [src/matrices/eigensolver.c]

    A shallow embedding of [trace_func], [linmin] and the [eigensolver]
    driver, followed by the properties of the driver loop, of the two line
    minimisations, of the conjugate-gradient update and of the strategy
    controller.

    Conventions of the embedding.
    - [real] is IEEE binary64 (the default [typedef double real] of
      [scalar.h]); the arithmetic is Rocq's primitive floating point, so
      every definition below runs.
    - The block primitives of [matrices.h] and [blasglue.h], the scalar macros
      of [scalar.h], the clock of [mpiglue.h], [cos] and [sin] of [math.h] and
      the flag values of [eigensolver.h] are not part of the file under
      study; they are the fields of the class [Primitives].
    - The caller's callbacks [A], [K] and [constraint] own opaque data; they
      are functions over an opaque [world], which also carries the clock.
    - Blocks live in a store indexed by handles, so that the aliases the
      driver sets up ([D = X] with two workspaces, [prev_G = G] with three)
      are aliases in the model too.
    - [CHECK] failures are the outcome [Fatal], which keeps the memory as it
      was when the program died.  The loops of [linmin] have no bound of
      their own and run on fuel; running out is the outcome [Timeout]. *)

From Stdlib Require Import ZArith List Bool Floats Lia.
Import ListNotations.

#[local] Set Warnings "-inexact-float".
#[local] Open Scope float_scope.

(** ** Numbers *)

(** [real], which [scalar.h] defines: double precision is taken here. *)
Definition real := float.

(** C's [a > b] and [a >= b]; false as soon as one side is a NaN. *)
Definition gtb (a b : real) : bool := b <? a.
Definition geb (a b : real) : bool := b <=? a.

Infix ">?" := gtb (at level 70, no associativity) : float_scope.
Infix ">=?" := geb (at level 70, no associativity) : float_scope.

Definition fabs : real -> real := abs.

Definition K_PI : real := 3.141592653589793238462643383279502884197.

Definition MIN2 (a b : real) : real := if a <? b then a else b.
Definition MAX2 (a b : real) : real := if a >? b then a else b.

Definition EIGENSOLVER_MAX_ITERATIONS : Z := 10000.
Definition FEEDBACK_TIME : real := 4.0.
Definition CG_RESET_ITERS : Z := 70.

Definition EXACT_LINMIN_TIME (t_AZ t_KZ t_ZtW t_ZS t_ZtZ t_linmin : real) : real :=
  t_AZ * 2 + t_KZ + t_ZtW * 4 + t_ZS * 2 + t_ZtZ * 2 + t_linmin.

Definition APPROX_LINMIN_TIME (t_AZ t_KZ t_ZtW t_ZS t_ZtZ : real) : real :=
  t_AZ * 2 + t_KZ + t_ZtW * 2 + t_ZS * 2 + t_ZtZ * 2.

Definition APPROX_LINMIN_SLOWDOWN_GUESS : real := 2.0.
Definition APPROX_LINMIN_IMPROVEMENT_THRESHOLD : real := 0.05.

(** ** Outcomes *)

(** One constructor per [CHECK] of the file. *)
Inductive error : Set :=
| NotEnoughWorkspace      (* "not enough workspace" *)
| CrazyNumber             (* "crazy number detected in trace!!" *)
| BadInitialGuess         (* "linmin: bad initial guess!" *)
| GuessOutOfRange         (* "linmin: initial guess out of range" *)
| FailedToBracket         (* "linmin: failed to bracket minimum!" *)
| FailureToConverge.      (* "failure to converge after 10000 iterations" *)

Inductive outcome (S A : Type) : Type :=
| Done (a : A) (s : S)
| Fatal (e : error) (s : S)
| Timeout.

Arguments Done {S A} a s.
Arguments Fatal {S A} e s.
Arguments Timeout {S A}.

Definition M (S A : Type) : Type := S -> outcome S A.

Definition ret {S A} (a : A) : M S A := fun s => Done a s.

Definition bind {S A B} (m : M S A) (k : A -> M S B) : M S B :=
  fun s => match m s with
           | Done a s' => k a s'
           | Fatal e s' => Fatal e s'
           | Timeout => Timeout
           end.

(** [Inv] holds of the state in which a computation ended, if it ended. *)
Definition holds_after {S A : Type} (Inv : S -> Prop) (r : outcome S A) : Prop :=
  match r with
  | Done _ s => Inv s
  | Fatal _ s => Inv s
  | Timeout => True
  end.

(** [CHECK(cond, msg)] *)
Definition CHECK {S} (cond : bool) (e : error) : M S unit :=
  fun s => if cond then Done tt s else Fatal e s.

Declare Scope m_scope.
Delimit Scope m_scope with m.
Notation "x <- m ;; k" := (bind m (fun x => k))
  (at level 100, m at next level, right associativity) : m_scope.
Notation "m ;;; k" := (bind m (fun _ => k))
  (at level 100, right associativity) : m_scope.

(** ** [linmin] *)

Module Linmin.
Section Linmin.

(** The [data] pointer of [linmin] points to a state of type [S];
    [func want_df x] is [func(df, x, data)]: it returns the value and, when
    [want_df] (a non-NULL [df]), the derivative. *)
Context {S : Type}.
Variable func : bool -> real -> S -> real * real * S.

(** The parameters and locals of [linmin] that the loops assign. *)
Record vars : Set := mkVars {
  xmin : real; f_xmin : real; df_xmin : real;
  xmax : real; f_xmax : real; df_xmax : real;
  x0 : real;
  x : real; f : real; df : real
}.

(** The locals of one round of the bracketing loop. *)
Record scan : Set := mkScan {
  sx : real; sf : real; sdf : real;
  xmin2 : real; f_xmin2 : real; df_xmin2 : real
}.

(** [for (x = xmin + dx; x*s <= xmax*s; x += dx)], entered with [x]
    already set.  The loop has no bound of its own, hence the fuel. *)
Fixpoint bracket_scan (fuel : nat) (s xmin0 xmax0 dx : real) (v : scan) (d : S)
  : option (scan * S) :=
  match fuel with
  | O => None
  | Datatypes.S fuel' =>
      if sx v * s <=? xmax0 * s then
        let '(fx, dfx, d') := func true (sx v) d in
        if dfx * (sx v - xmin0) >? 0.0 then
          Some (mkScan (sx v) fx dfx (xmin2 v) (f_xmin2 v) (df_xmin2 v), d')
        else
          bracket_scan fuel' s xmin0 xmax0 dx
            (mkScan (sx v + dx) fx dfx (sx v) fx dfx) d'
      else Some (v, d)
  end.

(** The body of the [do ... while] that brackets the minimum.  The flag
    says whether the body left through [break]. *)
Definition bracket_round (fuel : nat) (s : real) (v : vars) (d : S)
  : option (bool * vars * S) :=
  let dx := (x0 v - xmin v) * 2.0 in
  match bracket_scan fuel s (xmin v) (xmax v) dx
          (mkScan (xmin v + dx) (f v) (df v) (xmin v) (f_xmin v) (df_xmin v)) d with
  | None => None
  | Some (sc, d') =>
      if sx sc * s <=? xmax v * s then
        Some (true,
              mkVars (xmin2 sc) (f_xmin2 sc) (df_xmin2 sc)
                     (sx sc) (sf sc) (sdf sc)
                     (x0 v) (sx sc) (sf sc) (sdf sc), d')
      else
        Some (false,
              mkVars (xmin v) (f_xmin v) (df_xmin v)
                     (xmax v) (f_xmax v) (df_xmax v)
                     (0.5 * (x0 v + xmin v)) (sx sc) (sf sc) (sdf sc), d')
  end.

(** The loop condition, which the [CHECK] after the loop repeats. *)
Definition not_collapsed (tolerance : real) (v : vars) : bool :=
  fabs (x0 v - xmin v) >? tolerance * (fabs (x0 v) + tolerance).

(** The [do ... while] itself.  Both ways out lead to the same statement;
    the flag in the result records which one was taken: [true] for the
    [break], [false] for the loop condition. *)
Fixpoint bracket_loop (rounds fuel : nat) (s tolerance : real) (v : vars)
  : M S (bool * vars) :=
  fun d =>
  match rounds with
  | O => Timeout
  | Datatypes.S rounds' =>
      match bracket_round fuel s v d with
      | None => Timeout
      | Some (true, v', d') => Done (true, v') d'
      | Some (false, v', d') =>
          if not_collapsed tolerance v'
          then bracket_loop rounds' fuel s tolerance v' d'
          else Done (false, v') d'
      end
  end.

(** The locals of the root search that survive an iteration. *)
Record ridder : Set := mkRidder {
  rv : vars; x_prev : real; is_xstart : bool; f_xstart : real
}.

(** The endpoint updates of lines 249-274, as a function of the two
    evaluations [(x0, f_x0, df_x0)] and [(x, f, df)]. *)
Definition ridder_update (v : vars) (f_x0 df_x0 x1 f1 df1 : real) : vars :=
  let keep (a fa dfa b fb dfb : real) :=
    mkVars a fa dfa b fb dfb (x0 v) x1 f1 df1 in
  if (df1 * df_x0 >? 0) || ((df1 - df_x0) * (x1 - x0 v) <? 0) then
    if x1 <? x0 v then
      if (df_xmin v * df1 >? 0) || ((df_xmin v - df1) * (xmin v - x1) <? 0)
      then keep (x0 v) f_x0 df_x0 (xmax v) (f_xmax v) (df_xmax v)
      else keep (xmin v) (f_xmin v) (df_xmin v) x1 f1 df1
    else if (df_xmin v * df_x0 >? 0)
            || ((df_xmin v - df_x0) * (xmin v - x0 v) <? 0)
    then keep x1 f1 df1 (xmax v) (f_xmax v) (df_xmax v)
    else keep (xmin v) (f_xmin v) (df_xmin v) (x0 v) f_x0 df_x0
  else
    if x1 <? x0 v
    then keep x1 f1 df1 (x0 v) f_x0 df_x0
    else keep (x0 v) f_x0 df_x0 x1 f1 df1.

Definition set_x0 (v : vars) (a : real) : vars :=
  mkVars (xmin v) (f_xmin v) (df_xmin v) (xmax v) (f_xmax v) (df_xmax v)
         a (x v) (f v) (df v).

Definition set_x (v : vars) (a : real) : vars :=
  mkVars (xmin v) (f_xmin v) (df_xmin v) (xmax v) (f_xmax v) (df_xmax v)
         (x0 v) a (f v) (df v).

(** [while (1)]: Ridder's method on the derivative. *)
Fixpoint ridder_loop (fuel : nat) (tolerance : real) (r : ridder) : M S ridder :=
  fun d =>
  match fuel with
  | O => Timeout
  | Datatypes.S fuel' =>
      let v := rv r in
      let '(f_x0, df_x0, d1) := func true (x0 v) d in
      let f_start := if is_xstart r then f_x0 else f_xstart r in
      let stop (v' : vars) := Done (mkRidder v' (x_prev r) false f_start) d1 in
      if df_x0 =? 0 then stop v
      else if df_xmin v =? 0 then stop (set_x0 v (xmin v))
      else if df_xmax v =? 0 then stop (set_x0 v (xmax v))
      else
        let x1 := x0 v + (x0 v - xmin v)
                         * (if df_xmin v >? df_xmax v then 1 else -1)
                         * df_x0
                         / sqrt (df_x0 * df_x0 - df_xmin v * df_xmax v) in
        if MAX2 (fabs (x1 - x_prev r))
                (MIN2 (fabs (x1 - xmin v)) (fabs (x1 - xmax v)))
           <? tolerance * (fabs x1 + tolerance)
        then stop (set_x0 (set_x v x1) x1)
        else
          let '(f1, df1, d2) := func true x1 d1 in
          let v' := ridder_update v f_x0 df_x0 x1 f1 df1 in
          ridder_loop fuel' tolerance
            (mkRidder (set_x0 v' (0.5 * (xmin v' + xmax v'))) x1 false f_start) d2
  end.

(** The values of the locals that the caller's stack holds before they are
    first assigned. *)
Record junk : Set := mkJunk {
  j_f : real; j_df : real; j_f_xmax : real; j_df_xmax : real;
  j_x : real; j_f_xstart : real
}.

(** Lines 198-290: what follows the bracketing loop. *)
Definition linmin_finish (fuel : nat) (j : junk) (s tolerance : real) (v : vars)
  : M S (real * real) :=
  (CHECK (not_collapsed tolerance v) FailedToBracket ;;;
   let v := if (x0 v * s <=? xmin v * s) || (x0 v * s >=? xmax v * s)
            then set_x0 v (0.5 * (xmin v + xmax v)) else v in
   let v := if xmin v >? xmax v
            then mkVars (xmax v) (f_xmax v) (df_xmax v)
                        (xmin v) (f_xmin v) (df_xmin v)
                        (x0 v) (xmin v) (f_xmin v) (df_xmin v)
            else v in
   r <- ridder_loop fuel tolerance (mkRidder v (x0 v) true (j_f_xstart j)) ;;
   fun d =>
     let '(f_x0, _, d') := func false (x0 (rv r)) d in
     Done (x0 (rv r),
           (f_xstart r - f_x0) * 2.0
           / (fabs (f_xstart r) + fabs f_x0 + tolerance)) d')%m.

(** The direction from [xmin] to [xmax], and the second [CHECK]. *)
Definition direction (xmin_ xmax_ : real) : real :=
  if xmax_ >? xmin_ then 1.0 else -1.0.

Definition in_range (xmin_ xmax_ x0_ : real) : bool :=
  let s := direction xmin_ xmax_ in
  (x0_ * s <? xmax_ * s) && (x0_ * s >? xmin_ * s).

(** [linmin(&improvement, xmin, f_xmin, df_xmin, xmax, x0, tolerance,
    func, data)]; the result is [(x0, improvement)].  [eval_count], which
    only a disabled [printf] reads, is left out. *)
Definition linmin (fuel : nat) (j : junk)
    (xmin_ f_xmin_ df_xmin_ xmax_ x0_ tolerance : real) : M S (real * real) :=
  (CHECK (df_xmin_ * (x0_ - xmin_) <? 0.0) BadInitialGuess ;;;
   let s := direction xmin_ xmax_ in
   CHECK (in_range xmin_ xmax_ x0_) GuessOutOfRange ;;;
   bv <- bracket_loop fuel fuel s tolerance
           (mkVars xmin_ f_xmin_ df_xmin_ xmax_ (j_f_xmax j) (j_df_xmax j)
                   x0_ (j_x j) (j_f j) (j_df j)) ;;
   linmin_finish fuel j s tolerance (snd bv))%m.

End Linmin.
End Linmin.

(** ** The interfaces the driver consumes *)

(** [evectmatrix] and [sqmatrix] are C structs passed by value: a callee
    sees the dimensions and can write the cells [data] points to, nothing
    else.  A value of these records is such a struct together with the
    present contents of its cells; a primitive that writes its first
    argument returns the new contents of that argument.  ([ev_n], [ev_p],
    [ev_data] are the fields [n], [p], [data] of [evectmatrix]; [sq_p],
    [sq_data] the fields [p], [data] of [sqmatrix].) *)
Record evectmatrix (scalar : Type) : Type := mkEvect {
  ev_n : nat; ev_p : nat; ev_data : list scalar
}.
Arguments mkEvect {scalar} _ _ _.
Arguments ev_n {scalar} _.
Arguments ev_p {scalar} _.
Arguments ev_data {scalar} _.

Record sqmatrix (scalar : Type) : Type := mkSq {
  sq_p : nat; sq_data : list scalar
}.
Arguments mkSq {scalar} _ _.
Arguments sq_p {scalar} _.
Arguments sq_data {scalar} _.

(** Everything the file includes and does not define.  The argument lists
    are those of the C prototypes. *)
Class Primitives : Type := {
  (* scalar.h *)
  scalar : Type;
  SCALAR_RE : scalar -> real;
  scalar_zero : scalar;                       (* ASSIGN_ZERO(a):  a = 0 *)
  scalar_diff : scalar -> scalar -> scalar;   (* ACCUMULATE_DIFF(a, b):  a -= b *)
  BADNUM : real -> bool;
  (* math.h *)
  cos : real -> real;
  sin : real -> real;
  (* blasglue.h *)
  blasglue_scal : nat -> real -> list scalar -> Z -> list scalar;
  (* matrices.h, blocks *)
  evectmatrix_XtX : sqmatrix scalar -> evectmatrix scalar -> list scalar;
  evectmatrix_XtY : sqmatrix scalar -> evectmatrix scalar -> evectmatrix scalar
                    -> list scalar;
  evectmatrix_XeYS : evectmatrix scalar -> evectmatrix scalar -> sqmatrix scalar
                     -> bool -> list scalar;
  evectmatrix_XpaYS : evectmatrix scalar -> real -> evectmatrix scalar
                      -> sqmatrix scalar -> list scalar;
  evectmatrix_aXpbY : real -> evectmatrix scalar -> real -> evectmatrix scalar
                      -> list scalar;
  evectmatrix_traceXtY : evectmatrix scalar -> evectmatrix scalar -> scalar;
  evectmatrix_copy : evectmatrix scalar -> evectmatrix scalar -> list scalar;
  (* matrices.h, square matrices *)
  create_sqmatrix : nat -> list scalar;       (* the cells as malloc left them *)
  sqmatrix_copy : sqmatrix scalar -> sqmatrix scalar -> list scalar;
  sqmatrix_invert : sqmatrix scalar -> list scalar;
  sqmatrix_AeBC : sqmatrix scalar -> sqmatrix scalar -> bool -> sqmatrix scalar
                  -> bool -> list scalar;
  sqmatrix_ApaBC : sqmatrix scalar -> real -> sqmatrix scalar -> bool
                   -> sqmatrix scalar -> bool -> list scalar;
  sqmatrix_aApbB : real -> sqmatrix scalar -> real -> sqmatrix scalar
                   -> list scalar;
  sqmatrix_ApaB : sqmatrix scalar -> real -> sqmatrix scalar -> list scalar;
  sqmatrix_symmetrize : sqmatrix scalar -> sqmatrix scalar -> list scalar;
  sqmatrix_trace : sqmatrix scalar -> scalar;
  sqmatrix_traceAtB : sqmatrix scalar -> sqmatrix scalar -> scalar;
  (* mpiglue.h; [world] is all the state behind the [void *data] pointers
     and the clock *)
  world : Type;
  mpiglue_clock_t : Type;
  MPIGLUE_CLOCK : world -> mpiglue_clock_t * world;
  MPIGLUE_CLOCK_DIFF : mpiglue_clock_t -> mpiglue_clock_t -> real;
  (* eigensolver.h *)
  EIGS_VERBOSE : Z;
  EIGS_PROJECT_PRECONDITIONING : Z;
  EIGS_RESET_CG : Z;
  EIGS_FORCE_EXACT_LINMIN : Z;
  EIGS_FORCE_APPROX_LINMIN : Z
}.

(** The blocks the driver can name: [Y] and the workspaces [Work[i]]. *)
Inductive handle : Set := HY | HWork (i : nat).

Definition handle_eqb (a b : handle) : bool :=
  match a, b with
  | HY, HY => true
  | HWork i, HWork j => Nat.eqb i j
  | _, _ => false
  end.

(** The ten square matrices [eigensolver] creates. *)
Inductive sqname : Set :=
| YtAYU | DtAD | symYtAD | YtY | U | DtD | symYtD | S1 | S2 | S3.

Definition sqname_eqb (a b : sqname) : bool :=
  match a, b with
  | YtAYU, YtAYU | DtAD, DtAD | symYtAD, symYtAD | YtY, YtY | U, U
  | DtD, DtD | symYtD, symYtD | S1, S1 | S2, S2 | S3, S3 => true
  | _, _ => false
  end.

Definition upd {K V : Type} (eqb : K -> K -> bool) (m : K -> V) (k : K) (v : V)
  : K -> V :=
  fun k' => if eqb k' k then v else m k'.

(** What the program prints. *)
Inductive message : Set :=
| MsgIteration (number : Z) (trace change : real)
| MsgResettingCG
| MsgSwitchingBackToExact
| MsgDerivatives (dE d2E theta : real)
| MsgNearMaximum
| MsgLargeTraceChange (percent : real)
| MsgLargeTheta (theta : real)
| MsgSwitchingToApprox (percent : real).

(** [for (i = start; i < start + count; ++i) body] *)
Fixpoint for_loop {T : Type} (count start : nat) (body : nat -> T -> T) (t : T)
  : T :=
  match count with
  | O => t
  | S count' => for_loop count' (S start) body (body start t)
  end.

(** [l[i] = v]; a write past the end, undefined in C, leaves [l] alone. *)
Fixpoint store_at {T : Type} (i : nat) (v : T) (l : list T) {struct l} : list T :=
  match l, i with
  | [], _ => []
  | _ :: l', O => v :: l'
  | a :: l', S i' => a :: store_at i' v l'
  end.

(** [g] applied cell by cell. *)
Definition map2 {T1 T2 T3 : Type} (g : T1 -> T2 -> T3) (u : list T1) (v : list T2)
  : list T3 :=
  map (fun uv => g (fst uv) (snd uv)) (combine u v).

(** An [int] converted to [real]. *)
Definition real_of_int (z : Z) : real :=
  if (z <? 0)%Z then - of_uint63 (Uint63.of_Z (- z)) else of_uint63 (Uint63.of_Z z).

Definition flag_set (flags mask : Z) : bool := negb (Z.land flags mask =? 0)%Z.

Module Eigensolver.
Section Driver.

Context {P : Primitives}.

Definition evect := evectmatrix scalar.
Definition sqmat := sqmatrix scalar.

(** [evectoperator], [evectpreconditioner] and [evectconstraint]; the
    [void *] data they receive is in [world].  [A] returns the new cells of
    [Yout] and of [Work], [K] those of [Xout], [constraint] those of [Y]. *)
Definition evectoperator : Type :=
  evect -> evect -> bool -> evect -> world -> list scalar * list scalar * world.
Definition evectpreconditioner : Type :=
  evect -> evect -> evect -> sqmat -> world -> list scalar * world.
Definition evectconstraint : Type :=
  evect -> world -> list scalar * world.

(** [eigensolver_get_eigenvals_aux(Y, eigenvals, A, Adata, Work1, Work2,
    U, Usqrt, Uwork)], declared [extern]. *)
Record aux_result : Type := mkAux {
  aux_Y : list scalar; aux_eigenvals : list real;
  aux_Work1 : list scalar; aux_Work2 : list scalar;
  aux_U : list scalar; aux_Usqrt : list scalar; aux_Uwork : list scalar;
  aux_world : world
}.

(** The locals that [eigensolver] declares without a value, and those of
    [linmin]: what the stack holds where they are allocated. *)
Record uninitialised : Set := mkUninitialised {
  u_E : real; u_traceGtX : real; u_theta : real;
  u_time_AZ : real; u_time_KZ : real; u_time_ZtZ : real;
  u_time_ZtW : real; u_time_ZS : real; u_time_linmin : real;
  u_linmin_improvement : real;
  u_linmin : Linmin.junk
}.

(** What a call of [eigensolver] does not change: the callbacks (of which
    [K] and [constraint] may be NULL), the dimensions in the structs [Y]
    and [Work[i]], [nWork], [tolerance] and [flags]; with them, the routine
    [eigensolver_get_eigenvals_aux] the file links against and the
    contents of the uninitialised locals. *)
Record args : Type := mkArgs {
  A : evectoperator;
  K : option evectpreconditioner;
  constraint : option evectconstraint;
  dims : handle -> nat * nat;
  nWork : Z;
  tolerance : real;
  flags : Z;
  eigensolver_get_eigenvals_aux :
    evect -> list real -> evectoperator -> evect -> evect
    -> sqmat -> sqmat -> sqmat -> world -> aux_result;
  garbage : uninitialised
}.

Record state : Type := mkState {
  env : world;
  blk : handle -> list scalar;
  sq : sqname -> list scalar;
  eigenvals : list real;
  stdout : list message;
  use_linmin : bool;
  E : real;
  prev_E : real;
  traceGtX : real;
  prev_traceGtX : real;
  theta : real;
  prev_theta : real;
  iteration : Z;
  prev_feedback_time : mpiglue_clock_t;
  time_AZ : real;
  time_KZ : real;
  time_ZtZ : real;
  time_ZtW : real;
  time_ZS : real;
  time_linmin : real;
  linmin_improvement : real
}.

Definition set_env (st : state) (v : world) : state :=
  mkState v (blk st) (sq st) (eigenvals st) (stdout st) (use_linmin st)
    (E st) (prev_E st) (traceGtX st) (prev_traceGtX st) (theta st)
    (prev_theta st) (iteration st) (prev_feedback_time st) (time_AZ st)
    (time_KZ st) (time_ZtZ st) (time_ZtW st) (time_ZS st) (time_linmin st)
    (linmin_improvement st).

Definition set_blk (st : state) (v : handle -> list scalar) : state :=
  mkState (env st) v (sq st) (eigenvals st) (stdout st) (use_linmin st)
    (E st) (prev_E st) (traceGtX st) (prev_traceGtX st) (theta st)
    (prev_theta st) (iteration st) (prev_feedback_time st) (time_AZ st)
    (time_KZ st) (time_ZtZ st) (time_ZtW st) (time_ZS st) (time_linmin st)
    (linmin_improvement st).

Definition set_sq (st : state) (v : sqname -> list scalar) : state :=
  mkState (env st) (blk st) v (eigenvals st) (stdout st) (use_linmin st)
    (E st) (prev_E st) (traceGtX st) (prev_traceGtX st) (theta st)
    (prev_theta st) (iteration st) (prev_feedback_time st) (time_AZ st)
    (time_KZ st) (time_ZtZ st) (time_ZtW st) (time_ZS st) (time_linmin st)
    (linmin_improvement st).

Definition set_eigenvals (st : state) (v : list real) : state :=
  mkState (env st) (blk st) (sq st) v (stdout st) (use_linmin st) (E st)
    (prev_E st) (traceGtX st) (prev_traceGtX st) (theta st) (prev_theta st)
    (iteration st) (prev_feedback_time st) (time_AZ st) (time_KZ st)
    (time_ZtZ st) (time_ZtW st) (time_ZS st) (time_linmin st)
    (linmin_improvement st).

Definition set_stdout (st : state) (v : list message) : state :=
  mkState (env st) (blk st) (sq st) (eigenvals st) v (use_linmin st) (E st)
    (prev_E st) (traceGtX st) (prev_traceGtX st) (theta st) (prev_theta st)
    (iteration st) (prev_feedback_time st) (time_AZ st) (time_KZ st)
    (time_ZtZ st) (time_ZtW st) (time_ZS st) (time_linmin st)
    (linmin_improvement st).

Definition set_use_linmin (st : state) (v : bool) : state :=
  mkState (env st) (blk st) (sq st) (eigenvals st) (stdout st) v (E st)
    (prev_E st) (traceGtX st) (prev_traceGtX st) (theta st) (prev_theta st)
    (iteration st) (prev_feedback_time st) (time_AZ st) (time_KZ st)
    (time_ZtZ st) (time_ZtW st) (time_ZS st) (time_linmin st)
    (linmin_improvement st).

Definition set_E (st : state) (v : real) : state :=
  mkState (env st) (blk st) (sq st) (eigenvals st) (stdout st)
    (use_linmin st) v (prev_E st) (traceGtX st) (prev_traceGtX st)
    (theta st) (prev_theta st) (iteration st) (prev_feedback_time st)
    (time_AZ st) (time_KZ st) (time_ZtZ st) (time_ZtW st) (time_ZS st)
    (time_linmin st) (linmin_improvement st).

Definition set_prev_E (st : state) (v : real) : state :=
  mkState (env st) (blk st) (sq st) (eigenvals st) (stdout st)
    (use_linmin st) (E st) v (traceGtX st) (prev_traceGtX st) (theta st)
    (prev_theta st) (iteration st) (prev_feedback_time st) (time_AZ st)
    (time_KZ st) (time_ZtZ st) (time_ZtW st) (time_ZS st) (time_linmin st)
    (linmin_improvement st).

Definition set_traceGtX (st : state) (v : real) : state :=
  mkState (env st) (blk st) (sq st) (eigenvals st) (stdout st)
    (use_linmin st) (E st) (prev_E st) v (prev_traceGtX st) (theta st)
    (prev_theta st) (iteration st) (prev_feedback_time st) (time_AZ st)
    (time_KZ st) (time_ZtZ st) (time_ZtW st) (time_ZS st) (time_linmin st)
    (linmin_improvement st).

Definition set_prev_traceGtX (st : state) (v : real) : state :=
  mkState (env st) (blk st) (sq st) (eigenvals st) (stdout st)
    (use_linmin st) (E st) (prev_E st) (traceGtX st) v (theta st)
    (prev_theta st) (iteration st) (prev_feedback_time st) (time_AZ st)
    (time_KZ st) (time_ZtZ st) (time_ZtW st) (time_ZS st) (time_linmin st)
    (linmin_improvement st).

Definition set_theta (st : state) (v : real) : state :=
  mkState (env st) (blk st) (sq st) (eigenvals st) (stdout st)
    (use_linmin st) (E st) (prev_E st) (traceGtX st) (prev_traceGtX st) v
    (prev_theta st) (iteration st) (prev_feedback_time st) (time_AZ st)
    (time_KZ st) (time_ZtZ st) (time_ZtW st) (time_ZS st) (time_linmin st)
    (linmin_improvement st).

Definition set_prev_theta (st : state) (v : real) : state :=
  mkState (env st) (blk st) (sq st) (eigenvals st) (stdout st)
    (use_linmin st) (E st) (prev_E st) (traceGtX st) (prev_traceGtX st)
    (theta st) v (iteration st) (prev_feedback_time st) (time_AZ st)
    (time_KZ st) (time_ZtZ st) (time_ZtW st) (time_ZS st) (time_linmin st)
    (linmin_improvement st).

Definition set_iteration (st : state) (v : Z) : state :=
  mkState (env st) (blk st) (sq st) (eigenvals st) (stdout st)
    (use_linmin st) (E st) (prev_E st) (traceGtX st) (prev_traceGtX st)
    (theta st) (prev_theta st) v (prev_feedback_time st) (time_AZ st)
    (time_KZ st) (time_ZtZ st) (time_ZtW st) (time_ZS st) (time_linmin st)
    (linmin_improvement st).

Definition set_prev_feedback_time (st : state) (v : mpiglue_clock_t) : state :=
  mkState (env st) (blk st) (sq st) (eigenvals st) (stdout st)
    (use_linmin st) (E st) (prev_E st) (traceGtX st) (prev_traceGtX st)
    (theta st) (prev_theta st) (iteration st) v (time_AZ st) (time_KZ st)
    (time_ZtZ st) (time_ZtW st) (time_ZS st) (time_linmin st)
    (linmin_improvement st).

Definition set_time_AZ (st : state) (v : real) : state :=
  mkState (env st) (blk st) (sq st) (eigenvals st) (stdout st)
    (use_linmin st) (E st) (prev_E st) (traceGtX st) (prev_traceGtX st)
    (theta st) (prev_theta st) (iteration st) (prev_feedback_time st) v
    (time_KZ st) (time_ZtZ st) (time_ZtW st) (time_ZS st) (time_linmin st)
    (linmin_improvement st).

Definition set_time_KZ (st : state) (v : real) : state :=
  mkState (env st) (blk st) (sq st) (eigenvals st) (stdout st)
    (use_linmin st) (E st) (prev_E st) (traceGtX st) (prev_traceGtX st)
    (theta st) (prev_theta st) (iteration st) (prev_feedback_time st)
    (time_AZ st) v (time_ZtZ st) (time_ZtW st) (time_ZS st) (time_linmin st)
    (linmin_improvement st).

Definition set_time_ZtZ (st : state) (v : real) : state :=
  mkState (env st) (blk st) (sq st) (eigenvals st) (stdout st)
    (use_linmin st) (E st) (prev_E st) (traceGtX st) (prev_traceGtX st)
    (theta st) (prev_theta st) (iteration st) (prev_feedback_time st)
    (time_AZ st) (time_KZ st) v (time_ZtW st) (time_ZS st) (time_linmin st)
    (linmin_improvement st).

Definition set_time_ZtW (st : state) (v : real) : state :=
  mkState (env st) (blk st) (sq st) (eigenvals st) (stdout st)
    (use_linmin st) (E st) (prev_E st) (traceGtX st) (prev_traceGtX st)
    (theta st) (prev_theta st) (iteration st) (prev_feedback_time st)
    (time_AZ st) (time_KZ st) (time_ZtZ st) v (time_ZS st) (time_linmin st)
    (linmin_improvement st).

Definition set_time_ZS (st : state) (v : real) : state :=
  mkState (env st) (blk st) (sq st) (eigenvals st) (stdout st)
    (use_linmin st) (E st) (prev_E st) (traceGtX st) (prev_traceGtX st)
    (theta st) (prev_theta st) (iteration st) (prev_feedback_time st)
    (time_AZ st) (time_KZ st) (time_ZtZ st) (time_ZtW st) v (time_linmin st)
    (linmin_improvement st).

Definition set_time_linmin (st : state) (v : real) : state :=
  mkState (env st) (blk st) (sq st) (eigenvals st) (stdout st)
    (use_linmin st) (E st) (prev_E st) (traceGtX st) (prev_traceGtX st)
    (theta st) (prev_theta st) (iteration st) (prev_feedback_time st)
    (time_AZ st) (time_KZ st) (time_ZtZ st) (time_ZtW st) (time_ZS st) v
    (linmin_improvement st).

Definition set_linmin_improvement (st : state) (v : real) : state :=
  mkState (env st) (blk st) (sq st) (eigenvals st) (stdout st)
    (use_linmin st) (E st) (prev_E st) (traceGtX st) (prev_traceGtX st)
    (theta st) (prev_theta st) (iteration st) (prev_feedback_time st)
    (time_AZ st) (time_KZ st) (time_ZtZ st) (time_ZtW st) (time_ZS st)
    (time_linmin st) v.
Variable a : args.

Definition Yn : nat := fst (dims a HY).
Definition Yp : nat := snd (dims a HY).

(** The struct behind a handle, with the present contents of its cells. *)
Definition ld (st : state) (h : handle) : evect :=
  mkEvect (fst (dims a h)) (snd (dims a h)) (blk st h).
Definition ldsq (st : state) (m : sqname) : sqmat := mkSq Yp (sq st m).

Definition st_blk (st : state) (h : handle) (v : list scalar) : state :=
  set_blk st (upd handle_eqb (blk st) h v).
Definition st_sq (st : state) (m : sqname) (v : list scalar) : state :=
  set_sq st (upd sqname_eqb (sq st) m v).

Definition printf (m : message) (st : state) : state :=
  set_stdout st (stdout st ++ [m]).

Definition flag (mask : Z) : bool := flag_set (flags a) mask.

(** *** The calls, as state transformers *)

Definition XtX (u : sqname) (x : handle) (st : state) : state :=
  st_sq st u (evectmatrix_XtX (ldsq st u) (ld st x)).
Definition XtY (u : sqname) (x y : handle) (st : state) : state :=
  st_sq st u (evectmatrix_XtY (ldsq st u) (ld st x) (ld st y)).
Definition XeYS (x y : handle) (s : sqname) (sherm : bool) (st : state) : state :=
  st_blk st x (evectmatrix_XeYS (ld st x) (ld st y) (ldsq st s) sherm).
Definition XpaYS (x : handle) (c : real) (y : handle) (s : sqname) (st : state)
  : state :=
  st_blk st x (evectmatrix_XpaYS (ld st x) c (ld st y) (ldsq st s)).
Definition aXpbY (c : real) (x : handle) (b : real) (y : handle) (st : state)
  : state :=
  st_blk st x (evectmatrix_aXpbY c (ld st x) b (ld st y)).
Definition copy (x y : handle) (st : state) : state :=
  st_blk st x (evectmatrix_copy (ld st x) (ld st y)).
Definition traceXtY (st : state) (x y : handle) : real :=
  SCALAR_RE (evectmatrix_traceXtY (ld st x) (ld st y)).

Definition sq_copy (m b : sqname) (st : state) : state :=
  st_sq st m (sqmatrix_copy (ldsq st m) (ldsq st b)).
Definition invert (m : sqname) (st : state) : state :=
  st_sq st m (sqmatrix_invert (ldsq st m)).
Definition AeBC (m b : sqname) (bdagger : bool) (c : sqname) (cdagger : bool)
    (st : state) : state :=
  st_sq st m (sqmatrix_AeBC (ldsq st m) (ldsq st b) bdagger (ldsq st c) cdagger).
Definition ApaBC (m : sqname) (r : real) (b : sqname) (bdagger : bool)
    (c : sqname) (cdagger : bool) (st : state) : state :=
  st_sq st m
    (sqmatrix_ApaBC (ldsq st m) r (ldsq st b) bdagger (ldsq st c) cdagger).
Definition aApbB (r : real) (m : sqname) (t : real) (b : sqname) (st : state)
  : state :=
  st_sq st m (sqmatrix_aApbB r (ldsq st m) t (ldsq st b)).
Definition ApaB (m : sqname) (r : real) (b : sqname) (st : state) : state :=
  st_sq st m (sqmatrix_ApaB (ldsq st m) r (ldsq st b)).
Definition symmetrize (m b : sqname) (st : state) : state :=
  st_sq st m (sqmatrix_symmetrize (ldsq st m) (ldsq st b)).
Definition trace (st : state) (m : sqname) : real :=
  SCALAR_RE (sqmatrix_trace (ldsq st m)).
Definition traceAtB (st : state) (m b : sqname) : real :=
  SCALAR_RE (sqmatrix_traceAtB (ldsq st m) (ldsq st b)).

(** [A(Yin, Yout, Adata, is_current_eigenvector, Work)] *)
Definition call_A (yin yout : handle) (is_current : bool) (work : handle)
    (st : state) : state :=
  let r := A a (ld st yin) (ld st yout) is_current (ld st work) (env st) in
  set_env (st_blk (st_blk st work (snd (fst r))) yout (fst (fst r))) (snd r).

(** [K(G, X, Kdata, Y, NULL, YtY)] *)
Definition call_K (k : evectpreconditioner) (g x y : handle) (yty : sqname)
    (st : state) : state :=
  let r := k (ld st g) (ld st x) (ld st y) (ldsq st yty) (env st) in
  set_env (st_blk st x (fst r)) (snd r).

(** [if (constraint) constraint(Y, constraint_data)] *)
Definition apply_constraint (st : state) : state :=
  match constraint a with
  | Some c =>
      let r := c (ld st HY) (env st) in
      set_env (st_blk st HY (fst r)) (snd r)
  | None => st
  end.

Definition clock (st : state) : mpiglue_clock_t * state :=
  let r := MPIGLUE_CLOCK (env st) in (fst r, set_env st (snd r)).

(** [TIME_OP(t, op)] *)
Definition TIME_OP (set_t : state -> real -> state) (op : state -> state)
    (st : state) : state :=
  let c0 := clock st in
  let st := op (snd c0) in
  let c1 := clock st in
  set_t (snd c1) (MPIGLUE_CLOCK_DIFF (fst c1) (fst c0)).

(** *** [trace_func] *)

(** [trace_func_data]: the matrices are shared with the driver, so the
    struct holds their names. *)
Record trace_func_data : Set := mkTfd {
  d_norm : real;
  t_YtAY : sqname; t_DtAD : sqname; t_symYtAD : sqname;
  t_YtY : sqname; t_DtD : sqname; t_symYtD : sqname;
  t_S1 : sqname; t_S2 : sqname; t_S3 : sqname
}.

(** [trace_func(trace_deriv, theta, data)]; [want] is
    [trace_deriv != NULL].  Without it the second component is 0 and
    carries no meaning. *)
Definition trace_func (d : trace_func_data) (want : bool) (th : real)
    (st : state) : real * real * state :=
  let c := cos th in
  let s := sin th / d_norm d in
  let st := sq_copy (t_S1 d) (t_YtY d) st in
  let st := aApbB (c * c) (t_S1 d) (s * s) (t_DtD d) st in
  let st := ApaB (t_S1 d) (2 * s * c) (t_symYtD d) st in
  let st := invert (t_S1 d) st in
  let st := sq_copy (t_S2 d) (t_YtAY d) st in
  let st := aApbB (c * c) (t_S2 d) (s * s) (t_DtAD d) st in
  let st := ApaB (t_S2 d) (2 * s * c) (t_symYtAD d) st in
  let tr := traceAtB st (t_S2 d) (t_S1 d) in
  if want then
    let c2 := cos (2 * th) in
    let s2 := sin (2 * th) in
    let st := sq_copy (t_S3 d) (t_YtAY d) st in
    let st := ApaB (t_S3 d) (-1.0 / (d_norm d * d_norm d)) (t_DtAD d) st in
    let st := aApbB (-0.5 * s2) (t_S3 d) (c2 / d_norm d) (t_symYtAD d) st in
    let deriv := traceAtB st (t_S1 d) (t_S3 d) in
    let st := AeBC (t_S3 d) (t_S1 d) false (t_S2 d) true st in
    let st := AeBC (t_S2 d) (t_S3 d) false (t_S1 d) true st in
    let st := sq_copy (t_S3 d) (t_YtY d) st in
    let st := ApaB (t_S3 d) (-1.0 / (d_norm d * d_norm d)) (t_DtD d) st in
    let st := aApbB (-0.5 * s2) (t_S3 d) (c2 / d_norm d) (t_symYtD d) st in
    let deriv := deriv - traceAtB st (t_S2 d) (t_S3 d) in
    (tr, deriv * 2, st)
  else (tr, 0, st).

(** [tfd], as the driver fills it in: [tfd.YtAY] is [S1] and [tfd.S1] is
    [YtAYU]. *)
Definition tfd (dn : real) : trace_func_data :=
  mkTfd dn S1 DtAD symYtAD YtY DtD symYtD YtAYU S2 S3.


(** *** The workspaces *)

Definition usingConjugateGradient : bool := (3 <=? nWork a)%Z.
Definition use_polak_ribiere : bool := (4 <=? nWork a)%Z.

Definition G : handle := HWork 0.
Definition X : handle := HWork 1.
Definition D : handle := if usingConjugateGradient then HWork 2 else X.
Definition prev_G : handle := if use_polak_ribiere then HWork 3 else G.

(** [for (i = 0; i < count; ++i) ASSIGN_ZERO(h.data[i])] *)
Definition zero_fill (h : handle) (count : nat) (st : state) : state :=
  for_loop count 0
    (fun i st => st_blk st h (store_at i scalar_zero (blk st h))) st.

(** *** One iteration, phase by phase *)

(** Lines 373-384: the forced strategy, [YtY], the rescaling of [Y] and
    the inverse [U]. *)
Definition normalize (st : state) : state :=
  let st := if flag EIGS_FORCE_APPROX_LINMIN then set_use_linmin st false
            else st in
  let st := TIME_OP set_time_ZtZ (XtX YtY HY) st in
  let y_norm := sqrt (trace st YtY / real_of_int (Z.of_nat Yp)) in
  let st := st_blk st HY
              (blasglue_scal (Yp * Yn) (1 / y_norm) (blk st HY) 1) in
  let st := st_sq st YtY
              (blasglue_scal (Yp * Yp) (1 / (y_norm * y_norm)) (sq st YtY) 1) in
  let st := sq_copy U YtY st in
  invert U st.

(** Lines 386-392: [X = AY], [G = AYU], [YtAYU] and the trace [E]. *)
Definition measure_trace (st : state) : state :=
  let st := TIME_OP set_time_AZ (call_A HY X true G) st in
  let st := TIME_OP set_time_ZS (XeYS G X U true) st in
  let st := TIME_OP set_time_ZtW (XtY YtAYU HY G) st in
  set_E st (trace st YtAYU).

(** Lines 395-396: the test that leaves the loop. *)
Definition converged (st : state) : bool :=
  (0 <? iteration st)%Z
  && (fabs (E st - prev_E st)
      <? tolerance a * 0.5 * (E st + prev_E st + 1e-7)).

(** Lines 399-407.  The clock is read only when [EIGS_VERBOSE] is off. *)
Definition feedback (st : state) : state :=
  let report (st : state) :=
    let st := printf (MsgIteration (iteration st + 1) (E st)
                        (200.0 * fabs (E st - prev_E st)
                         / (fabs (E st) + fabs (prev_E st)))) st in
    let c := clock st in
    set_prev_feedback_time (snd c) (fst c) in
  if flag EIGS_VERBOSE then report st
  else
    let c := clock st in
    if MPIGLUE_CLOCK_DIFF (fst c) (prev_feedback_time st) >? FEEDBACK_TIME
    then report (snd c) else snd c.

(** Lines 410-411: [G = (1 - Y U Yt) A Y U]. *)
Definition gradient (st : state) : state :=
  let st := AeBC S1 U false YtAYU false st in
  XpaYS G (-1.0) HY S1 st.

(** Lines 414-427: [X = K(G)], projected when the flag asks for it. *)
Definition precondition (st : state) : state :=
  let st := match K a with
            | Some k => TIME_OP set_time_KZ (call_K k G X HY YtY) st
            | None => copy X G st
            end in
  if flag EIGS_PROJECT_PRECONDITIONING then
    let st := XtY symYtD HY X st in
    let st := AeBC S1 U false symYtD false st in
    XpaYS X (-1.0) HY S1 st
  else st.

(** Lines 441-445: [G = G - prev_G] and [prev_G = G] in one loop.  The
    body handles the single index [i]; [g] is its only temporary.  A read
    past the end of a block, undefined in C, reads [scalar_zero]. *)
Definition polak_ribiere_step (i : nat) (st : state) : state :=
  let g := nth i (blk st G) scalar_zero in
  let st := st_blk st G
              (store_at i (scalar_diff (nth i (blk st G) scalar_zero)
                                       (nth i (blk st prev_G) scalar_zero))
                        (blk st G)) in
  st_blk st prev_G (store_at i g (blk st prev_G)).

Definition polak_ribiere_pass (st : state) : state :=
  for_loop (Yn * Yp) 0 polak_ribiere_step st.

(** The same step on the cells of two distinct arrays, [G] first. *)
Definition difference_step (i : nat) (gp : list scalar * list scalar)
  : list scalar * list scalar :=
  (store_at i (scalar_diff (nth i (fst gp) scalar_zero)
                           (nth i (snd gp) scalar_zero)) (fst gp),
   store_at i (nth i (fst gp) scalar_zero) (snd gp)).

(** Lines 437-449: the numerator of [gamma], with the state the
    Polak-Ribiere pass leaves. *)
Definition gamma_numerator (st : state) : state * real :=
  if use_polak_ribiere then
    let st := polak_ribiere_pass st in (st, traceXtY st G X)
  else (st, traceGtX st).

(** Lines 433-466: [traceGtX], [gamma] and [D = gamma D + X]. *)
Definition cg_update (st : state) : state :=
  let st := set_traceGtX st (traceXtY st G X) in
  if usingConjugateGradient then
    let num := gamma_numerator st in
    let st := fst num in
    let gamma := if prev_traceGtX st =? 0.0 then 0.0
                 else snd num / prev_traceGtX st in
    let reset := flag EIGS_RESET_CG
                 && (Z.rem (iteration st + 1) CG_RESET_ITERS =? 0)%Z in
    let gamma := if reset then 0.0 else gamma in
    let st := if reset && flag EIGS_VERBOSE then printf MsgResettingCG st
              else st in
    aXpbY gamma D 1.0 X st
  else st.

(** [dE > 0 ? -fabs(prev_theta) : fabs(prev_theta)] *)
Definition downhill (dE prev_theta : real) : real :=
  if dE >? 0 then - fabs prev_theta else fabs prev_theta.

(** Lines 481-503 of the approximate line minimisation: the probe.  The
    result is the state after the probe and the locals [d_norm], [dE],
    [t], [d2E]; [theta] is assigned in the state. *)
Record probe : Type := mkProbe {
  pr_state : state; pr_d_norm : real; pr_dE : real; pr_t : real; pr_d2E : real
}.

Definition approx_probe (st : state) : probe :=
  let d_norm := sqrt (traceXtY st D D / real_of_int (Z.of_nat Yp)) in
  let dE := 2.0 * traceXtY st prev_G D / d_norm in
  let t := if dE <? 0 then - fabs (prev_theta st) else fabs (prev_theta st) in
  let st := aXpbY 1.0 HY (t / d_norm) D st in
  let st := XtX U HY st in
  let st := invert U st in
  let st := call_A HY G true X st in
  let st := XtY S1 HY G st in
  let E2 := traceAtB st S1 U in
  let d2E := (E2 - E st - dE * t) / (0.5 * t * t) in
  mkProbe (set_theta st (- dE / d2E)) d_norm dE t d2E.

(** The test of line 511. *)
Definition approx_rejected (pr : probe) : bool :=
  let st := pr_state pr in
  (pr_d2E pr <? 0)
  || (-0.5 * pr_dE pr * theta st >? 20.0 * fabs (E st - prev_E st)).

(** Lines 470-523, entered with [use_linmin] false. *)
Definition approx_linmin (st : state) : state :=
  let pr := approx_probe st in
  let st := pr_state pr in
  if approx_rejected pr then
    let st := if flag EIGS_VERBOSE then printf MsgSwitchingBackToExact st
              else st in
    let st := printf (MsgDerivatives (pr_dE pr) (pr_d2E pr) (theta st)) st in
    let st := set_use_linmin st true in
    aXpbY 1.0 HY (- pr_t pr / pr_d_norm pr) D st
  else
    aXpbY 1.0 HY ((theta st - pr_t pr) / pr_d_norm pr) D st.

(** Lines 528-551 of the exact line minimisation: the matrices along [D]
    and the two derivatives.  The result is the state and the locals
    [d_norm], [dE], [d2E]. *)
Record slope : Type := mkSlope {
  sl_state : state; sl_d_norm : real; sl_dE : real; sl_d2E : real
}.

Definition exact_slope (st : state) : slope :=
  let st := call_A D G false X st in
  let st := XtX DtD D st in
  let d_norm2 := trace st DtD / real_of_int (Z.of_nat Yp) in
  let d_norm := sqrt d_norm2 in
  let st := XtY DtAD D G st in
  let st := XtY S1 HY D st in
  let st := symmetrize symYtD S1 st in
  let st := XtY S1 HY G st in
  let st := symmetrize symYtAD S1 st in
  let st := AeBC S1 U false symYtD true st in
  let dE := 2.0 * (traceAtB st U symYtAD - traceAtB st YtAYU S1) / d_norm in
  let st := sq_copy S2 DtD st in
  let st := ApaBC S2 (-4.0) symYtD false S1 false st in
  let st := AeBC S3 symYtAD false S1 false st in
  let st := AeBC S1 U false S2 true st in
  let d2E := 2.0 * (traceAtB st U DtAD - traceAtB st YtAYU S1
                    - 4.0 * traceAtB st U S3) / d_norm2 in
  mkSlope st d_norm dE d2E.

(** Lines 555-571: the Newton step and its safeguards.  The result is
    [theta] and what was printed on the way. *)
Definition exact_theta (dE d2E prev_theta E_ prev_E_ : real)
  : real * list message :=
  let theta := - dE / d2E in
  let r1 :=
    if d2E <? 0 then
      (downhill dE prev_theta,
       if flag EIGS_VERBOSE then [MsgNearMaximum] else [])
    else if -0.5 * dE * theta >? 2.0 * fabs (E_ - prev_E_) then
      (theta,
       if flag EIGS_VERBOSE
       then [MsgLargeTraceChange (-0.5 * dE * theta / E_ * 100.0)] else [])
    else (theta, []) in
  if fabs (fst r1) >=? K_PI then
    (downhill dE prev_theta,
     snd r1 ++ (if flag EIGS_VERBOSE then [MsgLargeTheta (fst r1)] else []))
  else r1.

(** Lines 528-575: everything before the call of [linmin]; [theta] holds
    the initial guess. *)
Definition exact_prepare (st : state) : state :=
  let sl := exact_slope st in
  let st := sl_state sl in
  let th := exact_theta (sl_dE sl) (sl_d2E sl) (prev_theta st) (E st)
                        (prev_E st) in
  let st := set_theta (set_stdout st (stdout st ++ snd th)) (fst th) in
  AeBC S1 YtAYU false YtY true st.

(** Lines 524-584. *)
Definition exact_linmin (fuel : nat) (st : state) : outcome state unit :=
  let sl := exact_slope st in
  let dE := sl_dE sl in
  let st := exact_prepare st in
  let c0 := clock st in
  match Linmin.linmin (trace_func (tfd (sl_d_norm sl))) fuel
          (u_linmin (garbage a))
          0 (E st) dE (if dE >? 0 then - K_PI else K_PI) (theta st)
          (tolerance a) (snd c0) with
  | Done (th', improvement) st =>
      let st := set_theta (set_linmin_improvement st improvement) th' in
      let c1 := clock st in
      let st := set_time_linmin (snd c1) (MPIGLUE_CLOCK_DIFF (fst c1) (fst c0)) in
      Done tt (aXpbY (cos (theta st)) HY (sin (theta st) / sl_d_norm sl) D st)
  | Fatal e st => Fatal e st
  | Timeout => Timeout
  end.

(** Lines 470-584: the approximate strategy when it is selected, then the
    exact one when [use_linmin] holds. *)
Definition line_minimize (fuel : nat) (st : state) : outcome state unit :=
  let st := if negb (use_linmin st) then approx_linmin st else st in
  if use_linmin st then exact_linmin fuel st else Done tt st.

(** Lines 586-591. *)
Definition record_iteration (st : state) : state :=
  let st := apply_constraint st in
  let st := set_prev_traceGtX st (traceGtX st) in
  let st := set_prev_theta st (theta st) in
  set_prev_E st (E st).

(** Lines 595-621: the strategy for the next iteration. *)
Definition t_exact (st : state) : real :=
  let t := EXACT_LINMIN_TIME (time_AZ st) (time_KZ st) (time_ZtW st)
                             (time_ZS st) (time_ZtZ st) (time_linmin st) in
  if flag EIGS_PROJECT_PRECONDITIONING then t + (time_ZtW st + time_ZS st)
  else t.

Definition t_approx (st : state) : real :=
  let t := APPROX_LINMIN_TIME (time_AZ st) (time_KZ st) (time_ZtW st)
                              (time_ZS st) (time_ZtZ st) in
  if flag EIGS_PROJECT_PRECONDITIONING then t + (time_ZtW st + time_ZS st)
  else t.

(** The test of lines 605-608. *)
Definition approximate_test (st : state) : bool :=
  negb (flag EIGS_FORCE_EXACT_LINMIN)
  && (linmin_improvement st >? 0)
  && (linmin_improvement st <=? APPROX_LINMIN_IMPROVEMENT_THRESHOLD)
  && (t_exact st >? t_approx st * APPROX_LINMIN_SLOWDOWN_GUESS).

Definition choose_strategy (st : state) : state :=
  if approximate_test st
  then
    let st := if flag EIGS_VERBOSE && use_linmin st
              then printf (MsgSwitchingToApprox
                             ((t_exact st - t_approx st) * 100.0 / t_exact st)) st
              else st in
    set_use_linmin st false
  else
    let st := if flag EIGS_VERBOSE && negb (use_linmin st)
              then printf MsgSwitchingBackToExact st else st in
    set_use_linmin st true.

(** *** The loop *)

(** How one execution of the loop body ends: through [break], at its end,
    in a failed [CHECK], or never (out of fuel inside [linmin]). *)
Inductive step : Type :=
| Break (st : state)
| Continue (st : state)
| Abort (e : error) (st : state)
| Stuck.

Definition body (fuel : nat) (st : state) : step :=
  let st := measure_trace (normalize st) in
  if BADNUM (E st) then Abort CrazyNumber st
  else if converged st then Break st
  else
    let st := cg_update (precondition (gradient (feedback st))) in
    match line_minimize fuel st with
    | Done _ st => Continue (choose_strategy (record_iteration st))
    | Fatal e st => Abort e st
    | Timeout => Stuck
    end.

(** [++iteration] *)
Definition next (st : state) : state := set_iteration st (iteration st + 1).

(** [do body while (++iteration < EIGENSOLVER_MAX_ITERATIONS)].  [budget]
    bounds the number of times the body may run; the loop condition is the
    one of the source. *)
Fixpoint loop (budget fuel : nat) (st : state) : outcome state unit :=
  match budget with
  | O => Timeout
  | S budget' =>
      match body fuel st with
      | Break st' => Done tt st'
      | Continue st' =>
          if (iteration (next st') <? EIGENSOLVER_MAX_ITERATIONS)%Z
          then loop budget' fuel (next st')
          else Done tt (next st')
      | Abort e st' => Fatal e st'
      | Stuck => Timeout
      end
  end.

(** The state in which the body runs for the [k+1]-st time, when its
    first [k] executions all ran to their end. *)
Fixpoint iterate (fuel k : nat) (st : state) : option state :=
  match k with
  | O => Some st
  | S k' =>
      match iterate fuel k' st with
      | Some s =>
          match body fuel s with
          | Continue s' => Some (next s')
          | _ => None
          end
      | None => None
      end
  end.

(** How the loop that starts in [st] ends, in terms of the executions of
    its body: through the [break] of execution [k + 1], at the cap, or in
    the death or the hanging of execution [k + 1]. *)
Definition ends_as (fuel : nat) (st : state) (r : outcome state unit) : Prop :=
  match r with
  | Done _ s =>
      (exists k s0,
         (Z.of_nat k < EIGENSOLVER_MAX_ITERATIONS - iteration st)%Z
         /\ iterate fuel k st = Some s0
         /\ body fuel s0 = Break s
         /\ iteration s = (iteration st + Z.of_nat k)%Z)
      \/ (iterate fuel (Z.to_nat (EIGENSOLVER_MAX_ITERATIONS - iteration st)) st
          = Some s
          /\ iteration s = EIGENSOLVER_MAX_ITERATIONS)
  | Fatal e s =>
      exists k s0,
        (Z.of_nat k < EIGENSOLVER_MAX_ITERATIONS - iteration st)%Z
        /\ iterate fuel k st = Some s0
        /\ body fuel s0 = Abort e s
  | Timeout =>
      exists k s0,
        (Z.of_nat k < EIGENSOLVER_MAX_ITERATIONS - iteration st)%Z
        /\ iterate fuel k st = Some s0
        /\ body fuel s0 = Stuck
  end.

(** [eigenvals] and [iteration] are in [st] what they are in [st0]. *)
Definition untouched (st0 st : state) : Prop :=
  eigenvals st = eigenvals st0 /\ iteration st = iteration st0.

Definition untouched_by_step (st0 : state) (r : step) : Prop :=
  match r with
  | Break st | Continue st | Abort _ st => untouched st0 st
  | Stuck => True
  end.

(** *** [eigensolver] *)

(** The state at entry: the caller's memory, the initialised locals and
    the garbage in the others.  No square matrix exists yet. *)
Definition entry (w : world) (blocks : handle -> list scalar)
    (eigenvals0 : list real) : state :=
  let c := MPIGLUE_CLOCK w in
  let u := garbage a in
  mkState (snd c) blocks (fun _ => []) eigenvals0 []
          true (u_E u) 0.0 (u_traceGtX u) 0.0 (u_theta u) 0.5 0%Z (fst c)
          (u_time_AZ u) (u_time_KZ u) (u_time_ZtZ u) (u_time_ZtW u)
          (u_time_ZS u) (u_time_linmin u) (u_linmin_improvement u).

(** Lines 322-368: the workspaces, the square matrices, the zeroed
    [eigenvals] and the first application of the constraint. *)
Definition setup (st : state) : state :=
  let st := if usingConjugateGradient
            then zero_fill D (fst (dims a D) * snd (dims a D)) st else st in
  let st := if use_polak_ribiere then zero_fill prev_G (Yn * Yp) st else st in
  let st := fold_left (fun st m => st_sq st m (create_sqmatrix Yp))
              [YtAYU; DtAD; symYtAD; YtY; U; DtD; symYtD; S1; S2; S3] st in
  let st := for_loop Yp 0
              (fun i st => set_eigenvals st (store_at i 0.0 (eigenvals st))) st in
  apply_constraint st.

(** Lines 629-634: the final [U] and the extraction of the eigenvalues. *)
Definition extract (st : state) : state :=
  let st := XtX U HY st in
  let st := invert U st in
  let r := eigensolver_get_eigenvals_aux a (ld st HY) (eigenvals st) (A a)
             (ld st X) (ld st G) (ldsq st U) (ldsq st S1) (ldsq st S2)
             (env st) in
  let st := st_blk (st_blk (st_blk st HY (aux_Y r)) X (aux_Work1 r))
                   G (aux_Work2 r) in
  let st := st_sq (st_sq (st_sq st U (aux_U r)) S1 (aux_Usqrt r))
                  S2 (aux_Uwork r) in
  set_env (set_eigenvals st (aux_eigenvals r)) (aux_world r).

(** [eigensolver(Y, eigenvals, A, Adata, K, Kdata, constraint,
    constraint_data, Work, nWork, tolerance, &num_iterations, flags)],
    compiled without [DEBUG].  The result is [*num_iterations]. *)
Definition eigensolver (budget fuel : nat) (w : world)
    (blocks : handle -> list scalar) (eigenvals0 : list real)
  : outcome state Z :=
  let st := entry w blocks eigenvals0 in
  if (2 <=? nWork a)%Z then
    match loop budget fuel (setup st) with
    | Done _ st =>
        if (iteration st <? EIGENSOLVER_MAX_ITERATIONS)%Z
        then Done (iteration st) (extract st)
        else Fatal FailureToConverge st
    | Fatal e st => Fatal e st
    | Timeout => Timeout
    end
  else Fatal NotEnoughWorkspace st.

End Driver.
End Eigensolver.

(** ** A concrete instance: real blocks with one column

    The primitives for real scalars and [p = 1]: a block is a vector of [n]
    reals, a square matrix a single real.  The clock counts its readings,
    one second each.  This is the instance at which the properties below are
    exercised. *)

Module Real1.

Definition dot (u v : list real) : real :=
  fold_left (fun acc uv => acc + fst uv * snd uv) (combine u v) 0.

Definition entry (m : sqmatrix real) : real := hd 0 (sq_data m).

(** The power series of sine and cosine, [terms] terms of them. *)
Fixpoint series (terms : nat) (k : real) (term x2 acc : real) : real :=
  match terms with
  | O => acc
  | S terms' =>
      let term' := - (term * x2) / ((k + 1) * (k + 2)) in
      series terms' (k + 2) term' x2 (acc + term)
  end.

Definition sine (x : real) : real := series 30 1 x (x * x) 0.
Definition cosine (x : real) : real := series 30 0 1 (x * x) 0.

Fixpoint scal (count : nat) (c : real) (l : list real) : list real :=
  match count, l with
  | S count', v :: l' => c * v :: scal count' c l'
  | _, _ => l
  end.

#[export] Instance primitives : Primitives := {|
  scalar := real;
  SCALAR_RE := fun v => v;
  scalar_zero := 0;
  scalar_diff := sub;
  BADNUM := fun v => negb (v =? v) || (v >? 1e50) || (v <? -1e50);
  cos := cosine;
  sin := sine;
  blasglue_scal := fun count c l _ => scal count c l;
  evectmatrix_XtX := fun _ v => [dot (ev_data v) (ev_data v)];
  evectmatrix_XtY := fun _ u v => [dot (ev_data u) (ev_data v)];
  evectmatrix_XeYS := fun _ v m _ => map (fun c => c * entry m) (ev_data v);
  evectmatrix_XpaYS := fun u c v m =>
    map2 (fun uc vc => uc + c * (vc * entry m)) (ev_data u) (ev_data v);
  evectmatrix_aXpbY := fun c u b v =>
    map2 (fun uc vc => c * uc + b * vc) (ev_data u) (ev_data v);
  evectmatrix_traceXtY := fun u v => dot (ev_data u) (ev_data v);
  evectmatrix_copy := fun _ v => ev_data v;
  create_sqmatrix := fun p => repeat 0 (p * p);
  sqmatrix_copy := fun _ b => sq_data b;
  sqmatrix_invert := fun m => [1 / entry m];
  sqmatrix_AeBC := fun _ b _ c _ => [entry b * entry c];
  sqmatrix_ApaBC := fun m r b _ c _ => [entry m + r * (entry b * entry c)];
  sqmatrix_aApbB := fun r m t b => [r * entry m + t * entry b];
  sqmatrix_ApaB := fun m r b => [entry m + r * entry b];
  sqmatrix_symmetrize := fun _ b => sq_data b;
  sqmatrix_trace := entry;
  sqmatrix_traceAtB := fun m b => entry m * entry b;
  world := Z;
  mpiglue_clock_t := Z;
  MPIGLUE_CLOCK := fun w => (w, (w + 1)%Z);
  MPIGLUE_CLOCK_DIFF := fun c1 c0 => real_of_int (c1 - c0);
  EIGS_VERBOSE := 1;
  EIGS_PROJECT_PRECONDITIONING := 2;
  EIGS_RESET_CG := 4;
  EIGS_FORCE_EXACT_LINMIN := 8;
  EIGS_FORCE_APPROX_LINMIN := 16
|}.

(** The operator [diag(d)]; it leaves its scratch block alone. *)
Definition diagonal (d : list real) : Eigensolver.evectoperator :=
  fun yin _ _ work w => (map2 mul d (ev_data yin), ev_data work, w).

(** The eigenvalue extraction, which is not in the file: here it reports
    the Rayleigh quotient of [Y] and leaves everything else alone. *)
Definition rayleigh : evectmatrix real -> list real -> Eigensolver.evectoperator
    -> evectmatrix real -> evectmatrix real
    -> sqmatrix real -> sqmatrix real -> sqmatrix real -> Z
    -> Eigensolver.aux_result :=
  fun y _ op w1 w2 u us uw w =>
    let ay := fst (fst (op y w1 true w2 w)) in
    Eigensolver.mkAux (ev_data y) [dot (ev_data y) ay * entry u]
      (ev_data w1) (ev_data w2) (sq_data u) (sq_data us) (sq_data uw) w.

Definition zeros : Eigensolver.uninitialised :=
  Eigensolver.mkUninitialised 0 0 0 0 0 0 0 0 0 0 (Linmin.mkJunk 0 0 0 0 0 0).

(** A call on [n]-vectors. *)
Definition call (d : list real) (nwork : Z) (tol : real) (flags : Z)
  : Eigensolver.args :=
  Eigensolver.mkArgs (diagonal d) None None (fun _ => (length d, 1%nat))
    nwork tol flags rayleigh zeros.

(** The same call with a constraint that pins [Y] to the one block [y]. *)
Definition pinned (d y : list real) (nwork : Z) (tol : real) (flags : Z)
  : Eigensolver.args :=
  Eigensolver.mkArgs (diagonal d) None (Some (fun _ w => (y, w)))
    (fun _ => (length d, 1%nat)) nwork tol flags rayleigh zeros.

Definition blocks (y : list real) (h : handle) : list real :=
  match h with HY => y | HWork _ => repeat 0 (length y) end.

End Real1.

(** ** Instruments for [linmin] *)

Module Probe.

(** [func], keeping a log of the abscissae it is called at. *)
Definition logged {S : Type} (func : bool -> real -> S -> real * real * S)
  : bool -> real -> S * list real -> real * real * (S * list real) :=
  fun want x dl =>
    let r := func want x (fst dl) in
    (fst (fst r), snd (fst r), (snd r, snd dl ++ [x])).

(** [k] abscissae from [x] on, [dx] apart. *)
Fixpoint steps (k : nat) (x dx : real) : list real :=
  match k with
  | O => []
  | S k' => x :: steps k' (x + dx) dx
  end.

(** The assignment [x0 = 0.5 * (x0 + xmin)]. *)
Definition halve (xmin_ x0_ : real) : real := 0.5 * (x0_ + xmin_).

(** The stepping as the design document words it, with [dx] doubling from
    one evaluation to the next; as [Linmin.bracket_scan] otherwise. *)
Fixpoint bracket_scan_doubling {S : Type}
    (func : bool -> real -> S -> real * real * S)
    (fuel : nat) (s xmin0 xmax0 dx : real) (v : Linmin.scan) (d : S)
  : option (Linmin.scan * S) :=
  match fuel with
  | O => None
  | Datatypes.S fuel' =>
      if Linmin.sx v * s <=? xmax0 * s then
        let '(fx, dfx, d') := func true (Linmin.sx v) d in
        if dfx * (Linmin.sx v - xmin0) >? 0.0 then
          Some (Linmin.mkScan (Linmin.sx v) fx dfx (Linmin.xmin2 v)
                              (Linmin.f_xmin2 v) (Linmin.df_xmin2 v), d')
        else
          bracket_scan_doubling func fuel' s xmin0 xmax0 (2 * dx)
            (Linmin.mkScan (Linmin.sx v + 2 * dx) fx dfx (Linmin.sx v) fx dfx) d'
      else Some (v, d)
  end.

(** [Gave_up tolerance xmin x0 log x0']: a bracketing phase that starts
    with the guess [x0] evaluates [func] at the abscissae [log], in rounds
    of equal steps [2 (x0 - xmin)] from [xmin], halves the guess after each
    round, goes on as long as the halved guess passes the test of the loop
    and stops, with the guess [x0'], when it does not. *)
Inductive Gave_up (tolerance xmin_ : real) : real -> list real -> real -> Prop :=
| Gave_up_now (x0_ : real) (k : nat) :
    Linmin.not_collapsed tolerance
      (Linmin.mkVars xmin_ 0 0 0 0 0 (halve xmin_ x0_) 0 0 0) = false ->
    Gave_up tolerance xmin_ x0_
      (steps k (xmin_ + (x0_ - xmin_) * 2.0) ((x0_ - xmin_) * 2.0))
      (halve xmin_ x0_)
| Gave_up_later (x0_ : real) (k : nat) (log : list real) (x0' : real) :
    Linmin.not_collapsed tolerance
      (Linmin.mkVars xmin_ 0 0 0 0 0 (halve xmin_ x0_) 0 0 0) = true ->
    Gave_up tolerance xmin_ (halve xmin_ x0_) log x0' ->
    Gave_up tolerance xmin_ x0_
      (steps k (xmin_ + (x0_ - xmin_) * 2.0) ((x0_ - xmin_) * 2.0) ++ log)
      x0'.

(** [(x - c)^2] and its derivative; the state counts the evaluations. *)
Definition parabola (c : real) : bool -> real -> nat -> real * real * nat :=
  fun _ x count => ((x - c) * (x - c), 2 * (x - c), S count).

Definition no_junk : Linmin.junk := Linmin.mkJunk 0 0 0 0 0 0.

End Probe.

(** ** The driver's rules, as the design document words them

    Each definition below restates one rule in the words of the design
    document; the properties compare it with what the code computes. *)

Module Stated.
Section Stated.

Context {P : Primitives}.
Import Eigensolver.
Variable a : args.

(** "if iteration > 0 and |E - E_prev| < tolerance (|E| + |E_prev| +
    eps)/2, exit", with eps = 1e-7. *)
Definition convergence (st : state) : bool :=
  (0 <? iteration st)%Z
  && (fabs (E st - prev_E st)
      <? tolerance a * (fabs (E st) + fabs (prev_E st) + 1e-7) / 2).

(** [sign(s) m], for a magnitude [m]. *)
Definition sign_times (s m : real) : real := if s <? 0 then - m else m.

(** The safeguards on the Newton estimate of the exact line
    minimisation, in their order. *)
Definition safeguarded_theta (dE d2E prev_theta E_ prev_E_ : real) : real :=
  let theta0 := - dE / d2E in
  let theta1 :=
    if d2E <? 0 then sign_times (- dE) (fabs prev_theta)
    else if fabs (0.5 * dE * theta0) >? 2 * fabs (E_ - prev_E_) then theta0
    else theta0 in
  if fabs theta1 >=? K_PI then sign_times (- dE) (fabs prev_theta)
  else theta1.

(** [G - prev_G], as a block of the shape of [G]. *)
Definition gradient_change (st : state) : evect :=
  mkEvect (fst (dims a G)) (snd (dims a G))
          (map2 scalar_diff (blk st G) (blk st (HWork 3))).

(** The coefficient [gamma] of the direction update: 0 when [tgx_prev] is
    0, 0 at a reset, and otherwise the numerator of Polak-Ribiere (four
    workspaces or more) or Fletcher-Reeves over [tgx_prev]. *)
Definition gamma (st : state) : real :=
  if prev_traceGtX st =? 0 then 0
  else if flag a EIGS_RESET_CG && ((iteration st + 1) mod 70 =? 0)%Z then 0
  else
    (if (4 <=? nWork a)%Z
     then SCALAR_RE (evectmatrix_traceXtY (gradient_change st) (ld a st X))
     else SCALAR_RE (evectmatrix_traceXtY (ld a st G) (ld a st X)))
    / prev_traceGtX st.

(** The controller's rule for the approximate strategy. *)
Definition approximate_next (st : state) : Prop :=
  flag a EIGS_FORCE_EXACT_LINMIN = false
  /\ (linmin_improvement st >? 0) = true
  /\ (linmin_improvement st <=? 0.05) = true
  /\ (t_exact a st >? t_approx a st * 2.0) = true.

End Stated.
End Stated.

(** Case analysis on the tests that stand between a projection and the
    state it reads. *)
Ltac through_tests :=
  repeat (simpl;
          match goal with
          | |- _ (if ?c then _ else _) = _ => destruct c
          | |- _ (match ?c with Some _ => _ | None => _ end) = _ => destruct c
          end);
  simpl; try reflexivity.

Ltac frame := split; through_tests.

(** ** Further instruments *)

Module Trail.

(** [func], keeping a log of its calls: whether the derivative was asked
    for (a non-NULL [df]), and the abscissa. *)
Definition traced {S : Type} (func : bool -> real -> S -> real * real * S)
  : bool -> real -> S * list (bool * real)
    -> real * real * (S * list (bool * real)) :=
  fun want x dl =>
    let r := func want x (fst dl) in
    (fst (fst r), snd (fst r), (snd r, snd dl ++ [(want, x)])).

(** [x0] after [k] executions of [x0 = 0.5 * (x0 + xmin)]. *)
Fixpoint halvings (k : nat) (xmin_ x0_ : real) : real :=
  match k with
  | O => x0_
  | S k' => halvings k' xmin_ (Probe.halve xmin_ x0_)
  end.

End Trail.

(** The lines [eigensolver] can print without [EIGS_VERBOSE]: the progress
    line, which the feedback clock triggers too (line 399), and the line of
    derivatives, which no flag guards (line 515). *)
Definition quiet_line (m : message) : Prop :=
  match m with
  | MsgIteration _ _ _ | MsgDerivatives _ _ _ => True
  | _ => False
  end.

Module Stale.

(** [Real1.call] on a stack that holds [kz] where [time_KZ] is
    allocated. *)
Definition call (kz : real) (d : list real) (nwork : Z) (tol : real) (flags : Z)
  : @Eigensolver.args Real1.primitives :=
  Eigensolver.mkArgs (Real1.diagonal d) None None (fun _ => (length d, 1%nat))
    nwork tol flags Real1.rayleigh
    (Eigensolver.mkUninitialised 0 0 0 0 kz 0 0 0 0 0 Probe.no_junk).

End Stale.

(** ** The stack at entry *)

Module Stack.
Section Stack.

Context {P : Primitives}.
Import Eigensolver.

(** Other contents for the ten locals that [eigensolver] declares without
    a value (lines 306, 307, 308, 311 and 312); [None] leaves a local as
    it is. *)
Record leftover : Set := mkLeftover {
  l_E : option real; l_traceGtX : option real; l_theta : option real;
  l_time_AZ : option real; l_time_KZ : option real;
  l_time_ZtZ : option real; l_time_ZtW : option real;
  l_time_ZS : option real; l_time_linmin : option real;
  l_linmin_improvement : option real
}.

Definition pick (o : option real) (v : real) : real :=
  match o with Some w => w | None => v end.

(** The state [st] with the contents [o] in these locals. *)
Definition scribble (o : leftover) (st : state) : state :=
  mkState (env st) (blk st) (sq st) (eigenvals st) (stdout st) (use_linmin st)
    (pick (l_E o) (E st)) (prev_E st) (pick (l_traceGtX o) (traceGtX st))
    (prev_traceGtX st) (pick (l_theta o) (theta st)) (prev_theta st)
    (iteration st) (prev_feedback_time st) (pick (l_time_AZ o) (time_AZ st))
    (pick (l_time_KZ o) (time_KZ st)) (pick (l_time_ZtZ o) (time_ZtZ st))
    (pick (l_time_ZtW o) (time_ZtW st)) (pick (l_time_ZS o) (time_ZS st))
    (pick (l_time_linmin o) (time_linmin st))
    (pick (l_linmin_improvement o) (linmin_improvement st)).

Definition untouched : leftover :=
  mkLeftover None None None None None None None None None None.

Variable a : args.

(** [eigensolver] from line 322 on, entered in the state [st] that the
    declarations have left. *)
Definition eigensolver_from (budget fuel : nat) (st : state) : outcome state Z :=
  if (2 <=? nWork a)%Z then
    match loop a budget fuel (setup a st) with
    | Done _ st =>
        if (iteration st <? EIGENSOLVER_MAX_ITERATIONS)%Z
        then Done (iteration st) (extract a st)
        else Fatal FailureToConverge st
    | Fatal e st => Fatal e st
    | Timeout => Timeout
    end
  else Fatal NotEnoughWorkspace st.

(** What outlives a call: the memory of the caller and of the callbacks,
    and the output. *)
Definition same_memory (s s' : state) : Prop :=
  env s' = env s /\ blk s' = blk s /\ sq s' = sq s
  /\ eigenvals s' = eigenvals s /\ stdout s' = stdout s.

Definition same_outcome (r r' : outcome state Z) : Prop :=
  match r, r' with
  | Done k s, Done k' s' => k' = k /\ same_memory s s'
  | Fatal e s, Fatal e' s' => e' = e /\ same_memory s s'
  | Timeout, Timeout => True
  | _, _ => False
  end.

End Stack.
End Stack.

(** * Properties *)

(** ** Comparisons of binary64 numbers *)

Lemma not_negative_not_below_zero (v : real) :
  (v >=? 0) = true -> (v <? 0) = false.
Proof.
  unfold geb. rewrite leb_spec, ltb_spec. unfold SFleb, SFltb.
  change (Prim2SF 0) with (S754_zero false).
  destruct (Prim2SF v) as [[]| [] | |[] m e]; simpl; try discriminate; reflexivity.
Qed.

(** ** [linmin] *)

Module LinminFacts.
Section LinminFacts.

Import Linmin Probe.

Context {S : Type}.
Variable func : bool -> real -> S -> real * real * S.

(** A scan evaluates [func] at abscissae [dx] apart, starting at its
    first [x]. *)
Lemma bracket_scan_log (fuel : nat) : forall s xmin0 xmax0 dx v d log sc d' log',
  bracket_scan (logged func) fuel s xmin0 xmax0 dx v (d, log)
  = Some (sc, (d', log')) ->
  exists k, log' = log ++ steps k (sx v) dx.
Proof.
  induction fuel as [|fuel IH]; intros s xmin0 xmax0 dx v d log sc d' log' H;
    simpl in H; [discriminate|].
  destruct (sx v * s <=? xmax0 * s).
  - destruct (_ >? 0.0).
    + injection H as _ _ <-. now exists 1%nat.
    + apply IH in H. destruct H as [k ->]. exists (Datatypes.S k).
      simpl. now rewrite <- app_assoc.
  - injection H as _ _ <-. exists 0%nat. simpl. now rewrite app_nil_r.
Qed.

(** The test of the loop reads [x0] and [xmin] only. *)
Lemma not_collapsed_fields (tol : real) (v w : vars) :
  x0 v = x0 w -> xmin v = xmin w -> not_collapsed tol v = not_collapsed tol w.
Proof. unfold not_collapsed. now intros -> ->. Qed.

(** A round that ends without a bracket has taken equal steps, has moved
    [x0] to the midpoint and has left [xmin] and [xmax] alone. *)
Lemma bracket_round_missed fuel s v d log v' d' log' :
  bracket_round (logged func) fuel s v (d, log) = Some (false, v', (d', log')) ->
  x0 v' = halve (xmin v) (x0 v) /\ xmin v' = xmin v /\ xmax v' = xmax v
  /\ exists k, log' = log ++ steps k (xmin v + (x0 v - xmin v) * 2.0)
                                    ((x0 v - xmin v) * 2.0).
Proof.
  unfold bracket_round. intros H.
  destruct (bracket_scan _ _ _ _ _ _ _ _) as [[sc [d1 log1]]|] eqn:Hscan;
    [|discriminate].
  destruct (sx sc * s <=? xmax v * s); [discriminate|].
  injection H as <- <- <-. simpl. repeat split; try reflexivity.
  apply bracket_scan_log in Hscan. exact Hscan.
Qed.

Lemma bracket_loop_gave_up (rounds : nat) : forall fuel s tol v d log v' d' log',
  bracket_loop (logged func) rounds fuel s tol v (d, log)
    = Done (false, v') (d', log') ->
  xmin v' = xmin v /\ xmax v' = xmax v /\ not_collapsed tol v' = false
  /\ exists l, log' = log ++ l /\ Gave_up tol (xmin v) (x0 v) l (x0 v').
Proof.
  induction rounds as [|rounds IH]; intros fuel s tol v d log v' d' log' H;
    simpl in H; [discriminate|].
  destruct (bracket_round _ _ _ _ _) as [[[[] v1] [d1 log1]]|] eqn:Hround;
    try discriminate.
  destruct (bracket_round_missed _ _ _ _ _ _ _ _ Hround)
    as (Hx0 & Hmin & Hmax & k & ->).
  assert (Htest : not_collapsed tol v1
                  = not_collapsed tol
                      (mkVars (xmin v) 0 0 0 0 0 (halve (xmin v) (x0 v)) 0 0 0))
    by (apply not_collapsed_fields; simpl; assumption).
  destruct (not_collapsed tol v1) eqn:Hgo.
  - apply IH in H. destruct H as (Hmin' & Hmax' & Hstop & l & -> & Hl).
    rewrite Hmin' , Hmax', Hmin, Hmax. repeat split; try assumption.
    eexists. split; [symmetry; apply app_assoc|].
    rewrite Hmin, Hx0 in Hl. now apply Gave_up_later.
  - injection H as <- <- <-. repeat split; try assumption.
    eexists. split; [reflexivity|].
    rewrite Hx0. now apply Gave_up_now.
Qed.

(** C9, amended: a bracketing phase that ends without a bracket has
    stepped from [xmin] in equal steps [dx = 2 (x0 - xmin)], round after
    round, has moved [x0] to the midpoint [0.5 (x0 + xmin)] after each
    round and has retried as long as [|x0 - xmin| > tolerance (|x0| +
    tolerance)] held; it ends when that comparison fails, and [linmin]
    then dies with "failed to bracket minimum". *)
Theorem bracketing_gives_up_on_collapse :
  forall (fuel : nat) (j : junk) (s tol : real) (v : vars) (d : S)
         (v' : vars) (d' : S) (log' : list real),
    bracket_loop (logged func) fuel fuel s tol v (d, [])
    = Done (false, v') (d', log') ->
    Gave_up tol (xmin v) (x0 v) log' (x0 v')
    /\ xmin v' = xmin v /\ xmax v' = xmax v
    /\ not_collapsed tol v' = false
    /\ linmin_finish (logged func) fuel j s tol v' (d', log')
       = Fatal FailedToBracket (d', log').
Proof.
  intros fuel j s tol v d v' d' log' H.
  apply bracket_loop_gave_up in H.
  destruct H as (Hmin & Hmax & Hstop & l & Hlog & Hl).
  simpl in Hlog. subst l. repeat split; try assumption.
  unfold linmin_finish, bind, CHECK. now rewrite Hstop.
Qed.

(** C8: when [df_xmin (x0 - xmin) >= 0], or when [x0] does not lie
    strictly between [xmin] and [xmax] in the direction from [xmin] to
    [xmax], [linmin] dies in one of its two first checks: [func] has not
    been called and [data] is as it was. *)
Theorem linmin_rejects_bad_guess :
  forall (fuel : nat) (j : junk) (xmin_ f_xmin_ df_xmin_ xmax_ x0_ tol : real)
         (d : S),
    (df_xmin_ * (x0_ - xmin_) >=? 0) = true
    \/ in_range xmin_ xmax_ x0_ = false ->
    exists e : error,
      linmin func fuel j xmin_ f_xmin_ df_xmin_ xmax_ x0_ tol d = Fatal e d
      /\ (e = BadInitialGuess \/ e = GuessOutOfRange).
Proof.
  intros fuel j xmin_ f_xmin_ df_xmin_ xmax_ x0_ tol d H.
  unfold linmin, bind, CHECK.
  destruct (df_xmin_ * (x0_ - xmin_) <? 0.0) eqn:Hguess.
  - destruct H as [H|H].
    + apply not_negative_not_below_zero in H. congruence.
    + rewrite H. exists GuessOutOfRange. now split; [|right].
  - exists BadInitialGuess. now split; [|left].
Qed.

End LinminFacts.
End LinminFacts.

(** Witness of [linmin_rejects_bad_guess]: a guess on the uphill side of
    [xmin].  The evaluation count in the state is still 0. *)
Lemma linmin_rejects_bad_guess_witness :
  (-2 * (-1 - 0) >=? 0) = true
  /\ exists e : error,
       Linmin.linmin (Probe.parabola 1) 10 Probe.no_junk 0 1 (-2) 3 (-1) 0.125 0%nat
       = Fatal e 0%nat
       /\ (e = BadInitialGuess \/ e = GuessOutOfRange).
Proof.
  split; [reflexivity|].
  apply (LinminFacts.linmin_rejects_bad_guess (Probe.parabola 1)).
  left. reflexivity.
Defined.

(** Witness of [bracketing_gives_up_on_collapse]: a function that
    decreases all the way from [xmin = 0] to [xmax = 3]. *)
Lemma bracketing_gives_up_on_collapse_witness :
  exists v' d' log',
    Linmin.bracket_loop (Probe.logged (Probe.parabola 1000)) 20 20 1 0.25
      (Linmin.mkVars 0 1000000 (-2000) 3 0 0 1 0 0 0) (0%nat, [])
    = Done (false, v') (d', log')
    /\ Probe.Gave_up 0.25 0 1 log' (Linmin.x0 v')
    /\ Linmin.linmin_finish (Probe.logged (Probe.parabola 1000)) 20 Probe.no_junk
         1 0.25 v' (d', log')
       = Fatal FailedToBracket (d', log').
Proof.
  eexists _, _, _. split; [vm_compute; reflexivity|].
  pose proof (LinminFacts.bracketing_gives_up_on_collapse
                (Probe.parabola 1000) 20 Probe.no_junk 1 0.25
                (Linmin.mkVars 0 1000000 (-2000) 3 0 0 1 0 0 0) 0%nat) as H.
  specialize (H _ _ _ ltac:(vm_compute; reflexivity)).
  destruct H as (Hgave & _ & _ & _ & Hfatal). split; assumption.
Defined.

(** C9 as stated fails twice.  First, [dx] does not double: for
    [(x - 5)^2] from [xmin = 0] with [x0 = 1] the loop evaluates at 2, 4, 6
    and brackets the minimum in [4, 6], where doubling steps would evaluate
    at 2, 6 and bracket it in [2, 6].  Second, the error is also raised with
    a bracket in hand: for [(x - 1.5 * 2^-13)^2] with [x0 = 2^-13] and
    [tolerance = 0.125] the first round brackets the minimum in
    [0, 2^-12], and the check after the loop kills [linmin] all the same. *)
Lemma bracketing_counterexample :
  (Linmin.bracket_scan (Probe.logged (Probe.parabola 5)) 10 1 0 100 2
     (Linmin.mkScan 2 0 0 0 25 (-10)) (0%nat, [])
   = Some (Linmin.mkScan 6 1 2 4 1 (-2), (3%nat, [2; 4; 6]))
   /\ Probe.bracket_scan_doubling (Probe.logged (Probe.parabola 5)) 10 1 0 100 2
        (Linmin.mkScan 2 0 0 0 25 (-10)) (0%nat, [])
      = Some (Linmin.mkScan 6 1 2 2 9 (-6), (2%nat, [2; 6])))
  /\ (let c := 0.00018310546875 in
      exists v',
        Linmin.bracket_loop (Probe.parabola c) 10 10 1 0.125
          (Linmin.mkVars 0 (c * c) (-2 * c) 4 0 0 0.0001220703125 0 0 0) 0%nat
        = Done (true, v') 1%nat
        /\ Linmin.xmin v' = 0 /\ Linmin.xmax v' = 0.000244140625
        /\ Linmin.linmin (Probe.parabola c) 10 Probe.no_junk
             0 (c * c) (-2 * c) 4 0.0001220703125 0.125 0%nat
           = Fatal FailedToBracket 1%nat).
Proof.
  split; [split; vm_compute; reflexivity|].
  eexists. split; [vm_compute; reflexivity|].
  repeat split; vm_compute; reflexivity.
Qed.

(** ** What [linmin] does to the state behind [data] *)

Module LinminFrame.
Section LinminFrame.

Import Linmin.

Context {S : Type}.
Variable func : bool -> real -> S -> real * real * S.

(** A property of the state that every call of [func] keeps. *)
Variable Inv : S -> Prop.
Hypothesis func_keeps : forall want x d, Inv d -> Inv (snd (func want x d)).

Lemma bracket_scan_keeps (fuel : nat) : forall s xmin0 xmax0 dx v d sc d',
  Inv d -> bracket_scan func fuel s xmin0 xmax0 dx v d = Some (sc, d') -> Inv d'.
Proof.
  induction fuel as [|fuel IH]; intros s xmin0 xmax0 dx v d sc d' Hd H;
    simpl in H; [discriminate|].
  destruct (sx v * s <=? xmax0 * s).
  - pose proof (func_keeps true (sx v) d Hd) as Hf.
    destruct (func true (sx v) d) as [[fx dfx] d1]. simpl in Hf.
    destruct (_ >? 0.0).
    + now injection H as _ <-.
    + eapply IH; eassumption.
  - now injection H as _ <-.
Qed.

Lemma bracket_round_keeps fuel s v d b v' d' :
  Inv d -> bracket_round func fuel s v d = Some (b, v', d') -> Inv d'.
Proof.
  unfold bracket_round. intros Hd H.
  destruct (bracket_scan _ _ _ _ _ _ _ _) as [[sc d1]|] eqn:Hscan;
    [|discriminate].
  apply bracket_scan_keeps in Hscan; [|assumption].
  destruct (_ <=? _); now injection H as _ _ <-.
Qed.

Lemma bracket_loop_keeps (rounds : nat) : forall fuel s tol v d,
  Inv d -> holds_after Inv (bracket_loop func rounds fuel s tol v d).
Proof.
  induction rounds as [|rounds IH]; intros fuel s tol v d Hd; simpl; [exact I|].
  destruct (bracket_round _ _ _ _ _) as [[[b v1] d1]|] eqn:Hround; [|exact I].
  apply bracket_round_keeps in Hround; [|assumption].
  destruct b; [assumption|].
  destruct (not_collapsed tol v1); [now apply IH | assumption].
Qed.

Lemma ridder_loop_keeps (fuel : nat) : forall tol r d,
  Inv d -> holds_after Inv (ridder_loop func fuel tol r d).
Proof.
  induction fuel as [|fuel IH]; intros tol r d Hd; simpl; [exact I|].
  pose proof (func_keeps true (x0 (rv r)) d Hd) as Hf.
  destruct (func true (x0 (rv r)) d) as [[f_x0 df_x0] d1]. simpl in Hf.
  destruct (df_x0 =? 0); [assumption|].
  destruct (df_xmin (rv r) =? 0); [assumption|].
  destruct (df_xmax (rv r) =? 0); [assumption|].
  destruct (_ <? _); [assumption|].
  match goal with
  | |- context [func true ?x1 d1] =>
      pose proof (func_keeps true x1 d1 Hf) as Hf1;
      destruct (func true x1 d1) as [[f1 df1] d2]
  end.
  simpl in Hf1. now apply IH.
Qed.

Lemma linmin_finish_keeps fuel j s tol v d :
  Inv d -> holds_after Inv (linmin_finish func fuel j s tol v d).
Proof.
  intros Hd. unfold linmin_finish, bind, CHECK.
  destruct (not_collapsed tol v); [|assumption].
  match goal with
  | |- context [ridder_loop func fuel tol ?r d] =>
      pose proof (ridder_loop_keeps fuel tol r d Hd) as Hr;
      destruct (ridder_loop func fuel tol r d) as [r' d1|e d1|]
  end; try assumption.
  simpl in Hr.
  pose proof (func_keeps false (x0 (rv r')) d1 Hr) as Hf.
  destruct (func false (x0 (rv r')) d1) as [[f_x0 df_x0] d2]. exact Hf.
Qed.

Lemma linmin_keeps fuel j xmin_ f_xmin_ df_xmin_ xmax_ x0_ tol d :
  Inv d ->
  holds_after Inv (linmin func fuel j xmin_ f_xmin_ df_xmin_ xmax_ x0_ tol d).
Proof.
  intros Hd. unfold linmin, bind, CHECK.
  destruct (_ <? 0.0); [|assumption].
  destruct (in_range _ _ _); [|assumption].
  match goal with
  | |- context [bracket_loop func fuel fuel ?s tol ?v d] =>
      pose proof (bracket_loop_keeps fuel fuel s tol v d Hd) as Hb;
      destruct (bracket_loop func fuel fuel s tol v d) as [bv d1|e d1|]
  end; try assumption.
  now apply linmin_finish_keeps.
Qed.

End LinminFrame.
End LinminFrame.

(** ** Lists and counted loops *)

Lemma for_loop_seq {T : Type} (body : nat -> T -> T) (count : nat) :
  forall start t,
    for_loop count start body t
    = fold_left (fun t i => body i t) (seq start count) t.
Proof.
  induction count as [|count IH]; intros start t; simpl; [reflexivity|apply IH].
Qed.

Lemma for_loop_invariant {T : Type} (Q : nat -> T -> Prop) (body : nat -> T -> T)
    (count : nat) :
  forall start t,
    Q start t ->
    (forall i t, (start <= i < start + count)%nat -> Q i t -> Q (S i) (body i t)) ->
    Q (start + count)%nat (for_loop count start body t).
Proof.
  induction count as [|count IH]; intros start t H0 Hstep; simpl.
  - now rewrite Nat.add_0_r.
  - rewrite <- Nat.add_succ_comm. apply IH.
    + apply Hstep; [lia|assumption].
    + intros i t' Hi. apply Hstep. lia.
Qed.

Lemma nth_store_at_same {T : Type} (v d : T) (l : list T) :
  forall i, (i < length l)%nat -> nth i (store_at i v l) d = v.
Proof.
  induction l as [|x l IH]; intros [|i] H; simpl in *; try lia; try reflexivity.
  apply IH. lia.
Qed.

Lemma nth_store_at_other {T : Type} (v d : T) (l : list T) :
  forall i j, i <> j -> nth j (store_at i v l) d = nth j l d.
Proof.
  induction l as [|x l IH]; intros [|i] [|j] H; simpl; try reflexivity; try lia.
  apply IH. lia.
Qed.

Lemma handle_eqb_eq (h k : handle) : handle_eqb h k = true <-> h = k.
Proof.
  destruct h as [|i], k as [|j]; simpl; split; try discriminate; try reflexivity.
  - intros H. apply Nat.eqb_eq in H. now subst.
  - intros H. injection H as ->. apply Nat.eqb_refl.
Qed.

(** ** The driver: what a phase leaves alone *)

Module DriverFrame.
Section DriverFrame.

Context {P : Primitives}.
Import Eigensolver.
Variable a : args.

Lemma untouched_refl st : untouched st st.
Proof. now split. Qed.

Lemma untouched_trans st0 st1 st2 :
  untouched st0 st1 -> untouched st1 st2 -> untouched st0 st2.
Proof. intros [H1 H2] [H3 H4]. split; congruence. Qed.

Lemma normalize_untouched st : untouched st (normalize a st).
Proof. unfold normalize. frame. Qed.

Lemma measure_trace_untouched st : untouched st (measure_trace a st).
Proof. unfold measure_trace. frame. Qed.

Lemma feedback_untouched st : untouched st (feedback a st).
Proof. unfold feedback. frame. Qed.

Lemma gradient_untouched st : untouched st (gradient a st).
Proof. unfold gradient. frame. Qed.

Lemma precondition_untouched st : untouched st (precondition a st).
Proof. unfold precondition. frame. Qed.

Lemma for_loop_untouched (body : nat -> state -> state) (count start : nat) st :
  (forall i s, untouched s (body i s)) ->
  untouched st (for_loop count start body st).
Proof.
  intros Hbody.
  apply (for_loop_invariant (fun _ s => untouched st s)).
  - apply untouched_refl.
  - intros i s _ Hs. eapply untouched_trans; [exact Hs|apply Hbody].
Qed.

Lemma polak_ribiere_pass_untouched st : untouched st (polak_ribiere_pass a st).
Proof. apply for_loop_untouched. intros i s. now split. Qed.

Lemma zero_fill_untouched h count st : untouched st (zero_fill h count st).
Proof. apply for_loop_untouched. intros i s. now split. Qed.

Lemma cg_update_untouched st : untouched st (cg_update a st).
Proof.
  unfold cg_update, gamma_numerator.
  destruct (usingConjugateGradient a); [|now split].
  assert (H : untouched st
                (if use_polak_ribiere a
                 then polak_ribiere_pass a (set_traceGtX st (traceXtY a st G X))
                 else set_traceGtX st (traceXtY a st G X))).
  { destruct (use_polak_ribiere a); [|now split].
    exact (polak_ribiere_pass_untouched (set_traceGtX st _)). }
  destruct (use_polak_ribiere a); cbv beta iota zeta delta [fst snd];
    destruct (_ && flag a EIGS_VERBOSE); exact H.
Qed.

Lemma approx_linmin_untouched st : untouched st (approx_linmin a st).
Proof.
  assert (H : untouched st (pr_state (approx_probe a st))) by now split.
  unfold approx_linmin. cbv zeta.
  revert H. generalize (approx_probe a st). intros pr H.
  destruct (approx_rejected pr); [destruct (flag a EIGS_VERBOSE)|]; exact H.
Qed.

Lemma trace_func_untouched d want th st :
  untouched st (snd (trace_func a d want th st)).
Proof. unfold trace_func. destruct want; now split. Qed.

Lemma exact_prepare_untouched st : untouched st (exact_prepare a st).
Proof. now split. Qed.

Lemma exact_linmin_untouched fuel st :
  holds_after (untouched st) (exact_linmin a fuel st).
Proof.
  assert (Hp : untouched st (exact_prepare a st)) by apply exact_prepare_untouched.
  unfold exact_linmin. cbv zeta.
  revert Hp. generalize (exact_prepare a st). generalize (exact_slope a st).
  intros sl st1 H1.
  assert (H2 : untouched st (snd (clock st1))) by exact H1.
  revert H2. generalize (clock st1). intros c0 H2.
  match goal with
  | |- context [Linmin.linmin ?f ?fu ?j ?x1 ?x2 ?x3 ?x4 ?x5 ?x6 ?d] =>
      pose proof (LinminFrame.linmin_keeps f (untouched st)
                    (fun want0 y0 s0 H0 =>
                       untouched_trans _ _ _ H0
                         (trace_func_untouched _ want0 y0 s0))
                    fu j x1 x2 x3 x4 x5 x6 d H2) as H;
      destruct (Linmin.linmin f fu j x1 x2 x3 x4 x5 x6 d) as [[th imp] s|e s|]
  end.
  - exact H.
  - exact H.
  - exact I.
Qed.

Lemma line_minimize_untouched fuel st :
  holds_after (untouched st) (line_minimize a fuel st).
Proof.
  unfold line_minimize. cbv zeta.
  assert (H : untouched st (if negb (use_linmin st) then approx_linmin a st else st))
    by (destruct (negb _); [apply approx_linmin_untouched|apply untouched_refl]).
  destruct (use_linmin (if negb (use_linmin st) then approx_linmin a st else st));
    [|exact H].
  pose proof (exact_linmin_untouched fuel
                (if negb (use_linmin st) then approx_linmin a st else st)) as H'.
  destruct (exact_linmin a fuel _); simpl in *; trivial;
    eapply untouched_trans; eassumption.
Qed.

Lemma record_iteration_untouched st : untouched st (record_iteration a st).
Proof.
  unfold record_iteration, apply_constraint.
  destruct (constraint a); now split.
Qed.

Lemma choose_strategy_untouched st : untouched st (choose_strategy a st).
Proof.
  unfold choose_strategy.
  destruct (approximate_test a st); cbv zeta;
    match goal with |- context [if ?c then printf _ _ else _] => destruct c end;
    now split.
Qed.

(** One execution of the loop body changes neither [eigenvals] nor
    [iteration]. *)
Lemma body_untouched fuel st : untouched_by_step st (body a fuel st).
Proof.
  unfold body. cbv zeta.
  assert (H1 : untouched st (measure_trace a (normalize a st)))
    by (eapply untouched_trans;
        [apply normalize_untouched|apply measure_trace_untouched]).
  destruct (BADNUM _); [exact H1|].
  destruct (converged a _); [exact H1|].
  set (st1 := measure_trace a (normalize a st)) in *.
  assert (H2 : untouched st
                 (cg_update a (precondition a (gradient a (feedback a st1))))).
  { eapply untouched_trans; [exact H1|].
    eapply untouched_trans; [apply feedback_untouched|].
    eapply untouched_trans; [apply gradient_untouched|].
    eapply untouched_trans; [apply precondition_untouched|].
    apply cg_update_untouched. }
  pose proof (line_minimize_untouched fuel
                (cg_update a (precondition a (gradient a (feedback a st1))))) as H3.
  destruct (line_minimize a fuel _) as [u s|e s|]; simpl in *; trivial.
  - eapply untouched_trans; [exact H2|].
    eapply untouched_trans; [exact H3|].
    eapply untouched_trans;
      [apply record_iteration_untouched|apply choose_strategy_untouched].
  - eapply untouched_trans; eassumption.
Qed.

End DriverFrame.
End DriverFrame.

(** ** The driver: line minimisation and strategy *)

Lemma opp_below_zero (v : real) : (- v <? 0) = (v >? 0).
Proof.
  unfold gtb. rewrite !ltb_spec, opp_spec. unfold SFltb.
  change (Prim2SF 0) with (S754_zero false).
  destruct (Prim2SF v) as [[]| [] | |[] m e]; reflexivity.
Qed.

Module LineFacts.
Section LineFacts.

Context {P : Primitives}.
Import Eigensolver.
Variable a : args.

Lemma sign_times_downhill (dE prev_theta : real) :
  Stated.sign_times (- dE) (fabs prev_theta) = downhill dE prev_theta.
Proof. unfold Stated.sign_times, downhill. now rewrite opp_below_zero. Qed.

Lemma exact_theta_silent dE d2E prev_theta E_ prev_E_ :
  flag a EIGS_VERBOSE = false ->
  snd (exact_theta a dE d2E prev_theta E_ prev_E_) = [].
Proof.
  intros H. unfold exact_theta. rewrite H. cbv zeta.
  destruct (d2E <? 0); [|destruct (_ >? _)]; simpl;
    destruct (_ >=? K_PI); reflexivity.
Qed.

(** C7: the guess that the exact line minimisation hands to [linmin] is
    the Newton estimate [-dE/d2E] after the three safeguards, in their
    order: replaced by [sign(-dE) |theta_prev|] when [d2E < 0]; else kept,
    whatever the predicted change of the trace; then replaced by
    [sign(-dE) |theta_prev|] when its magnitude is at least pi.  Without
    [EIGS_VERBOSE] the safeguards print nothing. *)
Theorem exact_guess_safeguards :
  forall st : state,
    let sl := exact_slope a st in
    let st1 := sl_state sl in
    theta (exact_prepare a st)
    = Stated.safeguarded_theta (sl_dE sl) (sl_d2E sl) (prev_theta st1) (E st1)
                               (prev_E st1)
    /\ stdout (exact_prepare a st)
       = stdout st1
         ++ (if flag a EIGS_VERBOSE
             then snd (exact_theta a (sl_dE sl) (sl_d2E sl) (prev_theta st1)
                                   (E st1) (prev_E st1))
             else []).
Proof.
  intros st sl st1. split.
  - change (theta (exact_prepare a st))
      with (fst (exact_theta a (sl_dE sl) (sl_d2E sl) (prev_theta st1) (E st1)
                             (prev_E st1))).
    generalize (sl_dE sl) (sl_d2E sl) (prev_theta st1) (E st1) (prev_E st1).
    intros dE d2E pth e pe.
    unfold exact_theta, Stated.safeguarded_theta. cbv zeta.
    rewrite !sign_times_downhill.
    destruct (d2E <? 0); [|destruct (_ >? _), (_ >? _)]; simpl;
      destruct (_ >=? K_PI); reflexivity.
  - change (stdout (exact_prepare a st))
      with (stdout st1 ++ snd (exact_theta a (sl_dE sl) (sl_d2E sl)
                                 (prev_theta st1) (E st1) (prev_E st1))).
    destruct (flag a EIGS_VERBOSE) eqn:H; [reflexivity|].
    now rewrite exact_theta_silent.
Qed.

(** What the probe shift and the two moves that can follow it write. *)
Lemma aXpbY_blocks c b x y st h :
  blk (aXpbY a c x b y st) h
  = if handle_eqb h x then evectmatrix_aXpbY c (ld a st x) b (ld a st y)
    else blk st h.
Proof. reflexivity. Qed.

Lemma approx_probe_facts st :
  let pr := approx_probe a st in
  let st1 := pr_state pr in
  E st1 = E st /\ prev_E st1 = prev_E st /\ use_linmin st1 = use_linmin st
  /\ theta st1 = - pr_dE pr / pr_d2E pr
  /\ pr_d2E pr
     = (traceAtB a st1 S1 U - E st - pr_dE pr * pr_t pr)
       / (0.5 * pr_t pr * pr_t pr).
Proof. cbv zeta. repeat split; reflexivity. Qed.

(** C3: with the approximate strategy selected, the Newton step is
    [theta = -dE/d2E] with the finite-difference [d2E].  If [d2E < 0] or
    [-0.5 dE theta > 20 |E - E_prev|], the driver takes the probe shift
    back, [Y <- Y + (-t/d_norm) D], and runs the exact line minimisation
    from that state in the same iteration.  Otherwise the outcome of the
    line minimisation is the state after the probe with the one move
    [Y <- Y + ((theta - t)/d_norm) D]: the exact strategy has not run. *)
Theorem approx_newton_step_or_fallback :
  forall (fuel : nat) (st : state),
    use_linmin st = false ->
    let pr := approx_probe a st in
    let st1 := pr_state pr in
    theta st1 = - pr_dE pr / pr_d2E pr
    /\ pr_d2E pr
       = (traceAtB a st1 S1 U - E st - pr_dE pr * pr_t pr)
         / (0.5 * pr_t pr * pr_t pr)
    /\ if (pr_d2E pr <? 0)
          || (-0.5 * pr_dE pr * theta st1 >? 20.0 * fabs (E st - prev_E st))
       then
         exists st2 : state,
           line_minimize a fuel st = exact_linmin a fuel st2
           /\ use_linmin st2 = true
           /\ blk st2 HY
              = evectmatrix_aXpbY 1.0 (ld a st1 HY) (- pr_t pr / pr_d_norm pr)
                                  (ld a st1 (D a))
           /\ (forall h, h <> HY -> blk st2 h = blk st1 h)
           /\ sq st2 = sq st1 /\ env st2 = env st1
       else
         line_minimize a fuel st
         = Done tt (st_blk st1 HY
                      (evectmatrix_aXpbY 1.0 (ld a st1 HY)
                         ((theta st1 - pr_t pr) / pr_d_norm pr)
                         (ld a st1 (D a)))).
Proof.
  intros fuel st Hsel.
  pose proof (approx_probe_facts st) as H. cbv zeta in H |- *.
  destruct H as (HE & HpE & Hsel1 & Hth & Hd2).
  split; [exact Hth|]. split; [exact Hd2|].
  rewrite Hsel in Hsel1.
  unfold line_minimize. rewrite Hsel. cbv beta iota zeta delta [negb].
  unfold approx_linmin, approx_rejected. cbv zeta.
  rewrite HE, HpE. clear HE HpE Hth Hd2.
  revert Hsel1. generalize (approx_probe a st). intros pr Hsel1.
  destruct (_ || _).
  - eexists. split; [reflexivity|].
    repeat split.
    + destruct (flag a EIGS_VERBOSE); reflexivity.
    + intros h Hh. rewrite aXpbY_blocks.
      destruct (handle_eqb h HY) eqn:Heq;
        [apply handle_eqb_eq in Heq; contradiction|].
      destruct (flag a EIGS_VERBOSE); reflexivity.
    + destruct (flag a EIGS_VERBOSE); reflexivity.
    + destruct (flag a EIGS_VERBOSE); reflexivity.
  - change (use_linmin (aXpbY a 1.0 HY
                          ((theta (pr_state pr) - pr_t pr) / pr_d_norm pr)
                          (D a) (pr_state pr)))
      with (use_linmin (pr_state pr)).
    rewrite Hsel1. reflexivity.
Qed.
End LineFacts.
End LineFacts.

Module StrategyFacts.
Section StrategyFacts.

Context {P : Primitives}.
Import Eigensolver.
Variable a : args.

Lemma choose_strategy_selects st :
  use_linmin (choose_strategy a st) = negb (approximate_test a st).
Proof.
  unfold choose_strategy.
  destruct (approximate_test a st); cbv zeta;
    match goal with |- context [if ?c then printf _ _ else _] => destruct c end;
    reflexivity.
Qed.

Lemma choose_strategy_keeps_test st :
  approximate_test a (choose_strategy a st) = approximate_test a st.
Proof.
  unfold choose_strategy.
  destruct (approximate_test a st) eqn:Ht; cbv zeta;
    match goal with |- context [if ?c then printf _ _ else _] => destruct c end;
    exact Ht.
Qed.

Lemma approximate_test_stated st :
  approximate_test a st = true <-> Stated.approximate_next a st.
Proof.
  unfold approximate_test, Stated.approximate_next.
  change APPROX_LINMIN_IMPROVEMENT_THRESHOLD with 0.05.
  change APPROX_LINMIN_SLOWDOWN_GUESS with 2.0.
  rewrite !andb_true_iff, negb_true_iff. tauto.
Qed.

Lemma body_ends_in_choice fuel st st' :
  body a fuel st = Continue st' -> exists s, st' = choose_strategy a s.
Proof.
  unfold body. cbv zeta.
  destruct (BADNUM _); [discriminate|].
  destruct (converged a _); [discriminate|].
  destruct (line_minimize a fuel _) as [u s|e s|]; try discriminate.
  intros H. injection H as <-. now eexists.
Qed.

Lemma normalize_forced st :
  flag a EIGS_FORCE_APPROX_LINMIN = true ->
  normalize a st = normalize a (set_use_linmin st false).
Proof. intros H. unfold normalize. rewrite H. reflexivity. Qed.

(** C4: when an iteration ends, the strategy selected for the next one is
    the approximate line minimisation exactly when [EIGS_FORCE_EXACT_LINMIN]
    is off, the recorded improvement of the exact line minimisation is
    positive and at most 0.05, and [t_exact > 2.0 t_approx]; it is the
    exact one otherwise.  [t_exact] and [t_approx] are the two estimates,
    both increased by [t_ZtW + t_ZS] under [EIGS_PROJECT_PRECONDITIONING].
    Under [EIGS_FORCE_APPROX_LINMIN] every iteration starts with the
    approximate strategy, whatever was selected. *)
Theorem strategy_for_next_iteration :
  forall (fuel : nat) (st st' : state),
    body a fuel st = Continue st' ->
    (use_linmin st' = false <-> Stated.approximate_next a st')
    /\ (use_linmin st' = true <-> ~ Stated.approximate_next a st')
    /\ t_exact a st'
       = (let t := time_AZ st' * 2 + time_KZ st' + time_ZtW st' * 4
                   + time_ZS st' * 2 + time_ZtZ st' * 2 + time_linmin st' in
          if flag a EIGS_PROJECT_PRECONDITIONING
          then t + (time_ZtW st' + time_ZS st') else t)
    /\ t_approx a st'
       = (let t := time_AZ st' * 2 + time_KZ st' + time_ZtW st' * 2
                   + time_ZS st' * 2 + time_ZtZ st' * 2 in
          if flag a EIGS_PROJECT_PRECONDITIONING
          then t + (time_ZtW st' + time_ZS st') else t)
    /\ (if flag a EIGS_FORCE_APPROX_LINMIN
        then use_linmin (normalize a st') = false
             /\ body a fuel st' = body a fuel (set_use_linmin st' false)
        else use_linmin (normalize a st') = use_linmin st').
Proof.
  intros fuel st st' H.
  apply body_ends_in_choice in H. destruct H as [s ->].
  pose proof (choose_strategy_selects s) as Hsel.
  assert (Hiff : Stated.approximate_next a (choose_strategy a s)
                 <-> approximate_test a s = true)
    by (rewrite <- approximate_test_stated, choose_strategy_keeps_test; tauto).
  revert Hsel Hiff. generalize (choose_strategy a s). intros st' Hsel Hiff.
  split; [|split; [|split; [reflexivity|split; [reflexivity|]]]].
  - rewrite Hsel, Hiff, negb_false_iff. tauto.
  - rewrite Hsel, Hiff, negb_true_iff.
    destruct (approximate_test a s); split; congruence.
  - destruct (flag a EIGS_FORCE_APPROX_LINMIN) eqn:Hforce.
    + split.
      * unfold normalize. rewrite Hforce. reflexivity.
      * unfold body. now rewrite (normalize_forced st' Hforce).
    + unfold normalize. rewrite Hforce. reflexivity.
Qed.

End StrategyFacts.
End StrategyFacts.

(** ** The driver: the loop *)

Module LoopFacts.
Section LoopFacts.

Context {P : Primitives}.
Import Eigensolver DriverFrame.
Variable a : args.
Variable fuel : nat.


Lemma iterate_front (k : nat) : forall st,
  iterate a fuel (S k) st
  = match body a fuel st with
    | Continue s => iterate a fuel k (next s)
    | _ => None
    end.
Proof.
  induction k as [|k IH]; intros st.
  - simpl. now destruct (body a fuel st).
  - change (iterate a fuel (S (S k)) st)
      with (match iterate a fuel (S k) st with
            | Some s => match body a fuel s with
                        | Continue s' => Some (next s')
                        | _ => None
                        end
            | None => None
            end).
    rewrite IH. now destruct (body a fuel st).
Qed.

Lemma iterate_prefix (n : nat) : forall st s k,
  iterate a fuel n st = Some s -> (k < n)%nat ->
  exists sk s', iterate a fuel k st = Some sk /\ body a fuel sk = Continue s'.
Proof.
  induction n as [|n IH]; intros st s k H Hk; [lia|].
  simpl in H.
  destruct (iterate a fuel n st) as [sn|] eqn:Hn; [|discriminate].
  destruct (body a fuel sn) as [| s' | |] eqn:Hb; try discriminate.
  destruct (Nat.eq_dec k n) as [->|Hne].
  - now exists sn, s'.
  - apply (IH st sn k Hn). lia.
Qed.

Lemma body_iteration st :
  match body a fuel st with
  | Break s | Continue s | Abort _ s => iteration s = iteration st
  | Stuck => True
  end.
Proof.
  pose proof (body_untouched a fuel st) as H.
  destruct (body a fuel st); simpl in H; solve [apply H | exact I].
Qed.

Lemma next_iteration st s :
  iteration s = iteration st -> iteration (next s) = (iteration st + 1)%Z.
Proof.
  intros H. change (iteration (next s)) with (iteration s + 1)%Z.
  now rewrite H.
Qed.

Lemma loop_ends (budget : nat) : forall st,
  (0 <= iteration st < EIGENSOLVER_MAX_ITERATIONS)%Z ->
  (Z.to_nat (EIGENSOLVER_MAX_ITERATIONS - iteration st) <= budget)%nat ->
  ends_as a fuel st (loop a budget fuel st).
Proof.
  induction budget as [|budget IH]; intros st Hit Hb;
    [unfold EIGENSOLVER_MAX_ITERATIONS in *; lia|].
  change (loop a (S budget) fuel st)
    with (match body a fuel st with
          | Break st' => Done tt st'
          | Continue st' =>
              if (iteration (next st') <? EIGENSOLVER_MAX_ITERATIONS)%Z
              then loop a budget fuel (next st')
              else Done tt (next st')
          | Abort e st' => Fatal e st'
          | Stuck => Timeout
          end).
  pose proof (body_iteration st) as Hbody.
  destruct (body a fuel st) as [s|s|e s|] eqn:Hst.
  - left. exists 0%nat, st. split; [unfold EIGENSOLVER_MAX_ITERATIONS in *; lia|].
    split; [reflexivity|]. split; [assumption|]. rewrite Hbody. simpl. lia.
  - pose proof (next_iteration st s Hbody) as Hnext. rewrite Hnext.
    destruct (iteration st + 1 <? EIGENSOLVER_MAX_ITERATIONS)%Z eqn:Hlt.
    + apply Z.ltb_lt in Hlt.
      specialize (IH (next s)). rewrite Hnext in IH.
      specialize (IH ltac:(lia) ltac:(unfold EIGENSOLVER_MAX_ITERATIONS in *; lia)).
      unfold ends_as in IH |- *.
      destruct (loop a budget fuel (next s)) as [u s1|e s1|];
        rewrite ?Hnext in IH.
      * destruct IH as [(k & s0 & Hk & Hi & Hbr & Hn)|[Hi Hn]].
        -- left. exists (S k), s0.
           rewrite iterate_front, Hst.
           split; [lia|]. split; [assumption|]. split; [assumption|lia].
        -- right. split; [|assumption].
           replace (Z.to_nat (EIGENSOLVER_MAX_ITERATIONS - iteration st))
             with (S (Z.to_nat (EIGENSOLVER_MAX_ITERATIONS - (iteration st + 1))))
             by (unfold EIGENSOLVER_MAX_ITERATIONS in *; lia).
           now rewrite iterate_front, Hst.
      * destruct IH as (k & s0 & Hk & Hi & Hab).
        exists (S k), s0. rewrite iterate_front, Hst.
        split; [lia|]. split; assumption.
      * destruct IH as (k & s0 & Hk & Hi & Hab).
        exists (S k), s0. rewrite iterate_front, Hst.
        split; [lia|]. split; assumption.
    + apply Z.ltb_ge in Hlt. right.
      assert (Hlast : (EIGENSOLVER_MAX_ITERATIONS - iteration st = 1)%Z) by lia.
      rewrite Hlast. change (Z.to_nat 1) with 1%nat.
      rewrite iterate_front, Hst. split; [reflexivity|]. rewrite Hnext. lia.
  - exists 0%nat, st. split; [unfold EIGENSOLVER_MAX_ITERATIONS in *; lia|].
    split; [reflexivity|assumption].
  - exists 0%nat, st. split; [unfold EIGENSOLVER_MAX_ITERATIONS in *; lia|].
    split; [reflexivity|assumption].
Qed.

(** A budget beyond what is left of the cap is never used. *)
Lemma loop_budget (b1 : nat) : forall b2 st,
  (0 <= iteration st < EIGENSOLVER_MAX_ITERATIONS)%Z ->
  (Z.to_nat (EIGENSOLVER_MAX_ITERATIONS - iteration st) <= b1)%nat ->
  (Z.to_nat (EIGENSOLVER_MAX_ITERATIONS - iteration st) <= b2)%nat ->
  loop a b1 fuel st = loop a b2 fuel st.
Proof.
  induction b1 as [|b1 IH]; intros b2 st Hit H1 H2;
    [unfold EIGENSOLVER_MAX_ITERATIONS in *; lia|].
  destruct b2 as [|b2]; [unfold EIGENSOLVER_MAX_ITERATIONS in *; lia|].
  change (loop a (S b1) fuel st)
    with (match body a fuel st with
          | Break st' => Done tt st'
          | Continue st' =>
              if (iteration (next st') <? EIGENSOLVER_MAX_ITERATIONS)%Z
              then loop a b1 fuel (next st')
              else Done tt (next st')
          | Abort e st' => Fatal e st'
          | Stuck => Timeout
          end).
  change (loop a (S b2) fuel st)
    with (match body a fuel st with
          | Break st' => Done tt st'
          | Continue st' =>
              if (iteration (next st') <? EIGENSOLVER_MAX_ITERATIONS)%Z
              then loop a b2 fuel (next st')
              else Done tt (next st')
          | Abort e st' => Fatal e st'
          | Stuck => Timeout
          end).
  pose proof (body_iteration st) as Hbody.
  destruct (body a fuel st) as [s|s|e s|]; try reflexivity.
  pose proof (next_iteration st s Hbody) as Hnext. rewrite Hnext.
  destruct (iteration st + 1 <? EIGENSOLVER_MAX_ITERATIONS)%Z eqn:Hlt; [|reflexivity].
  apply Z.ltb_lt in Hlt.
  apply IH; rewrite Hnext; unfold EIGENSOLVER_MAX_ITERATIONS in *; lia.
Qed.

Lemma loop_eigenvals (budget : nat) : forall st,
  holds_after (fun s => eigenvals s = eigenvals st) (loop a budget fuel st).
Proof.
  induction budget as [|budget IH]; intros st; [exact I|].
  change (loop a (S budget) fuel st)
    with (match body a fuel st with
          | Break st' => Done tt st'
          | Continue st' =>
              if (iteration (next st') <? EIGENSOLVER_MAX_ITERATIONS)%Z
              then loop a budget fuel (next st')
              else Done tt (next st')
          | Abort e st' => Fatal e st'
          | Stuck => Timeout
          end).
  pose proof (body_untouched a fuel st) as Hbody.
  destruct (body a fuel st) as [s|s|e s|]; unfold untouched_by_step in Hbody;
    try exact (proj1 Hbody); try exact I.
  destruct (_ <? EIGENSOLVER_MAX_ITERATIONS)%Z; [|exact (proj1 Hbody)].
  specialize (IH (next s)).
  destruct (loop a budget fuel (next s)); unfold holds_after in *; trivial;
    rewrite IH; exact (proj1 Hbody).
Qed.

(** *** What [setup] leaves and what it zeroes *)

Lemma zero_loop_nil (count : nat) : forall start,
  for_loop count start (fun i l => store_at i 0 l) (@nil real) = [].
Proof.
  induction count as [|count IH]; intros start; [reflexivity|simpl; apply IH].
Qed.

Lemma zero_loop_shift (count : nat) : forall start v l,
  for_loop count (S start) (fun i l => store_at i 0 l) (v :: l)
  = v :: for_loop count start (fun i l => store_at i 0 l) l.
Proof.
  induction count as [|count IH]; intros start v l; [reflexivity|].
  simpl. destruct l as [|w l].
  - rewrite IH. now rewrite !zero_loop_nil.
  - now rewrite IH.
Qed.

Lemma zero_loop (count : nat) : forall l : list real,
  for_loop count 0 (fun i l => store_at i 0 l) l
  = repeat 0 (Nat.min count (length l)) ++ skipn count l.
Proof.
  induction count as [|count IH]; intros l; [reflexivity|].
  destruct l as [|v l]; [apply zero_loop_nil|].
  simpl. rewrite zero_loop_shift. now rewrite IH.
Qed.

Lemma eigenvals_loop (count : nat) : forall start st,
  eigenvals (for_loop count start
               (fun i st => set_eigenvals st (store_at i 0 (eigenvals st))) st)
  = for_loop count start (fun i l => store_at i 0 l) (eigenvals st)
  /\ iteration (for_loop count start
                  (fun i st => set_eigenvals st (store_at i 0 (eigenvals st))) st)
     = iteration st.
Proof.
  induction count as [|count IH]; intros start st; [now split|].
  simpl. destruct (IH (S start) (set_eigenvals st (store_at start 0 (eigenvals st))))
    as [H1 H2].
  split; assumption.
Qed.

Lemma setup_spec st :
  eigenvals (setup a st)
  = repeat 0 (Nat.min (Yp a) (length (eigenvals st))) ++ skipn (Yp a) (eigenvals st)
  /\ iteration (setup a st) = iteration st.
Proof.
  unfold setup.
  set (st1 := if usingConjugateGradient a then zero_fill (D a) _ st else st).
  assert (H1 : untouched st st1)
    by (subst st1; destruct (usingConjugateGradient a);
        [apply zero_fill_untouched|apply untouched_refl]).
  set (st2 := if use_polak_ribiere a then zero_fill (prev_G a) _ st1 else st1).
  assert (H2 : untouched st st2).
  { eapply untouched_trans; [exact H1|].
    subst st2; destruct (use_polak_ribiere a);
      [apply zero_fill_untouched|apply untouched_refl]. }
  cbv zeta.
  set (st3 := fold_left _ _ st2).
  assert (H3 : untouched st st3) by exact H2.
  clearbody st3. clear st1 st2 H1 H2.
  destruct (eigenvals_loop (Yp a) 0 st3) as [He Hi].
  destruct H3 as [H3e H3i].
  unfold apply_constraint.
  destruct (constraint a); simpl;
    rewrite He, Hi, zero_loop, H3e, H3i; split; reflexivity.
Qed.

Lemma setup_iteration w blocks ev :
  iteration (setup a (entry a w blocks ev)) = 0%Z.
Proof. now rewrite (proj2 (setup_spec _)). Qed.

(** C10: on entry, before the first iteration, [eigensolver] overwrites
    the entries [eigenvals[0..p-1]] of the caller's array with 0.0 (the
    entries past [p] stay); this comes after the check of the workspace
    count, and any later fatal error finds the array in that state. *)
Theorem eigenvals_zeroed_at_entry :
  forall (budget : nat) (w : world) (blocks : handle -> list scalar)
         (ev : list real),
    let st0 := setup a (entry a w blocks ev) in
    let zeroed := repeat 0 (Nat.min (Yp a) (length ev)) ++ skipn (Yp a) ev in
    eigenvals st0 = zeroed
    /\ match eigensolver a budget fuel w blocks ev with
       | Fatal e s =>
           if (2 <=? nWork a)%Z then eigenvals s = zeroed
           else e = NotEnoughWorkspace /\ eigenvals s = ev
       | _ => True
       end.
Proof.
  intros budget w blocks ev st0 zeroed.
  assert (H0 : eigenvals st0 = zeroed) by exact (proj1 (setup_spec _)).
  split; [exact H0|].
  unfold eigensolver. cbv zeta. fold st0.
  destruct (2 <=? nWork a)%Z; [|now split].
  pose proof (loop_eigenvals budget st0) as Hloop.
  destruct (loop a budget fuel st0) as [u s|e s|]; unfold holds_after in Hloop.
  - destruct (_ <? _)%Z; [exact I|congruence].
  - congruence.
  - exact I.
Qed.

(** C2: the loop of the driver runs its body at most 10000 times, whatever
    the arguments: a budget of more executions is never drawn on.  A run in
    which the body is executed 10000 times without leaving the loop ends in
    the fatal error "failure to converge"; a run that returns has left the
    loop through the [break] of the convergence test, in an execution of
    the body before the cap; and a run that never ends hangs inside an
    execution of the body, in [linmin]. *)
Theorem iteration_cap :
  forall (budget : nat) (w : world) (blocks : handle -> list scalar)
         (ev : list real),
    (Z.to_nat EIGENSOLVER_MAX_ITERATIONS <= budget)%nat ->
    let st0 := setup a (entry a w blocks ev) in
    let run := eigensolver a budget fuel w blocks ev in
    run = eigensolver a (Z.to_nat EIGENSOLVER_MAX_ITERATIONS) fuel w blocks ev
    /\ (forall s,
          (2 <= nWork a)%Z ->
          iterate a fuel (Z.to_nat EIGENSOLVER_MAX_ITERATIONS) st0 = Some s ->
          run = Fatal FailureToConverge s)
    /\ (forall k s,
          run = Done k s ->
          (0 <= k < EIGENSOLVER_MAX_ITERATIONS)%Z
          /\ exists s0 s1,
               iterate a fuel (Z.to_nat k) st0 = Some s0
               /\ body a fuel s0 = Break s1 /\ s = extract a s1)
    /\ (run = Timeout ->
        exists k s0,
          (Z.of_nat k < EIGENSOLVER_MAX_ITERATIONS)%Z
          /\ iterate a fuel k st0 = Some s0 /\ body a fuel s0 = Stuck).
Proof.
  intros budget w blocks ev Hbudget st0 run.
  assert (Hit : iteration st0 = 0%Z) by apply setup_iteration.
  assert (Hrange : (0 <= iteration st0 < EIGENSOLVER_MAX_ITERATIONS)%Z)
    by (rewrite Hit; unfold EIGENSOLVER_MAX_ITERATIONS; lia).
  assert (Hleft : (EIGENSOLVER_MAX_ITERATIONS - iteration st0
                   = EIGENSOLVER_MAX_ITERATIONS)%Z) by (rewrite Hit; lia).
  pose proof (loop_ends budget st0 Hrange ltac:(now rewrite Hleft)) as Hends.
  subst run. unfold eigensolver. cbv zeta. fold st0.
  rewrite (loop_budget budget (Z.to_nat EIGENSOLVER_MAX_ITERATIONS) st0 Hrange)
    by (rewrite Hleft; lia).
  rewrite (loop_budget budget (Z.to_nat EIGENSOLVER_MAX_ITERATIONS) st0 Hrange)
    in Hends by (rewrite Hleft; lia).
  split; [reflexivity|].
  destruct (2 <=? nWork a)%Z eqn:Hwork.
  2: { split; [intros s H; apply Z.leb_gt in Hwork; lia|].
       split; [discriminate|discriminate]. }
  unfold ends_as in Hends. rewrite Hleft, Hit in Hends.
  destruct (loop a (Z.to_nat EIGENSOLVER_MAX_ITERATIONS) fuel st0) as [u s1|e s1|].
  - destruct Hends as [(k & s0 & Hk & Hi & Hbr & Hn)|[Hi Hn]].
    + assert (Hlt : (iteration s1 <? EIGENSOLVER_MAX_ITERATIONS)%Z = true)
        by (apply Z.ltb_lt; lia).
      rewrite Hlt. split; [|split; [|discriminate]].
      * intros s _ Hs.
        destruct (iterate_prefix _ _ _ k Hs ltac:(lia)) as (sk & s' & Hsk & Hc).
        congruence.
      * intros k' s H. injection H as <- <-.
        split; [lia|]. exists s0, s1.
        replace (Z.to_nat (iteration s1)) with k by lia. now repeat split.
    + assert (Hlt : (iteration s1 <? EIGENSOLVER_MAX_ITERATIONS)%Z = false)
        by (apply Z.ltb_ge; lia).
      rewrite Hlt. split; [|split; discriminate].
      intros s _ Hs. congruence.
  - destruct Hends as (k & s0 & Hk & Hi & Hab).
    split; [|split; discriminate].
    intros s _ Hs.
    destruct (iterate_prefix _ _ _ k Hs ltac:(lia)) as (sk & s' & Hsk & Hc).
    congruence.
  - destruct Hends as (k & s0 & Hk & Hi & Hst).
    split; [|split; [discriminate|]].
    + intros s _ Hs.
      destruct (iterate_prefix _ _ _ k Hs ltac:(lia)) as (sk & s' & Hsk & Hc).
      congruence.
    + intros _. now exists k, s0.
Qed.

End LoopFacts.
End LoopFacts.

(** ** The driver: the direction update *)

Lemma rem_zero_mod_zero (v m : Z) :
  m <> 0%Z -> (Z.rem v m =? 0)%Z = (v mod m =? 0)%Z.
Proof.
  intros Hm.
  destruct (Z.eqb_spec (Z.rem v m) 0) as [H|H];
    destruct (Z.eqb_spec (v mod m) 0) as [H'|H']; try reflexivity.
  - apply Z.rem_divide in H; [|assumption].
    apply Z.mod_divide in H; [|assumption]. contradiction.
  - apply Z.mod_divide in H'; [|assumption].
    apply Z.rem_divide in H'; [|assumption]. contradiction.
Qed.

Module DirectionFacts.
Section DirectionFacts.

Context {P : Primitives}.
Import Eigensolver.
Variable a : args.

Lemma difference_shift (count : nat) : forall start u g v p,
  for_loop count (S start) difference_step (u :: g, v :: p)
  = (u :: fst (for_loop count start difference_step (g, p)),
     v :: snd (for_loop count start difference_step (g, p))).
Proof.
  induction count as [|count IH]; intros start u g v p; [reflexivity|].
  simpl for_loop.
  change (difference_step (S start) (u :: g, v :: p))
    with (u :: fst (difference_step start (g, p)),
          v :: snd (difference_step start (g, p))).
  rewrite IH. now destruct (difference_step start (g, p)).
Qed.

Lemma difference_loop (g : list scalar) : forall p,
  length p = length g ->
  for_loop (length g) 0 difference_step (g, p) = (map2 scalar_diff g p, g).
Proof.
  induction g as [|u g IH]; intros p Hp; destruct p as [|v p]; try discriminate;
    [reflexivity|].
  simpl length. simpl for_loop.
  change (difference_step 0 (u :: g, v :: p))
    with (scalar_diff u v :: g, u :: p).
  rewrite difference_shift, IH by (simpl in Hp; lia). reflexivity.
Qed.

Lemma state_eta (st : state) : st = set_blk st (blk st).
Proof. now destruct st. Qed.

(** With four workspaces the pass works on [Work[0]] and [Work[3]], cell by
    cell, and on nothing else. *)
Lemma pass_on_cells (count : nat) : forall start st,
  prev_G a = HWork 3 ->
  let st' := for_loop count start (polak_ribiere_step a) st in
  (blk st' G, blk st' (HWork 3))
  = for_loop count start difference_step (blk st G, blk st (HWork 3))
  /\ (forall h, h <> G -> h <> HWork 3 -> blk st' h = blk st h)
  /\ st' = set_blk st (blk st').
Proof.
  induction count as [|count IH]; intros start st Hprev; cbv zeta.
  - split; [reflexivity|split; [intros; reflexivity|apply state_eta]].
  - simpl for_loop.
    destruct (IH (S start) (polak_ribiere_step a start st) Hprev)
      as (Hcells & Hrest & Heta).
    cbv zeta in Hcells, Hrest, Heta.
    assert (Hstep : (blk (polak_ribiere_step a start st) G,
                     blk (polak_ribiere_step a start st) (HWork 3))
                    = difference_step start (blk st G, blk st (HWork 3)))
      by (unfold polak_ribiere_step; rewrite Hprev; reflexivity).
    split; [|split].
    + rewrite Hcells, Hstep. reflexivity.
    + intros h HG HP. rewrite Hrest by assumption.
      unfold polak_ribiere_step. rewrite Hprev. cbv zeta. simpl.
      unfold upd.
      destruct (handle_eqb h (HWork 3)) eqn:E3;
        [apply handle_eqb_eq in E3; contradiction|].
      destruct (handle_eqb h G) eqn:E0;
        [apply handle_eqb_eq in E0; contradiction|reflexivity].
    + rewrite Heta at 1. reflexivity.
Qed.

Lemma four_workspaces :
  (4 <= nWork a)%Z ->
  use_polak_ribiere a = true /\ usingConjugateGradient a = true
  /\ prev_G a = HWork 3 /\ D a = HWork 2.
Proof.
  intros H. unfold prev_G, D, use_polak_ribiere, usingConjugateGradient.
  rewrite (proj2 (Z.leb_le 4 _) H), (proj2 (Z.leb_le 3 _)) by lia. now repeat split.
Qed.

(** One step of the pass writes the cell [i] of the two blocks, and no
    other cell of any block. *)
Lemma polak_ribiere_step_elsewhere i st h j :
  j <> i ->
  nth j (blk (polak_ribiere_step a i st) h) scalar_zero
  = nth j (blk st h) scalar_zero.
Proof.
  intros Hj. unfold polak_ribiere_step. cbv zeta. simpl. unfold upd.
  destruct (handle_eqb h (prev_G a)) eqn:Ep.
  - apply handle_eqb_eq in Ep. subst h.
    rewrite nth_store_at_other by congruence.
    destruct (handle_eqb (prev_G a) G) eqn:Eg; [|reflexivity].
    apply handle_eqb_eq in Eg. rewrite Eg.
    now rewrite nth_store_at_other by congruence.
  - destruct (handle_eqb h G) eqn:Eg; [|reflexivity].
    apply handle_eqb_eq in Eg. subst h.
    now rewrite nth_store_at_other by congruence.
Qed.

Lemma polak_ribiere_step_here i st :
  prev_G a = HWork 3 ->
  (i < length (blk st G))%nat ->
  (i < length (blk st (HWork 3)))%nat ->
  nth i (blk (polak_ribiere_step a i st) G) scalar_zero
  = scalar_diff (nth i (blk st G) scalar_zero)
                (nth i (blk st (HWork 3)) scalar_zero)
  /\ nth i (blk (polak_ribiere_step a i st) (HWork 3)) scalar_zero
     = nth i (blk st G) scalar_zero.
Proof.
  intros Hprev HG HP. unfold polak_ribiere_step. rewrite Hprev. cbv zeta. simpl.
  unfold upd. simpl. split; now rewrite nth_store_at_same.
Qed.

(** What the whole pass leaves, with four workspaces on blocks of [n p]
    cells. *)
Lemma fused_pass_result st :
  (4 <= nWork a)%Z ->
  length (blk st G) = (Yn a * Yp a)%nat ->
  length (blk st (HWork 3)) = (Yn a * Yp a)%nat ->
  let st' := polak_ribiere_pass a st in
  blk st' G = map2 scalar_diff (blk st G) (blk st (HWork 3))
  /\ blk st' (HWork 3) = blk st G
  /\ (forall h, h <> G -> h <> HWork 3 -> blk st' h = blk st h)
  /\ st' = set_blk st (blk st')
  /\ gamma_numerator a st
     = (st', SCALAR_RE (evectmatrix_traceXtY (ld a st' G) (ld a st' X))).
Proof.
  intros Hwork HG HP st'.
  destruct (four_workspaces Hwork) as (Hpr & _ & Hprev & _).
  destruct (pass_on_cells (Yn a * Yp a) 0 st Hprev) as (Hcells & Hrest & Heta).
  cbv zeta in Hcells, Hrest, Heta.
  change (for_loop (Yn a * Yp a) 0 (polak_ribiere_step a) st) with st'
    in Hcells, Hrest, Heta.
  assert (Hloop : for_loop (Yn a * Yp a) 0 difference_step
                    (blk st G, blk st (HWork 3))
                  = (map2 scalar_diff (blk st G) (blk st (HWork 3)), blk st G))
    by (rewrite <- HG; apply difference_loop; congruence).
  rewrite Hloop in Hcells. injection Hcells as Hg Hp.
  split; [exact Hg|]. split; [exact Hp|]. split; [exact Hrest|].
  split; [exact Heta|].
  unfold gamma_numerator. rewrite Hpr. reflexivity.
Qed.

(** C6: with four workspaces or more, the fused pass is one loop over the
    indices [0 .. n p - 1], each visited once and in order; the step for
    index [i] turns the pair [(G[i], prev_G[i])] into
    [(G[i] - prev_G[i], G[i])] and touches no other cell; the pass as a
    whole leaves [G - prev_G] in [G] and the old [G] in [prev_G], writes
    nothing but these two blocks, and the numerator of [gamma] is
    [tr(G^t X)] on the [G] it leaves.  Its only temporary is the scalar
    [g]. *)
Theorem polak_ribiere_fused_pass :
  forall st : state,
    (4 <= nWork a)%Z ->
    length (blk st G) = (Yn a * Yp a)%nat ->
    length (blk st (HWork 3)) = (Yn a * Yp a)%nat ->
    let st' := polak_ribiere_pass a st in
    prev_G a = HWork 3
    /\ st' = fold_left (fun s i => polak_ribiere_step a i s)
                       (seq 0 (Yn a * Yp a)) st
    /\ NoDup (seq 0 (Yn a * Yp a))
    /\ (forall i s,
          (i < length (blk s G))%nat ->
          (i < length (blk s (HWork 3)))%nat ->
          nth i (blk (polak_ribiere_step a i s) G) scalar_zero
          = scalar_diff (nth i (blk s G) scalar_zero)
                        (nth i (blk s (HWork 3)) scalar_zero)
          /\ nth i (blk (polak_ribiere_step a i s) (HWork 3)) scalar_zero
             = nth i (blk s G) scalar_zero)
    /\ (forall i s h j,
          j <> i ->
          nth j (blk (polak_ribiere_step a i s) h) scalar_zero
          = nth j (blk s h) scalar_zero)
    /\ blk st' G = map2 scalar_diff (blk st G) (blk st (HWork 3))
    /\ blk st' (HWork 3) = blk st G
    /\ (forall h, h <> G -> h <> HWork 3 -> blk st' h = blk st h)
    /\ st' = set_blk st (blk st')
    /\ gamma_numerator a st
       = (st', SCALAR_RE (evectmatrix_traceXtY (ld a st' G) (ld a st' X))).
Proof.
  intros st Hwork HG HP st'.
  destruct (four_workspaces Hwork) as (_ & _ & Hprev & _).
  split; [exact Hprev|].
  split; [apply for_loop_seq|].
  split; [apply seq_NoDup|].
  split; [intros i s; now apply polak_ribiere_step_here|].
  split; [intros i s h j; apply polak_ribiere_step_elsewhere|].
  exact (fused_pass_result st Hwork HG HP).
Qed.

(** Nothing before the direction update writes [prev_traceGtX]. *)
Lemma for_loop_tgx (body : nat -> state -> state) (count start : nat) st :
  (forall i s, prev_traceGtX (body i s) = prev_traceGtX s) ->
  prev_traceGtX (for_loop count start body st) = prev_traceGtX st.
Proof.
  intros Hbody.
  apply (for_loop_invariant (fun _ s => prev_traceGtX s = prev_traceGtX st));
    [reflexivity|].
  intros i s _ Hs. now rewrite Hbody.
Qed.

Lemma setup_tgx st : prev_traceGtX (setup a st) = prev_traceGtX st.
Proof.
  unfold setup, apply_constraint, zero_fill. cbv zeta.
  destruct (constraint a); simpl; rewrite for_loop_tgx by reflexivity; simpl;
    destruct (use_polak_ribiere a), (usingConjugateGradient a);
    rewrite ?for_loop_tgx by reflexivity; reflexivity.
Qed.

Lemma normalize_tgx st : prev_traceGtX (normalize a st) = prev_traceGtX st.
Proof. unfold normalize. through_tests. Qed.

Lemma measure_trace_tgx st : prev_traceGtX (measure_trace a st) = prev_traceGtX st.
Proof. reflexivity. Qed.

Lemma feedback_tgx st : prev_traceGtX (feedback a st) = prev_traceGtX st.
Proof. unfold feedback. through_tests. Qed.

Lemma gradient_tgx st : prev_traceGtX (gradient a st) = prev_traceGtX st.
Proof. reflexivity. Qed.

Lemma precondition_tgx st : prev_traceGtX (precondition a st) = prev_traceGtX st.
Proof. unfold precondition. through_tests. Qed.

Lemma first_direction_tgx w blocks ev :
  prev_traceGtX
    (precondition a
       (gradient a
          (feedback a
             (measure_trace a (normalize a (setup a (entry a w blocks ev)))))))
  = 0.
Proof.
  now rewrite precondition_tgx, gradient_tgx, feedback_tgx, measure_trace_tgx,
    normalize_tgx, setup_tgx.
Qed.

(** C5: with three workspaces or more the direction update is
    [D <- gamma D + X], where [gamma] is 0 when [tgx_prev] is 0 (as it is
    when the first iteration comes to the update), 0 when [EIGS_RESET_CG] is
    set and [iteration + 1] is a multiple of 70, and otherwise the numerator
    over [tgx_prev]: the numerator is [tr(G^t X)] with three workspaces
    (Fletcher-Reeves) and [tr((G - prev_G)^t X)] with four or more
    (Polak-Ribiere). *)
Theorem direction_update :
  forall st : state,
    (3 <= nWork a)%Z ->
    ((4 <= nWork a)%Z ->
     length (blk st G) = (Yn a * Yp a)%nat
     /\ length (blk st (HWork 3)) = (Yn a * Yp a)%nat) ->
    D a = HWork 2
    /\ blk (cg_update a st) (HWork 2)
       = evectmatrix_aXpbY (Stated.gamma a st) (ld a st (HWork 2)) 1.0 (ld a st X)
    /\ ((prev_traceGtX st =? 0) = true -> Stated.gamma a st = 0)
    /\ (forall w blocks ev,
          prev_traceGtX
            (precondition a
               (gradient a
                  (feedback a
                     (measure_trace a
                        (normalize a (setup a (entry a w blocks ev)))))))
          = 0).
Proof.
  intros st H3 Hshape.
  assert (HD : D a = HWork 2)
    by (unfold D, usingConjugateGradient; now rewrite (proj2 (Z.leb_le 3 _) H3)).
  split; [exact HD|].
  split; [|split].
  2: { intros H. unfold Stated.gamma. now rewrite H. }
  2: { apply first_direction_tgx. }
  assert (Hgamma :
            forall num : real,
              (if flag a EIGS_RESET_CG
                  && (Z.rem (iteration st + 1) CG_RESET_ITERS =? 0)%Z
               then 0.0
               else if prev_traceGtX st =? 0.0 then 0.0
                    else num / prev_traceGtX st)
              = (if prev_traceGtX st =? 0 then 0
                 else if flag a EIGS_RESET_CG
                         && ((iteration st + 1) mod 70 =? 0)%Z then 0
                 else num / prev_traceGtX st)).
  { intros num. unfold CG_RESET_ITERS.
    rewrite rem_zero_mod_zero by discriminate.
    destruct (prev_traceGtX st =? 0), (_ && _); reflexivity. }
  unfold cg_update. cbv zeta.
  unfold usingConjugateGradient. rewrite (proj2 (Z.leb_le 3 _) H3).
  rewrite HD.
  set (st0 := set_traceGtX st (traceXtY a st G X)).
  destruct (Z.leb_spec 4 (nWork a)) as [H4|H4].
  - destruct (Hshape H4) as [HG HP].
    destruct (fused_pass_result st0 H4 HG HP) as (Hg & _ & Hrest & Heta & Hnum).
    rewrite Hnum. cbv beta iota zeta delta [fst snd].
    generalize dependent (polak_ribiere_pass a st0). intros st' Hg Hrest Heta.
    assert (HX : ld a st' X = ld a st X)
      by (unfold ld; rewrite Hrest by discriminate; reflexivity).
    assert (HD2 : ld a st' (HWork 2) = ld a st (HWork 2))
      by (unfold ld; rewrite Hrest by discriminate; reflexivity).
    assert (HGc : ld a st' G = Stated.gradient_change a st)
      by (unfold ld, Stated.gradient_change; rewrite Hg; reflexivity).
    assert (Hprev : prev_traceGtX st' = prev_traceGtX st)
      by (rewrite Heta; reflexivity).
    assert (Hiter : iteration st' = iteration st)
      by (rewrite Heta; reflexivity).
    rewrite Hprev, Hiter, HX, HGc.
    unfold Stated.gamma. rewrite (proj2 (Z.leb_le 4 _) H4).
    rewrite <- Hgamma.
    destruct (flag a EIGS_RESET_CG
              && (Z.rem (iteration st + 1) CG_RESET_ITERS =? 0)%Z);
      cbv beta iota zeta delta [andb];
      [destruct (flag a EIGS_VERBOSE)|];
      rewrite <- HD2, <- HX; reflexivity.
  - assert (Hpr : use_polak_ribiere a = false)
      by (unfold use_polak_ribiere; apply Z.leb_gt; lia).
    unfold gamma_numerator. rewrite Hpr. cbv beta iota zeta delta [fst snd].
    unfold Stated.gamma. rewrite (proj2 (Z.leb_gt 4 _) H4).
    rewrite <- Hgamma.
    change (prev_traceGtX st0) with (prev_traceGtX st).
    change (iteration st0) with (iteration st).
    destruct (flag a EIGS_RESET_CG
              && (Z.rem (iteration st + 1) CG_RESET_ITERS =? 0)%Z);
      cbv beta iota zeta delta [andb];
      [destruct (flag a EIGS_VERBOSE)|]; reflexivity.
Qed.

End DirectionFacts.
End DirectionFacts.

(** ** The properties at work on [diag(1, 2, 3)] and [diag(-1, -2, -3)] *)

(** C1, on the operator [diag(-1, -2, -3)] with [Y = (1, 1, 1)], three
    workspaces and [tolerance = 1e-10]: in the execution of the body that
    has [iteration = 29] the trace is -3, as it was in the one before; the
    test of the code fails, since its right-hand side is negative, where the
    test with the absolute values holds; the loop goes on, and the run dies
    in [linmin] instead of returning. *)
Lemma convergence_test_without_fabs :
  let a := Real1.call [-1; -2; -3] 3 1e-10 0 in
  exists st : Eigensolver.state,
    Eigensolver.eigensolver a (Z.to_nat EIGENSOLVER_MAX_ITERATIONS) 1000 0%Z
      (Real1.blocks [1; 1; 1]) [7]
    = Fatal FailedToBracket st
    /\ Eigensolver.iteration st = 29%Z
    /\ Eigensolver.E st = -3 /\ Eigensolver.prev_E st = -3
    /\ Eigensolver.converged a st = false
    /\ Stated.convergence a st = true.
Proof.
  cbv zeta. eexists. split; [vm_compute; reflexivity|].
  repeat split; vm_compute; reflexivity.
Qed.

(** Witness of [iteration_cap], and a run that reaches the cap: on
    [diag(-1, -2, -3)] with a constraint that pins [Y] to [(1, 1, 1)], every
    execution of the body finds the trace -2 of the one before and none
    leaves the loop; after 10000 of them the driver dies with "failure to
    converge", whatever budget beyond 10000 it is given. *)
Lemma iteration_cap_witness :
  let a := Real1.pinned [-1; -2; -3] [1; 1; 1] 2 1e-4 0 in
  exists s : Eigensolver.state,
    Eigensolver.iterate a 100 (Z.to_nat EIGENSOLVER_MAX_ITERATIONS)
      (Eigensolver.setup a
         (Eigensolver.entry a 0%Z (Real1.blocks [1; 1; 1]) [7]))
    = Some s
    /\ Eigensolver.eigensolver a (S (Z.to_nat EIGENSOLVER_MAX_ITERATIONS)) 100
         0%Z (Real1.blocks [1; 1; 1]) [7]
       = Fatal FailureToConverge s.
Proof.
  cbv zeta.
  set (a := Real1.pinned [-1; -2; -3] [1; 1; 1] 2 1e-4 0).
  set (st0 := Eigensolver.setup a _).
  assert (Hsome : match Eigensolver.iterate a 100
                          (Z.to_nat EIGENSOLVER_MAX_ITERATIONS) st0 with
                  | Some _ => true
                  | None => false
                  end = true)
    by (vm_compute; reflexivity).
  destruct (Eigensolver.iterate a 100 (Z.to_nat EIGENSOLVER_MAX_ITERATIONS) st0)
    as [s|] eqn:Hs; [|discriminate Hsome].
  exists s. split; [reflexivity|].
  refine (proj1 (proj2 (LoopFacts.iteration_cap a 100
                          (S (Z.to_nat EIGENSOLVER_MAX_ITERATIONS)) 0%Z
                          (Real1.blocks [1; 1; 1]) [7]
                          (Nat.le_succ_diag_r _))) s _ Hs).
  vm_compute. discriminate.
Defined.

(** Witness of [approx_newton_step_or_fallback]: the first iteration on
    [diag(1, 2, 3)] under [EIGS_FORCE_APPROX_LINMIN]; the finite-difference
    [d2E] is negative there, and the exact line minimisation takes over. *)
Lemma approx_newton_step_or_fallback_witness :
  let a := Real1.call [1; 2; 3] 4 1e-4 16 in
  let st := Eigensolver.cg_update a
              (Eigensolver.precondition a
                 (Eigensolver.gradient a
                    (Eigensolver.feedback a
                       (Eigensolver.measure_trace a
                          (Eigensolver.normalize a
                             (Eigensolver.setup a
                                (Eigensolver.entry a 0%Z
                                   (Real1.blocks [1; 1; 1]) [7]))))))) in
  Eigensolver.use_linmin st = false
  /\ (Eigensolver.pr_d2E (Eigensolver.approx_probe a st) <? 0) = true
  /\ exists st2 : Eigensolver.state,
       Eigensolver.line_minimize a 100 st = Eigensolver.exact_linmin a 100 st2
       /\ Eigensolver.use_linmin st2 = true.
Proof.
  cbv zeta.
  set (a := Real1.call [1; 2; 3] 4 1e-4 16).
  set (st := Eigensolver.cg_update a _).
  assert (Hsel : Eigensolver.use_linmin st = false) by (vm_compute; reflexivity).
  assert (Hneg : (Eigensolver.pr_d2E (Eigensolver.approx_probe a st) <? 0) = true)
    by (vm_compute; reflexivity).
  split; [exact Hsel|]. split; [exact Hneg|].
  destruct (LineFacts.approx_newton_step_or_fallback a 100 st Hsel)
    as (_ & _ & H).
  rewrite Hneg in H. destruct H as (st2 & H1 & H2 & _).
  exists st2. split; assumption.
Defined.

(** Witness of [strategy_for_next_iteration]: the first iteration on
    [diag(1, 2, 3)]. *)
Lemma strategy_for_next_iteration_witness :
  let a := Real1.call [1; 2; 3] 4 1e-4 0 in
  exists st' : Eigensolver.state,
    Eigensolver.body a 100
      (Eigensolver.setup a
         (Eigensolver.entry a 0%Z (Real1.blocks [1; 1; 1]) [7]))
    = Eigensolver.Continue st'
    /\ (Eigensolver.use_linmin st' = false <-> Stated.approximate_next a st').
Proof.
  cbv zeta.
  set (a := Real1.call [1; 2; 3] 4 1e-4 0).
  set (st := Eigensolver.setup a _).
  destruct (Eigensolver.body a 100 st) as [s|st'|e s|] eqn:Hbody;
    try (exfalso; vm_compute in Hbody; discriminate).
  exists st'. split; [reflexivity|].
  exact (proj1 (StrategyFacts.strategy_for_next_iteration a 100 st st' Hbody)).
Defined.

(** Witness of [polak_ribiere_fused_pass]: the first iteration on
    [diag(1, 2, 3)] with four workspaces. *)
Lemma polak_ribiere_fused_pass_witness :
  let a := Real1.call [1; 2; 3] 4 1e-4 0 in
  let st := Eigensolver.precondition a
              (Eigensolver.gradient a
                 (Eigensolver.feedback a
                    (Eigensolver.measure_trace a
                       (Eigensolver.normalize a
                          (Eigensolver.setup a
                             (Eigensolver.entry a 0%Z
                                (Real1.blocks [1; 1; 1]) [7])))))) in
  Eigensolver.blk (Eigensolver.polak_ribiere_pass a st) Eigensolver.G
  = map2 sub (Eigensolver.blk st Eigensolver.G) (Eigensolver.blk st (HWork 3))
  /\ Eigensolver.blk (Eigensolver.polak_ribiere_pass a st) (HWork 3)
     = Eigensolver.blk st Eigensolver.G.
Proof.
  cbv zeta.
  set (a := Real1.call [1; 2; 3] 4 1e-4 0).
  set (st := Eigensolver.precondition a _).
  destruct (DirectionFacts.polak_ribiere_fused_pass a st
              ltac:(vm_compute; discriminate)
              ltac:(vm_compute; reflexivity) ltac:(vm_compute; reflexivity))
    as (_ & _ & _ & _ & _ & Hg & Hp & _).
  split; assumption.
Defined.

(** Witness of [direction_update]: the same state. *)
Lemma direction_update_witness :
  let a := Real1.call [1; 2; 3] 4 1e-4 0 in
  let st := Eigensolver.precondition a
              (Eigensolver.gradient a
                 (Eigensolver.feedback a
                    (Eigensolver.measure_trace a
                       (Eigensolver.normalize a
                          (Eigensolver.setup a
                             (Eigensolver.entry a 0%Z
                                (Real1.blocks [1; 1; 1]) [7])))))) in
  Eigensolver.blk (Eigensolver.cg_update a st) (HWork 2)
  = evectmatrix_aXpbY (Stated.gamma a st) (Eigensolver.ld a st (HWork 2)) 1.0
      (Eigensolver.ld a st Eigensolver.X)
  /\ Stated.gamma a st = 0.
Proof.
  cbv zeta.
  set (a := Real1.call [1; 2; 3] 4 1e-4 0).
  set (st := Eigensolver.precondition a _).
  destruct (DirectionFacts.direction_update a st
              ltac:(vm_compute; discriminate)
              ltac:(intros _; split; vm_compute; reflexivity))
    as (_ & Hupd & Hzero & _).
  split; [exact Hupd|]. apply Hzero. vm_compute. reflexivity.
Defined.

(** * Further properties of the code *)

(** ** Signs of binary64 products *)

(** A rounded number has the sign it was given, unless it is a NaN. *)
Lemma round_shape (s : bool) (m e : Z) (l : location) :
  binary_round_aux prec emax s m e l = S754_zero s
  \/ binary_round_aux prec emax s m e l = S754_infinity s
  \/ binary_round_aux prec emax s m e l = S754_nan
  \/ exists m' e', binary_round_aux prec emax s m e l = S754_finite s m' e'.
Proof.
  unfold binary_round_aux.
  destruct (shr_fexp prec emax m e l) as [mrs1 e1].
  destruct (shr_fexp prec emax _ e1 loc_Exact) as [mrs2 e2].
  destruct (shr_m mrs2) as [|p|p].
  - now left.
  - destruct (Z.leb e2 _).
    + right. right. right. now exists p, e2.
    + right. now left.
  - right. right. now left.
Qed.

(** A product is positive only if its factors have the same strict sign,
    and negative only if they have opposite strict signs. *)
Lemma mul_positive (x y : real) :
  (x * y >? 0) = true ->
  ((x >? 0) = true /\ (y >? 0) = true) \/ ((x <? 0) = true /\ (y <? 0) = true).
Proof.
  unfold gtb. rewrite !ltb_spec, mul_spec. unfold SF64mul.
  change (Prim2SF 0) with (S754_zero false).
  destruct (Prim2SF x) as [sx|sx| |sx mx ex], (Prim2SF y) as [sy|sy| |sy my ey];
    try (destruct sx, sy; simpl; intros H; try discriminate H; tauto);
    try (destruct sx; simpl; intros H; try discriminate H; tauto);
    try (destruct sy; simpl; intros H; try discriminate H; tauto);
    try (simpl; intros H; discriminate H).
  unfold SFmul.
  destruct (round_shape (xorb sx sy) (Zpos (mx * my)) (ex + ey) loc_Exact)
    as [H|[H|[H|(m' & e' & H)]]]; rewrite H;
    destruct sx, sy; simpl; intros H'; try discriminate H'; tauto.
Qed.

Lemma mul_negative (x y : real) :
  (x * y <? 0) = true ->
  ((x >? 0) = true /\ (y <? 0) = true) \/ ((x <? 0) = true /\ (y >? 0) = true).
Proof.
  unfold gtb. rewrite !ltb_spec, mul_spec. unfold SF64mul.
  change (Prim2SF 0) with (S754_zero false).
  destruct (Prim2SF x) as [sx|sx| |sx mx ex], (Prim2SF y) as [sy|sy| |sy my ey];
    try (destruct sx, sy; simpl; intros H; try discriminate H; tauto);
    try (destruct sx; simpl; intros H; try discriminate H; tauto);
    try (destruct sy; simpl; intros H; try discriminate H; tauto);
    try (simpl; intros H; discriminate H).
  unfold SFmul.
  destruct (round_shape (xorb sx sy) (Zpos (mx * my)) (ex + ey) loc_Exact)
    as [H|[H|[H|(m' & e' & H)]]]; rewrite H;
    destruct sx, sy; simpl; intros H'; try discriminate H'; tauto.
Qed.


Lemma positive_not_negative (x : real) : (x >? 0) = true -> (x <? 0) = false.
Proof.
  unfold gtb. rewrite !ltb_spec.
  change (Prim2SF 0) with (S754_zero false).
  destruct (Prim2SF x) as [sx|sx| |sx mx ex]; simpl; try discriminate;
    destruct sx; simpl; try discriminate; reflexivity.
Qed.

Lemma negative_not_positive (x : real) : (x <? 0) = true -> (x >? 0) = false.
Proof.
  unfold gtb. rewrite !ltb_spec.
  change (Prim2SF 0) with (S754_zero false).
  destruct (Prim2SF x) as [sx|sx| |sx mx ex]; simpl; try discriminate;
    destruct sx; simpl; try discriminate; reflexivity.
Qed.

Lemma opp_involutive (x : real) : - - x = x.
Proof.
  apply Prim2SF_inj. rewrite !opp_spec.
  destruct (Prim2SF x) as [sx|sx| |sx mx ex]; simpl; try reflexivity;
    now rewrite negb_involutive.
Qed.

(** [y - y] is a zero or a NaN. *)
Lemma sub_diag_not_positive (y : real) : (y - y >? 0) = false.
Proof.
  unfold gtb. rewrite ltb_spec, sub_spec. unfold SF64sub.
  change (Prim2SF 0) with (S754_zero false).
  destruct (Prim2SF y) as [sy|sy| |sy my ey]; try (destruct sy; reflexivity);
    try reflexivity.
  unfold SFsub. rewrite Z.sub_diag. reflexivity.
Qed.

Lemma sub_diag_not_negative (y : real) : (y - y <? 0) = false.
Proof.
  rewrite ltb_spec, sub_spec. unfold SF64sub.
  change (Prim2SF 0) with (S754_zero false).
  destruct (Prim2SF y) as [sy|sy| |sy my ey]; try (destruct sy; reflexivity);
    try reflexivity.
  unfold SFsub. rewrite Z.sub_diag. reflexivity.
Qed.

Lemma mul_sub_diag_not_positive (x y : real) : (x * (y - y) >? 0) = false.
Proof.
  destruct (x * (y - y) >? 0) eqn:H; [|reflexivity].
  apply mul_positive in H. destruct H as [[_ H]|[_ H]].
  - now rewrite sub_diag_not_positive in H.
  - now rewrite sub_diag_not_negative in H.
Qed.

(** ** [linmin]: the bracket *)

Module BracketFacts.
Section BracketFacts.

Import Linmin Probe Trail.

Context {S : Type}.
Variable func : bool -> real -> S -> real * real * S.

(** A scan that stops inside the range has stopped at an abscissa where
    the derivative points away from [xmin0], one step past an abscissa
    where it does not. *)
Lemma bracket_scan_found (fuel : nat) : forall s xmin0 xmax0 dx v d sc d',
  bracket_scan func fuel s xmin0 xmax0 dx v d = Some (sc, d') ->
  (sx sc * s <=? xmax0 * s) = true ->
  (sdf sc * (sx sc - xmin0) >? 0.0) = true
  /\ ((sx sc = sx v /\ xmin2 sc = xmin2 v /\ f_xmin2 sc = f_xmin2 v
       /\ df_xmin2 sc = df_xmin2 v)
      \/ (sx sc = xmin2 sc + dx
          /\ (df_xmin2 sc * (xmin2 sc - xmin0) >? 0.0) = false)).
Proof.
  induction fuel as [|fuel IH]; intros s xmin0 xmax0 dx v d sc d' H Hin;
    simpl in H; [discriminate|].
  destruct (sx v * s <=? xmax0 * s) eqn:Hguard.
  - destruct (func true (sx v) d) as [[fx dfx] d1].
    destruct (dfx * (sx v - xmin0) >? 0.0) eqn:Hup.
    + injection H as <- <-. simpl. split; [exact Hup|]. left. now repeat split.
    + apply IH in H; [|exact Hin]. destruct H as [Hfar Hnear].
      split; [exact Hfar|]. right. simpl in Hnear.
      destruct Hnear as [(Hx & H2 & _ & Hd)|Hnear]; [|exact Hnear].
      rewrite Hx, H2, Hd. now split.
  - injection H as <- <-. congruence.
Qed.

Lemma bracket_round_found fuel s v d v' d' :
  bracket_round func fuel s v d = Some (true, v', d') ->
  (xmax v' * s <=? xmax v * s) = true
  /\ (df_xmax v' * (xmax v' - xmin v) >? 0.0) = true
  /\ (df_xmin v' * (xmin v' - xmin v) >? 0.0) = false
  /\ xmax v' = xmin v' + (x0 v - xmin v) * 2.0
  /\ x0 v' = x0 v.
Proof.
  unfold bracket_round. intros H.
  destruct (bracket_scan _ _ _ _ _ _ _ _) as [[sc d1]|] eqn:Hscan;
    [|discriminate].
  destruct (sx sc * s <=? xmax v * s) eqn:Hin; [|discriminate].
  injection H as <- <-. simpl.
  apply bracket_scan_found in Hscan; [|exact Hin].
  destruct Hscan as [Hfar Hnear]. simpl in Hnear.
  split; [exact Hin|]. split; [exact Hfar|].
  destruct Hnear as [(Hx & H2 & _ & Hd)|[Hx Hd]].
  - rewrite Hx, H2, Hd. split; [apply mul_sub_diag_not_positive|now split].
  - split; [exact Hd|now split].
Qed.

(** A round without a bracket changes [x0] and nothing else. *)
Lemma bracket_round_missed_vars fuel s v d v' d' :
  bracket_round func fuel s v d = Some (false, v', d') ->
  xmin v' = xmin v /\ f_xmin v' = f_xmin v /\ df_xmin v' = df_xmin v
  /\ xmax v' = xmax v /\ f_xmax v' = f_xmax v /\ df_xmax v' = df_xmax v
  /\ x0 v' = halve (xmin v) (x0 v).
Proof.
  unfold bracket_round. intros H.
  destruct (bracket_scan _ _ _ _ _ _ _ _) as [[sc d1]|] eqn:Hscan;
    [|discriminate].
  destruct (sx sc * s <=? xmax v * s); [discriminate|].
  injection H as <- <-. simpl. now repeat split.
Qed.

(** X7: when the bracketing loop of [linmin] leaves through its [break],
    the new [xmax] lies in the range it was given; the derivative there
    points away from the old [xmin] ([df_xmax (xmax - xmin) > 0]), while the
    derivative at the new [xmin] does not; the bracket is exactly one step
    wide, [xmax = xmin + 2 (x0 - xmin_old)]; and [x0] is the guess, halved
    towards [xmin] some number of times. *)
Theorem bracketing_finds_sign_change :
  forall (rounds fuel : nat) (s tol : real) (v : vars) (d : S)
         (v' : vars) (d' : S),
    bracket_loop func rounds fuel s tol v d = Done (true, v') d' ->
    (xmax v' * s <=? xmax v * s) = true
    /\ (df_xmax v' * (xmax v' - xmin v) >? 0.0) = true
    /\ (df_xmin v' * (xmin v' - xmin v) >? 0.0) = false
    /\ xmax v' = xmin v' + (x0 v' - xmin v) * 2.0
    /\ exists k : nat, x0 v' = halvings k (xmin v) (x0 v).
Proof.
  intros rounds. induction rounds as [|rounds IH]; intros fuel s tol v d v' d' H;
    simpl in H; [discriminate|].
  destruct (bracket_round func fuel s v d) as [[[[] v1] d1]|] eqn:Hround;
    try discriminate.
  - injection H as <- <-.
    destruct (bracket_round_found _ _ _ _ _ _ Hround) as (H1 & H2 & H3 & H4 & H5).
    rewrite H5. repeat split; try assumption. now exists 0%nat.
  - destruct (bracket_round_missed_vars _ _ _ _ _ _ Hround)
      as (Hmin & _ & _ & Hmax & _ & _ & Hx0).
    destruct (not_collapsed tol v1); [|discriminate].
    apply IH in H. rewrite Hmin, Hmax, Hx0 in H.
    destruct H as (H1 & H2 & H3 & H4 & k & Hk).
    repeat split; try assumption. now exists (Datatypes.S k).
Qed.

(** The loop leaves without a bracket only when the test on [x0] and
    [xmin] fails. *)
Lemma bracket_loop_missed (rounds : nat) : forall fuel s tol v d v' d',
  bracket_loop func rounds fuel s tol v d = Done (false, v') d' ->
  not_collapsed tol v' = false.
Proof.
  induction rounds as [|rounds IH]; intros fuel s tol v d v' d' H;
    simpl in H; [discriminate|].
  destruct (bracket_round func fuel s v d) as [[[[] v1] d1]|] eqn:Hround;
    try discriminate.
  destruct (not_collapsed tol v1) eqn:Hgo.
  - eapply IH; eassumption.
  - now injection H as <- <-.
Qed.

Lemma bracket_loop_never_fatal (rounds : nat) : forall fuel s tol v d e d',
  bracket_loop func rounds fuel s tol v d <> Fatal e d'.
Proof.
  induction rounds as [|rounds IH]; intros fuel s tol v d e d'; simpl;
    [discriminate|].
  destruct (bracket_round func fuel s v d) as [[[[] v1] d1]|]; try discriminate.
  destruct (not_collapsed tol v1); [apply IH|discriminate].
Qed.

Lemma ridder_loop_never_fatal (fuel : nat) : forall tol r d e d',
  ridder_loop func fuel tol r d <> Fatal e d'.
Proof.
  induction fuel as [|fuel IH]; intros tol r d e d'; simpl; [discriminate|].
  destruct (func true (x0 (rv r)) d) as [[f_x0 df_x0] d1].
  destruct (df_x0 =? 0); [discriminate|].
  destruct (df_xmin (rv r) =? 0); [discriminate|].
  destruct (df_xmax (rv r) =? 0); [discriminate|].
  destruct (_ <? _); [discriminate|].
  match goal with
  | |- context [func true ?x1 d1] => destruct (func true x1 d1) as [[f1 df1] d2]
  end.
  apply IH.
Qed.

(** [linmin] dies in one of its three checks, and nowhere else. *)
Lemma linmin_errors fuel j xmin_ f_xmin_ df_xmin_ xmax_ x0_ tol d e d' :
  linmin func fuel j xmin_ f_xmin_ df_xmin_ xmax_ x0_ tol d = Fatal e d' ->
  e = BadInitialGuess \/ e = GuessOutOfRange \/ e = FailedToBracket.
Proof.
  unfold linmin, bind, CHECK.
  destruct (_ <? 0.0); [|intros H; injection H as <- _; now left].
  destruct (in_range _ _ _); [|intros H; injection H as <- _; right; now left].
  match goal with
  | |- context [bracket_loop func fuel fuel ?s tol ?v d] =>
      pose proof (bracket_loop_never_fatal fuel fuel s tol v d) as Hb;
      destruct (bracket_loop func fuel fuel s tol v d) as [bv d1|e1 d1|]
  end; [|intros H; injection H as <- <-; now elim (Hb e1 d1)|discriminate].
  unfold linmin_finish, bind, CHECK.
  destruct (not_collapsed tol (snd bv));
    [|intros H; injection H as <- _; right; now right].
  match goal with
  | |- context [ridder_loop func fuel tol ?r d1] =>
      pose proof (ridder_loop_never_fatal fuel tol r d1) as Hr;
      destruct (ridder_loop func fuel tol r d1) as [r' d2|e2 d2|]
  end; [|intros H; injection H as <- <-; now elim (Hr e2 d2)|discriminate].
  destruct (func false (x0 (rv r')) d2) as [[f_x0 df_x0] d3]. discriminate.
Qed.

End BracketFacts.
End BracketFacts.

(** ** [linmin]: the evaluations of [func] *)

Module EvaluationFacts.
Section EvaluationFacts.

Import Linmin Probe Trail.

Context {S : Type}.
Variable func : bool -> real -> S -> real * real * S.

(** *** Where the bracketing evaluates *)

Lemma bracket_scan_in_range (fuel : nat) : forall s xmin0 xmax0 dx v d log r,
  bracket_scan (logged func) fuel s xmin0 xmax0 dx v (d, log) = Some r ->
  exists l, snd (snd r) = log ++ l
            /\ Forall (fun x => (x * s <=? xmax0 * s) = true) l.
Proof.
  induction fuel as [|fuel IH]; intros s xmin0 xmax0 dx v d log r H;
    simpl in H; [discriminate|].
  destruct (sx v * s <=? xmax0 * s) eqn:Hguard.
  - destruct (_ >? 0.0).
    + injection H as <-. simpl. exists [sx v]. split; [reflexivity|].
      constructor; [exact Hguard|constructor].
    + apply IH in H. destruct H as (l & -> & Hl).
      exists (sx v :: l). split; [now rewrite <- app_assoc|].
      constructor; assumption.
  - injection H as <-. exists [].
    split; [simpl; now rewrite app_nil_r|constructor].
Qed.

Lemma bracket_round_in_range fuel s v d log b v' r :
  bracket_round (logged func) fuel s v (d, log) = Some (b, v', r) ->
  (b = false -> xmax v' = xmax v)
  /\ exists l, snd r = log ++ l
               /\ Forall (fun x => (x * s <=? xmax v * s) = true) l.
Proof.
  unfold bracket_round. intros H.
  destruct (bracket_scan _ _ _ _ _ _ _ _) as [[sc r1]|] eqn:Hscan;
    [|discriminate].
  apply bracket_scan_in_range in Hscan. simpl in Hscan.
  destruct (sx sc * s <=? xmax v * s); injection H as <- <- <-;
    (split; [|exact Hscan]); [discriminate|reflexivity].
Qed.

(** X8: however the bracketing loop of [linmin] ends, every abscissa [x]
    at which it has evaluated [func] passed the test of its [for] loop,
    [x s <= xmax s], with the [xmax] the loop was given: the bracketing
    never evaluates past the far end of the range. *)
Theorem bracketing_stays_in_range :
  forall (rounds fuel : nat) (s tol : real) (v : vars) (d : S) (log : list real),
    holds_after
      (fun r => exists l : list real,
           snd r = log ++ l
           /\ Forall (fun x => (x * s <=? xmax v * s) = true) l)
      (bracket_loop (logged func) rounds fuel s tol v (d, log)).
Proof.
  intros rounds.
  induction rounds as [|rounds IH]; intros fuel s tol v d log; simpl; [exact I|].
  destruct (bracket_round _ _ _ _ _) as [[[b v1] [d1 log1]]|] eqn:Hround;
    [|exact I].
  apply bracket_round_in_range in Hround.
  destruct Hround as (Hmax & l & Hlog & Hl). simpl in Hlog. subst log1.
  destruct b; [now exists l|].
  destruct (not_collapsed tol v1); [|now exists l].
  specialize (IH fuel s tol v1 d1 (log ++ l)).
  rewrite (Hmax eq_refl) in IH.
  destruct (bracket_loop _ _ _ _ _ _ _) as [bv r|e r|]; simpl in *; trivial;
    destruct IH as (l' & -> & Hl'); exists (l ++ l');
    (split; [now rewrite app_assoc|now apply Forall_app]).
Qed.

(** *** How [linmin] calls [func] *)

Lemma bracket_scan_trace (fuel : nat) : forall s xmin0 xmax0 dx v d log sc r,
  bracket_scan (traced func) fuel s xmin0 xmax0 dx v (d, log) = Some (sc, r) ->
  exists l, snd r = log ++ l /\ Forall (fun c => fst c = true) l
            /\ ((sx sc * s <=? xmax0 * s) = true -> l <> []).
Proof.
  induction fuel as [|fuel IH]; intros s xmin0 xmax0 dx v d log sc r H;
    simpl in H; [discriminate|].
  destruct (sx v * s <=? xmax0 * s) eqn:Hguard.
  - destruct (_ >? 0.0).
    + injection H as <- <-. simpl. exists [(true, sx v)].
      split; [reflexivity|]. split; [now repeat constructor|discriminate].
    + apply IH in H. destruct H as (l & -> & Hl & _).
      exists ((true, sx v) :: l). split; [now rewrite <- app_assoc|].
      split; [now constructor|discriminate].
  - injection H as <- <-. exists []. split; [simpl; now rewrite app_nil_r|].
    split; [constructor|congruence].
Qed.

Lemma bracket_round_trace fuel s v d log b v' r :
  bracket_round (traced func) fuel s v (d, log) = Some (b, v', r) ->
  exists l, snd r = log ++ l /\ Forall (fun c => fst c = true) l
            /\ (b = true -> l <> []).
Proof.
  unfold bracket_round. intros H.
  destruct (bracket_scan _ _ _ _ _ _ _ _) as [[sc r1]|] eqn:Hscan;
    [|discriminate].
  apply bracket_scan_trace in Hscan. destruct Hscan as (l & Hlog & Hl & Hne).
  exists l.
  destruct (sx sc * s <=? xmax v * s); injection H as <- <- <-;
    (split; [exact Hlog|split; [exact Hl|]]);
    [intros _; now apply Hne|discriminate].
Qed.

Lemma bracket_loop_trace (rounds : nat) : forall fuel s tol v d log b v' r,
  bracket_loop (traced func) rounds fuel s tol v (d, log) = Done (b, v') r ->
  exists l, snd r = log ++ l /\ Forall (fun c => fst c = true) l
            /\ (b = true -> l <> []).
Proof.
  induction rounds as [|rounds IH]; intros fuel s tol v d log b v' r H;
    simpl in H; [discriminate|].
  destruct (bracket_round _ _ _ _ _) as [[[b1 v1] [d1 log1]]|] eqn:Hround;
    [|discriminate].
  apply bracket_round_trace in Hround.
  destruct Hround as (l & Hlog & Hl & Hne). simpl in Hlog. subst log1.
  destruct b1.
  - injection H as <- <- <-. now exists l.
  - destruct (not_collapsed tol v1).
    + apply IH in H. destruct H as (l' & -> & Hl' & Hne').
      exists (l ++ l'). split; [now rewrite app_assoc|].
      split; [now apply Forall_app|].
      intros Hb Hnil. apply app_eq_nil in Hnil. now apply (Hne' Hb).
    + injection H as <- <- <-. now exists l.
Qed.

Lemma ridder_loop_trace (fuel : nat) : forall tol r d log r' dl,
  ridder_loop (traced func) fuel tol r (d, log) = Done r' dl ->
  exists l, snd dl = log ++ l /\ Forall (fun c => fst c = true) l /\ l <> [].
Proof.
  induction fuel as [|fuel IH]; intros tol r d log r' dl H; simpl in H;
    [discriminate|].
  assert (Hone : exists l, log ++ [(true, x0 (rv r))] = log ++ l
                           /\ Forall (fun c : bool * real => fst c = true) l
                           /\ l <> [])
    by (exists [(true, x0 (rv r))]; split; [reflexivity|];
        split; [now repeat constructor|discriminate]).
  destruct (_ =? 0); [now injection H as _ <-|].
  destruct (df_xmin (rv r) =? 0); [now injection H as _ <-|].
  destruct (df_xmax (rv r) =? 0); [now injection H as _ <-|].
  destruct (_ <? _); [now injection H as _ <-|].
  apply IH in H. destruct H as (l & -> & Hl & _).
  eexists (_ :: _ :: l). split; [rewrite <- !app_assoc; reflexivity|].
  split; [now repeat constructor|discriminate].
Qed.

(** X6: a call of [linmin] that returns has evaluated [func] at least
    three times; it asked for the derivative in every evaluation but the
    last; and the last evaluation, without derivative, is at the abscissa it
    returns, so that [data] is left as [func] leaves it at the minimum. *)
Theorem linmin_evaluations :
  forall (fuel : nat) (j : junk) (xmin_ f_xmin_ df_xmin_ xmax_ x0_ tol : real)
         (d : S) (x improvement : real) (d' : S) (log : list (bool * real)),
    linmin (traced func) fuel j xmin_ f_xmin_ df_xmin_ xmax_ x0_ tol (d, [])
    = Done (x, improvement) (d', log) ->
    exists l : list (bool * real),
      log = l ++ [(false, x)]
      /\ Forall (fun c => fst c = true) l
      /\ (2 <= length l)%nat.
Proof.
  intros fuel j xmin_ f_xmin_ df_xmin_ xmax_ x0_ tol d x imp d' log.
  unfold linmin, bind, CHECK.
  destruct (_ <? 0.0); [|discriminate].
  destruct (in_range _ _ _); [|discriminate].
  destruct (bracket_loop _ _ _ _ _ _ _) as [[b v1] [d1 log1]|e1 r1|] eqn:Hb;
    try discriminate.
  pose proof (bracket_loop_trace _ _ _ _ _ _ _ _ _ _ Hb)
    as (l1 & Hl1 & Hw1 & Hne1).
  simpl in Hl1. subst log1.
  unfold linmin_finish, bind, CHECK. simpl snd.
  destruct (not_collapsed tol v1) eqn:Hgo; [|discriminate].
  assert (Hfound : b = true).
  { destruct b; [reflexivity|].
    apply BracketFacts.bracket_loop_missed in Hb. congruence. }
  destruct (ridder_loop _ _ _ _ _) as [r' [d2 log2]|e2 r2|] eqn:Hr;
    try discriminate.
  apply ridder_loop_trace in Hr. destruct Hr as (l2 & Hl2 & Hw2 & Hne2).
  simpl in Hl2. subst log2.
  simpl. intros H. injection H as <- _ _ <-.
  exists (l1 ++ l2). split; [reflexivity|].
  split; [now apply Forall_app|].
  rewrite length_app.
  specialize (Hne1 Hfound).
  destruct l1; [contradiction|]. destruct l2; [contradiction|]. simpl. lia.
Qed.

(** *** The locals of [linmin] that start without a value *)

Lemma bracket_scan_junk (fuel : nat) :
  forall s xmin0 xmax0 dx x1 jf jdf jf' jdf' a1 a2 a3 d,
    match bracket_scan func fuel s xmin0 xmax0 dx (mkScan x1 jf jdf a1 a2 a3) d,
          bracket_scan func fuel s xmin0 xmax0 dx (mkScan x1 jf' jdf' a1 a2 a3) d
    with
    | Some (sc, d1), Some (sc', d1') =>
        d1 = d1' /\ sx sc = sx sc' /\ xmin2 sc = xmin2 sc'
        /\ f_xmin2 sc = f_xmin2 sc' /\ df_xmin2 sc = df_xmin2 sc'
        /\ ((sx sc * s <=? xmax0 * s) = true -> sc = sc')
    | None, None => True
    | _, _ => False
    end.
Proof.
  intros s xmin0 xmax0 dx x1 jf jdf jf' jdf' a1 a2 a3 d.
  destruct fuel as [|fuel]; simpl; [exact I|].
  destruct (x1 * s <=? xmax0 * s) eqn:Hguard.
  - destruct (func true x1 d) as [[fx dfx] d1].
    destruct (_ >? 0.0).
    + now repeat split.
    + destruct (bracket_scan func fuel s xmin0 xmax0 dx _ d1) as [[sc d2]|];
        [now repeat split|exact I].
  - simpl. repeat split; try reflexivity. congruence.
Qed.

Lemma bracket_round_junk fuel s v w d :
  xmin v = xmin w -> f_xmin v = f_xmin w -> df_xmin v = df_xmin w ->
  xmax v = xmax w -> x0 v = x0 w ->
  match bracket_round func fuel s v d, bracket_round func fuel s w d with
  | Some (true, v', d1), Some (true, w', d1') => d1 = d1' /\ v' = w'
  | Some (false, v', d1), Some (false, w', d1') =>
      d1 = d1' /\ xmin v' = xmin w' /\ f_xmin v' = f_xmin w'
      /\ df_xmin v' = df_xmin w' /\ xmax v' = xmax w' /\ x0 v' = x0 w'
  | None, None => True
  | _, _ => False
  end.
Proof.
  intros H1 H2 H3 H4 H5. unfold bracket_round.
  rewrite <- H1, <- H2, <- H3, <- H4, <- H5.
  pose proof (bracket_scan_junk fuel s (xmin v) (xmax v) ((x0 v - xmin v) * 2.0)
                (xmin v + (x0 v - xmin v) * 2.0) (f v) (df v) (f w) (df w)
                (xmin v) (f_xmin v) (df_xmin v) d) as H.
  destruct (bracket_scan func fuel s (xmin v) (xmax v) _
              (mkScan _ (f v) (df v) _ _ _) d) as [[sc d1]|];
    destruct (bracket_scan func fuel s (xmin v) (xmax v) _
                (mkScan _ (f w) (df w) _ _ _) d) as [[sc' d1']|];
    try contradiction; [|exact I].
  destruct H as (Hd & Hx & Ha & Hb & Hc & Hin).
  rewrite <- Hx.
  destruct (sx sc * s <=? xmax v * s).
  - rewrite <- (Hin eq_refl). now split.
  - simpl. now repeat split.
Qed.

Lemma bracket_loop_junk (rounds : nat) : forall fuel s tol v w d,
  xmin v = xmin w -> f_xmin v = f_xmin w -> df_xmin v = df_xmin w ->
  xmax v = xmax w -> x0 v = x0 w ->
  match bracket_loop func rounds fuel s tol v d,
        bracket_loop func rounds fuel s tol w d with
  | Done (true, v') d1, Done (true, w') d1' => d1 = d1' /\ v' = w'
  | Done (false, v') d1, Done (false, w') d1' =>
      d1 = d1' /\ not_collapsed tol v' = false /\ not_collapsed tol w' = false
  | Timeout, Timeout => True
  | _, _ => False
  end.
Proof.
  induction rounds as [|rounds IH]; intros fuel s tol v w d H1 H2 H3 H4 H5;
    simpl; [exact I|].
  pose proof (bracket_round_junk fuel s v w d H1 H2 H3 H4 H5) as H.
  destruct (bracket_round func fuel s v d) as [[[[] v1] d1]|];
    destruct (bracket_round func fuel s w d) as [[[[] w1] d1']|];
    try contradiction; try exact H; try exact I.
  destruct H as (<- & G1 & G2 & G3 & G4 & G5).
  rewrite (LinminFacts.not_collapsed_fields tol v1 w1 G5 G1).
  destruct (not_collapsed tol w1) eqn:Hgo.
  - now apply IH.
  - split; [reflexivity|]. split; [|exact Hgo].
    now rewrite (LinminFacts.not_collapsed_fields tol v1 w1 G5 G1).
Qed.

Lemma ridder_loop_junk fuel tol v xp js js' d :
  ridder_loop func fuel tol (mkRidder v xp true js) d
  = ridder_loop func fuel tol (mkRidder v xp true js') d.
Proof. destruct fuel; reflexivity. Qed.

(** X5: [linmin] never reads one of its locals before it has assigned it:
    whatever the stack holds where [f], [df], [x], [f_xmax], [df_xmax] and
    [f_xstart] are allocated, the result (the abscissa, the improvement, the
    fatal error) and the state behind [data] are the same. *)
Theorem linmin_reads_no_junk :
  forall (fuel : nat) (j j' : junk)
         (xmin_ f_xmin_ df_xmin_ xmax_ x0_ tol : real) (d : S),
    linmin func fuel j xmin_ f_xmin_ df_xmin_ xmax_ x0_ tol d
    = linmin func fuel j' xmin_ f_xmin_ df_xmin_ xmax_ x0_ tol d.
Proof.
  intros fuel j j' xmin_ f_xmin_ df_xmin_ xmax_ x0_ tol d.
  unfold linmin, bind, CHECK.
  destruct (_ <? 0.0); [|reflexivity].
  destruct (in_range _ _ _); [|reflexivity].
  match goal with
  | |- match bracket_loop func fuel fuel ?s tol ?v d with _ => _ end
       = match bracket_loop func fuel fuel ?s tol ?w d with _ => _ end =>
      pose proof (bracket_loop_junk fuel fuel s tol v w d
                    eq_refl eq_refl eq_refl eq_refl eq_refl) as H;
      destruct (bracket_loop func fuel fuel s tol v d) as [[[] v1] d1|e1 d1|];
      destruct (bracket_loop func fuel fuel s tol w d) as [[[] w1] d1'|e1' d1'|]
  end; try contradiction; try reflexivity.
  - destruct H as [<- <-]. unfold linmin_finish, bind, CHECK. simpl snd.
    destruct (not_collapsed tol v1); [|reflexivity].
    now rewrite (ridder_loop_junk fuel tol _ _ (j_f_xstart j) (j_f_xstart j')).
  - destruct H as (<- & Hv & Hw). unfold linmin_finish, bind, CHECK. simpl snd.
    now rewrite Hv, Hw.
Qed.

End EvaluationFacts.
End EvaluationFacts.

(** ** The driver: what every phase keeps

    [R] relates the state before a piece of code to the state after it.
    The hypotheses list the writes [R] has to put up with: the assignments
    to the locals, to the cells of [Y] and of the workspaces the driver
    names, to the square matrices, and the lines that are printed. *)

Module Keeps.
Section Keeps.
Context {P : Primitives}.
Import Eigensolver.
Variable a : args.

Variable R : state -> state -> Prop.
Variable printable : message -> Prop.
Hypothesis R_refl : forall s, R s s.
Hypothesis R_trans : forall s1 s2 s3, R s1 s2 -> R s2 s3 -> R s1 s3.
Hypothesis R_env : forall s v, R s (set_env s v).
Hypothesis R_blk : forall s h v,
  h = HY \/ h = G \/ h = X \/ h = D a \/ h = prev_G a -> R s (st_blk s h v).
Hypothesis R_sq : forall s m v, R s (st_sq s m v).
Hypothesis printable_verbose :
  flag a EIGS_VERBOSE = true -> forall m, printable m.
Hypothesis printable_quiet : forall m, quiet_line m -> printable m.
Hypothesis R_stdout : forall s l,
  Forall printable l -> R s (set_stdout s (stdout s ++ l)).
Hypothesis R_use_linmin : forall s v, R s (set_use_linmin s v).
Hypothesis R_E : forall s v, R s (set_E s v).
Hypothesis R_prev_E : forall s v, R s (set_prev_E s v).
Hypothesis R_traceGtX : forall s v, R s (set_traceGtX s v).
Hypothesis R_prev_traceGtX : forall s v, R s (set_prev_traceGtX s v).
Hypothesis R_theta : forall s v, R s (set_theta s v).
Hypothesis R_prev_theta : forall s v, R s (set_prev_theta s v).
Hypothesis R_prev_feedback_time : forall s v, R s (set_prev_feedback_time s v).
Hypothesis R_time_AZ : forall s v, R s (set_time_AZ s v).
Hypothesis R_time_KZ : K a <> None -> forall s v, R s (set_time_KZ s v).
Hypothesis R_time_ZtZ : forall s v, R s (set_time_ZtZ s v).
Hypothesis R_time_ZtW : forall s v, R s (set_time_ZtW s v).
Hypothesis R_time_ZS : forall s v, R s (set_time_ZS s v).
Hypothesis R_time_linmin : forall s v, R s (set_time_linmin s v).
Hypothesis R_linmin_improvement : forall s v, R s (set_linmin_improvement s v).
Hypothesis R_eigenvals : forall s v, R s (set_eigenvals s v).
Hypothesis R_iteration : forall s v, R s (set_iteration s v).

Lemma XtX_keeps u x s : R s (XtX a u x s).
Proof. apply R_sq. Qed.
Lemma XtY_keeps u x y s : R s (XtY a u x y s).
Proof. apply R_sq. Qed.
Lemma sq_copy_keeps m b s : R s (sq_copy a m b s).
Proof. apply R_sq. Qed.
Lemma invert_keeps m s : R s (invert a m s).
Proof. apply R_sq. Qed.
Lemma AeBC_keeps m b bd c cd s : R s (AeBC a m b bd c cd s).
Proof. apply R_sq. Qed.
Lemma ApaBC_keeps m r b bd c cd s : R s (ApaBC a m r b bd c cd s).
Proof. apply R_sq. Qed.
Lemma aApbB_keeps r m t b s : R s (aApbB a r m t b s).
Proof. apply R_sq. Qed.
Lemma ApaB_keeps m r b s : R s (ApaB a m r b s).
Proof. apply R_sq. Qed.
Lemma symmetrize_keeps m b s : R s (symmetrize a m b s).
Proof. apply R_sq. Qed.
Lemma printf_keeps m s : printable m -> R s (printf m s).
Proof. intros H. apply R_stdout. now repeat constructor. Qed.
Lemma clock_keeps s : R s (snd (clock s)).
Proof. apply R_env. Qed.


Lemma XeYS_keeps s0 : R s0 (XeYS a G X U true s0).
Proof. apply R_blk. tauto. Qed.
Lemma XpaYS_G_keeps c s0 m : R s0 (XpaYS a G c HY m s0).
Proof. apply R_blk. tauto. Qed.
Lemma XpaYS_X_keeps c s0 m : R s0 (XpaYS a X c HY m s0).
Proof. apply R_blk. tauto. Qed.
Lemma aXpbY_D_keeps c b s0 : R s0 (aXpbY a c (D a) b X s0).
Proof. apply R_blk. tauto. Qed.
Lemma aXpbY_Y_keeps c b s0 : R s0 (aXpbY a c HY b (D a) s0).
Proof. apply R_blk. tauto. Qed.
Lemma copy_keeps s0 : R s0 (copy a X G s0).
Proof. apply R_blk. tauto. Qed.

Lemma call_A_keeps yin yout b work s0 :
  yout = G \/ yout = X -> work = G \/ work = X ->
  R s0 (call_A a yin yout b work s0).
Proof.
  intros Hy Hw. unfold call_A. cbv zeta.
  eapply R_trans; [|apply R_env].
  eapply R_trans; [|apply R_blk; tauto].
  apply R_blk; tauto.
Qed.

Lemma call_K_keeps k s0 : R s0 (call_K a k G X HY YtY s0).
Proof.
  unfold call_K. cbv zeta.
  eapply R_trans; [|apply R_env]. apply R_blk; tauto.
Qed.

Lemma apply_constraint_keeps s0 : R s0 (apply_constraint a s0).
Proof.
  unfold apply_constraint. destruct (constraint a); [|apply R_refl].
  cbv zeta. eapply R_trans; [|apply R_env]. apply R_blk; tauto.
Qed.

Lemma TIME_OP_keeps (set_t : state -> real -> state) (op : state -> state) s0 :
  (forall s v, R s (set_t s v)) -> (forall s, R s (op s)) ->
  R s0 (TIME_OP set_t op s0).
Proof.
  intros Hset Hop. unfold TIME_OP. cbv zeta.
  eapply R_trans; [|apply Hset].
  eapply R_trans; [|apply clock_keeps].
  eapply R_trans; [|apply Hop].
  apply clock_keeps.
Qed.

Lemma normalize_keeps s0 : R s0 (normalize a s0).
Proof.
  unfold normalize. cbv zeta.
  eapply R_trans; [|apply invert_keeps].
  eapply R_trans; [|apply sq_copy_keeps].
  eapply R_trans; [|apply R_sq].
  eapply R_trans; [|apply R_blk; tauto].
  eapply R_trans; [|apply TIME_OP_keeps; [apply R_time_ZtZ|intros; apply XtX_keeps]].
  destruct (flag a EIGS_FORCE_APPROX_LINMIN); [apply R_use_linmin|apply R_refl].
Qed.

Lemma measure_trace_keeps s0 : R s0 (measure_trace a s0).
Proof.
  unfold measure_trace. cbv zeta.
  eapply R_trans; [|apply R_E].
  eapply R_trans; [|apply TIME_OP_keeps; [apply R_time_ZtW|intros; apply XtY_keeps]].
  eapply R_trans; [|apply TIME_OP_keeps; [apply R_time_ZS|intros; apply XeYS_keeps]].
  apply TIME_OP_keeps; [apply R_time_AZ|intros; apply call_A_keeps; tauto].
Qed.

Lemma feedback_keeps s0 : R s0 (feedback a s0).
Proof.
  assert (Hreport : forall s n t c,
             R s (set_prev_feedback_time
                    (snd (clock (printf (MsgIteration n t c) s)))
                    (fst (clock (printf (MsgIteration n t c) s))))).
  { intros s n t c. eapply R_trans; [|apply R_prev_feedback_time].
    eapply R_trans; [|apply clock_keeps]. apply printf_keeps.
    now apply printable_quiet. }
  unfold feedback. cbv zeta.
  destruct (flag a EIGS_VERBOSE); [apply Hreport|].
  destruct (_ >? FEEDBACK_TIME); [|apply clock_keeps].
  eapply R_trans; [apply clock_keeps|apply Hreport].
Qed.

Lemma gradient_keeps s0 : R s0 (gradient a s0).
Proof.
  unfold gradient. cbv zeta.
  eapply R_trans; [|apply XpaYS_G_keeps]. apply AeBC_keeps.
Qed.

Lemma precondition_keeps s0 : R s0 (precondition a s0).
Proof.
  unfold precondition. cbv zeta.
  assert (H : R s0 (match K a with
                    | Some k => TIME_OP set_time_KZ (call_K a k G X HY YtY) s0
                    | None => copy a X G s0
                    end)).
  { destruct (K a) as [k|] eqn:HK; [|apply copy_keeps].
    apply TIME_OP_keeps; [apply R_time_KZ; discriminate|intros; apply call_K_keeps]. }
  destruct (flag a EIGS_PROJECT_PRECONDITIONING); [|exact H].
  eapply R_trans; [|apply XpaYS_X_keeps].
  eapply R_trans; [|apply AeBC_keeps].
  eapply R_trans; [|apply XtY_keeps]. exact H.
Qed.

Lemma for_loop_keeps (body : nat -> state -> state) (count start : nat) s0 :
  (forall i s, R s (body i s)) -> R s0 (for_loop count start body s0).
Proof.
  intros Hbody.
  apply (for_loop_invariant (fun _ s => R s0 s)); [apply R_refl|].
  intros i s _ Hs. eapply R_trans; [exact Hs|apply Hbody].
Qed.

Lemma polak_ribiere_pass_keeps s0 : R s0 (polak_ribiere_pass a s0).
Proof.
  apply for_loop_keeps. intros i s. unfold polak_ribiere_step. cbv zeta.
  eapply R_trans; [|apply R_blk; tauto]. apply R_blk; tauto.
Qed.

Lemma cg_update_keeps s0 : R s0 (cg_update a s0).
Proof.
  unfold cg_update, gamma_numerator. cbv zeta.
  destruct (usingConjugateGradient a); [|apply R_traceGtX].
  eapply R_trans; [|apply aXpbY_D_keeps].
  assert (H : R s0 (fst (if use_polak_ribiere a
                         then (polak_ribiere_pass a
                                 (set_traceGtX s0 (traceXtY a s0 G X)),
                               traceXtY a
                                 (polak_ribiere_pass a
                                    (set_traceGtX s0 (traceXtY a s0 G X))) G X)
                         else (set_traceGtX s0 (traceXtY a s0 G X),
                               traceGtX (set_traceGtX s0 (traceXtY a s0 G X)))))).
  { destruct (use_polak_ribiere a); simpl fst; [|apply R_traceGtX].
    eapply R_trans; [apply R_traceGtX|apply polak_ribiere_pass_keeps]. }
  destruct (flag a EIGS_VERBOSE) eqn:Hv;
    [|rewrite andb_false_r; exact H].
  destruct (_ && true); [|exact H].
  eapply R_trans; [exact H|apply printf_keeps; now apply printable_verbose].
Qed.


Lemma approx_probe_keeps s0 : R s0 (pr_state (approx_probe a s0)).
Proof.
  unfold approx_probe. cbv zeta. simpl pr_state.
  eapply R_trans; [|apply R_theta].
  eapply R_trans; [|apply XtY_keeps].
  eapply R_trans; [|apply call_A_keeps; tauto].
  eapply R_trans; [|apply invert_keeps].
  eapply R_trans; [|apply XtX_keeps].
  apply aXpbY_Y_keeps.
Qed.

Lemma approx_linmin_keeps s0 : R s0 (approx_linmin a s0).
Proof.
  pose proof (approx_probe_keeps s0) as H.
  unfold approx_linmin. cbv zeta.
  revert H. generalize (approx_probe a s0). intros pr H.
  destruct (approx_rejected pr).
  - eapply R_trans; [|apply aXpbY_Y_keeps].
    eapply R_trans; [|apply R_use_linmin].
    eapply R_trans; [|apply printf_keeps; now apply printable_quiet].
    destruct (flag a EIGS_VERBOSE) eqn:Hv; [|exact H].
    eapply R_trans; [exact H|apply printf_keeps; now apply printable_verbose].
  - eapply R_trans; [exact H|apply aXpbY_Y_keeps].
Qed.

Lemma trace_func_keeps d want th s0 : R s0 (snd (trace_func a d want th s0)).
Proof.
  unfold trace_func. cbv zeta.
  destruct want; simpl snd;
    repeat (eapply R_trans;
            [|first [apply sq_copy_keeps | apply aApbB_keeps | apply ApaB_keeps
                    | apply invert_keeps | apply AeBC_keeps]]);
    first [apply sq_copy_keeps | apply R_refl].
Qed.

Lemma exact_slope_keeps s0 : R s0 (sl_state (exact_slope a s0)).
Proof.
  unfold exact_slope. cbv zeta. simpl sl_state.
  repeat (eapply R_trans;
          [|first [apply sq_copy_keeps | apply ApaBC_keeps | apply AeBC_keeps
                  | apply symmetrize_keeps | apply XtY_keeps | apply XtX_keeps]]).
  apply call_A_keeps.
  - tauto.
  - tauto.
Qed.

Lemma exact_prepare_keeps s0 : R s0 (exact_prepare a s0).
Proof.
  pose proof (exact_slope_keeps s0) as H.
  unfold exact_prepare. cbv zeta.
  revert H. generalize (exact_slope a s0). intros sl H.
  eapply R_trans; [|apply AeBC_keeps].
  eapply R_trans; [|apply R_theta].
  eapply R_trans; [exact H|apply R_stdout].
  destruct (flag a EIGS_VERBOSE) eqn:Hv.
  - apply Forall_forall. intros m _. now apply printable_verbose.
  - rewrite (LineFacts.exact_theta_silent a _ _ _ _ _ Hv). constructor.
Qed.

Lemma exact_linmin_keeps fuel s0 :
  holds_after (R s0) (exact_linmin a fuel s0).
Proof.
  pose proof (exact_prepare_keeps s0) as Hp.
  unfold exact_linmin. cbv zeta.
  revert Hp. generalize (exact_prepare a s0). generalize (exact_slope a s0).
  intros sl st1 H1.
  assert (H2 : R s0 (snd (clock st1)))
    by (eapply R_trans; [exact H1|apply clock_keeps]).
  revert H2. generalize (clock st1). intros c0 H2.
  match goal with
  | |- context [Linmin.linmin ?f ?fu ?j ?x1 ?x2 ?x3 ?x4 ?x5 ?x6 ?d] =>
      pose proof (LinminFrame.linmin_keeps f (R s0)
                    (fun want0 y0 z0 H0 =>
                       R_trans _ _ _ H0 (trace_func_keeps _ want0 y0 z0))
                    fu j x1 x2 x3 x4 x5 x6 d H2) as H;
      destruct (Linmin.linmin f fu j x1 x2 x3 x4 x5 x6 d) as [[th imp] s|e s|]
  end.
  - unfold holds_after in *.
    eapply R_trans; [|apply aXpbY_Y_keeps].
    eapply R_trans; [|apply R_time_linmin].
    eapply R_trans; [|apply clock_keeps].
    eapply R_trans; [|apply R_theta].
    eapply R_trans; [exact H|apply R_linmin_improvement].
  - exact H.
  - exact I.
Qed.

Lemma line_minimize_keeps fuel s0 :
  holds_after (R s0) (line_minimize a fuel s0).
Proof.
  unfold line_minimize. cbv zeta.
  assert (H : R s0 (if negb (use_linmin s0) then approx_linmin a s0 else s0))
    by (destruct (negb _); [apply approx_linmin_keeps|apply R_refl]).
  revert H. generalize (if negb (use_linmin s0) then approx_linmin a s0 else s0).
  intros s1 H.
  destruct (use_linmin s1); [|exact H].
  pose proof (exact_linmin_keeps fuel s1) as H'.
  destruct (exact_linmin a fuel s1); simpl in *; trivial;
    eapply R_trans; eassumption.
Qed.

Lemma record_iteration_keeps s0 : R s0 (record_iteration a s0).
Proof.
  unfold record_iteration. cbv zeta.
  eapply R_trans; [|apply R_prev_E].
  eapply R_trans; [|apply R_prev_theta].
  eapply R_trans; [|apply R_prev_traceGtX].
  apply apply_constraint_keeps.
Qed.

Lemma choose_strategy_keeps s0 : R s0 (choose_strategy a s0).
Proof.
  unfold choose_strategy.
  destruct (approximate_test a s0); cbv zeta;
    (eapply R_trans; [|apply R_use_linmin]);
    (destruct (flag a EIGS_VERBOSE) eqn:Hv; cbv beta iota delta [andb];
     [|apply R_refl]);
    match goal with |- context [if ?c then printf _ _ else _] => destruct c end;
    first [apply printf_keeps; now apply printable_verbose | apply R_refl].
Qed.

(** What an execution of the loop body keeps. *)
Lemma body_keeps fuel s0 :
  match body a fuel s0 with
  | Break s | Continue s | Abort _ s => R s0 s
  | Stuck => True
  end.
Proof.
  unfold body. cbv zeta.
  assert (H1 : R s0 (measure_trace a (normalize a s0)))
    by (eapply R_trans; [apply normalize_keeps|apply measure_trace_keeps]).
  revert H1. generalize (measure_trace a (normalize a s0)). intros s1 H1.
  destruct (BADNUM _); [exact H1|].
  destruct (converged a s1); [exact H1|].
  assert (H2 : R s0 (cg_update a (precondition a (gradient a (feedback a s1))))).
  { eapply R_trans; [|apply cg_update_keeps].
    eapply R_trans; [|apply precondition_keeps].
    eapply R_trans; [|apply gradient_keeps].
    eapply R_trans; [exact H1|apply feedback_keeps]. }
  revert H2.
  generalize (cg_update a (precondition a (gradient a (feedback a s1)))).
  intros s2 H2.
  pose proof (line_minimize_keeps fuel s2) as H3.
  destruct (line_minimize a fuel s2) as [u s|e s|]; simpl in *; trivial.
  - eapply R_trans; [|apply choose_strategy_keeps].
    eapply R_trans; [|apply record_iteration_keeps].
    eapply R_trans; eassumption.
  - eapply R_trans; eassumption.
Qed.

Lemma iterate_keeps fuel (k : nat) : forall s0 s,
  iterate a fuel k s0 = Some s -> R s0 s.
Proof.
  induction k as [|k IH]; intros s0 s H; simpl in H.
  - injection H as <-. apply R_refl.
  - destruct (iterate a fuel k s0) as [s1|] eqn:Hk; [|discriminate].
    pose proof (body_keeps fuel s1) as Hb.
    destruct (body a fuel s1) as [|s2| |]; try discriminate.
    injection H as <-.
    eapply R_trans; [apply (IH _ _ Hk)|].
    eapply R_trans; [exact Hb|apply R_iteration].
Qed.

Lemma loop_keeps fuel (budget : nat) : forall s0,
  holds_after (R s0) (loop a budget fuel s0).
Proof.
  induction budget as [|budget IH]; intros s0; [exact I|].
  change (loop a (S budget) fuel s0)
    with (match body a fuel s0 with
          | Break st' => Done tt st'
          | Continue st' =>
              if (iteration (next st') <? EIGENSOLVER_MAX_ITERATIONS)%Z
              then loop a budget fuel (next st')
              else Done tt (next st')
          | Abort e st' => Fatal e st'
          | Stuck => Timeout
          end).
  pose proof (body_keeps fuel s0) as Hb.
  destruct (body a fuel s0) as [s|s|e s|]; try exact Hb.
  assert (Hn : R s0 (next s)) by (eapply R_trans; [exact Hb|apply R_iteration]).
  destruct (_ <? EIGENSOLVER_MAX_ITERATIONS)%Z; [|exact Hn].
  specialize (IH (next s)).
  destruct (loop a budget fuel (next s)); unfold holds_after in *; trivial;
    eapply R_trans; eassumption.
Qed.

Lemma setup_keeps s0 : R s0 (setup a s0).
Proof.
  unfold setup. cbv zeta.
  eapply R_trans; [|apply apply_constraint_keeps].
  eapply R_trans; [|apply for_loop_keeps; intros i s; apply R_eigenvals].
  assert (Hz : forall h count s,
             h = D a \/ h = prev_G a -> R s (zero_fill h count s)).
  { intros h count s Hh. apply for_loop_keeps. intros i s'. apply R_blk. tauto. }
  match goal with
  | |- R s0 (fold_left ?f ?l ?s1) =>
      assert (H12 : R s0 s1); [|revert H12; generalize s1; intros s1' H12]
  end.
  { eapply R_trans; [|destruct (use_polak_ribiere a);
                      [apply Hz; tauto|apply R_refl]].
    destruct (usingConjugateGradient a); [apply Hz; tauto|apply R_refl]. }
  simpl fold_left.
  repeat (eapply R_trans; [|apply R_sq]). exact H12.
Qed.

Lemma extract_keeps s0 : R s0 (extract a s0).
Proof.
  unfold extract. cbv zeta.
  eapply R_trans; [|apply R_env].
  eapply R_trans; [|apply R_eigenvals].
  repeat (eapply R_trans; [|apply R_sq]).
  repeat (eapply R_trans; [|apply R_blk; tauto]).
  eapply R_trans; [|apply invert_keeps]. apply XtX_keeps.
Qed.

(** What a call of [eigensolver] keeps, however it ends. *)
Lemma eigensolver_keeps budget fuel w blocks ev :
  holds_after (R (entry a w blocks ev)) (eigensolver a budget fuel w blocks ev).
Proof.
  unfold eigensolver. cbv zeta.
  destruct (2 <=? nWork a)%Z; [|apply R_refl].
  pose proof (setup_keeps (entry a w blocks ev)) as Hs.
  pose proof (loop_keeps fuel budget (setup a (entry a w blocks ev))) as Hl.
  destruct (loop a budget fuel _) as [u s|e s|]; unfold holds_after in *; trivial.
  - destruct (_ <? _)%Z.
    + eapply R_trans; [|apply extract_keeps]. eapply R_trans; eassumption.
    + eapply R_trans; eassumption.
  - eapply R_trans; eassumption.
Qed.

End Keeps.
End Keeps.

(** ** The driver: memory, locals and output that a call leaves alone *)

Module FrameFacts.
Section FrameFacts.
Context {P : Primitives}.
Import Eigensolver.
Variable a : args.

Lemma unused_handle (i : nat) (h : handle) :
  (2 <= i)%nat -> (4 <= i)%nat \/ (nWork a <= Z.of_nat i)%Z ->
  h = HY \/ h = G \/ h = X \/ h = D a \/ h = prev_G a ->
  handle_eqb (HWork i) h = false.
Proof.
  intros H2 H4 Hh.
  destruct (handle_eqb (HWork i) h) eqn:Heq; [|reflexivity].
  apply handle_eqb_eq in Heq. subst h. exfalso.
  unfold D, prev_G, usingConjugateGradient, use_polak_ribiere, G, X in Hh.
  destruct (Z.leb_spec 3 (nWork a)), (Z.leb_spec 4 (nWork a));
    destruct Hh as [Hh|[Hh|[Hh|[Hh|Hh]]]]; try discriminate Hh;
    injection Hh as Hh; lia.
Qed.

(** X11: [eigensolver] writes no workspace it has no use for: however a
    call ends, [Work[i]] holds what the caller passed, for every [i] from 4
    on and for every [i >= 2] from [nWork] on (so [Work[2]] with two
    workspaces, [Work[3]] with three). *)
Theorem unused_workspace_untouched :
  forall (budget fuel : nat) (w : world) (blocks : handle -> list scalar)
         (ev : list real) (i : nat),
    (2 <= i)%nat -> (4 <= i)%nat \/ (nWork a <= Z.of_nat i)%Z ->
    holds_after (fun s => blk s (HWork i) = blocks (HWork i))
                (eigensolver a budget fuel w blocks ev).
Proof.
  intros budget fuel w blocks ev i H2 H4.
  apply (Keeps.eigensolver_keeps a
           (fun s s' => blk s' (HWork i) = blk s (HWork i)) (fun _ => True));
    try (intros; reflexivity); try (intros; exact I).
  - intros s1 s2 s3 H12 H23. congruence.
  - intros s h v Hh. simpl. unfold upd. now rewrite (unused_handle i h H2 H4 Hh).
Qed.

(** X12: without a preconditioner ([K] is NULL) nothing ever assigns the
    local [time_KZ]: at the start of every iteration and when the call ends
    it still holds what the stack held at entry, and that is the value the
    estimates [t_exact] and [t_approx] of the strategy controller read. *)
Theorem preconditioner_time_never_assigned :
  forall (budget fuel : nat) (w : world) (blocks : handle -> list scalar)
         (ev : list real),
    K a = None ->
    (forall k s,
        iterate a fuel k (setup a (entry a w blocks ev)) = Some s ->
        time_KZ s = u_time_KZ (garbage a))
    /\ holds_after (fun s => time_KZ s = u_time_KZ (garbage a))
                   (eigensolver a budget fuel w blocks ev).
Proof.
  intros budget fuel w blocks ev HK.
  split.
  - intros k s Hs.
    assert (H0 : time_KZ (setup a (entry a w blocks ev)) = u_time_KZ (garbage a)).
    { apply (Keeps.setup_keeps a (fun s s' => time_KZ s' = time_KZ s));
        try (intros; reflexivity).
      intros s1 s2 s3 H12 H23. congruence. }
    rewrite <- H0.
    revert Hs.
    apply (Keeps.iterate_keeps a (fun s s' => time_KZ s' = time_KZ s)
             (fun _ => True));
      try (intros; reflexivity); try (intros; exact I).
    + intros s1 s2 s3 H12 H23. congruence.
    + intros HK'. contradiction.
  - apply (Keeps.eigensolver_keeps a (fun s s' => time_KZ s' = time_KZ s)
             (fun _ => True));
      try (intros; reflexivity); try (intros; exact I).
    + intros s1 s2 s3 H12 H23. congruence.
    + intros HK'. contradiction.
Qed.

(** X13: without [EIGS_VERBOSE] a call prints nothing but progress lines
    (when the feedback clock has run for more than [FEEDBACK_TIME]) and the
    lines "dE = ..., dE2 = ..., theta = ..." of the rejected approximate
    steps, which no flag guards. *)
Theorem quiet_run_prints_two_kinds_of_lines :
  forall (budget fuel : nat) (w : world) (blocks : handle -> list scalar)
         (ev : list real),
    flag a EIGS_VERBOSE = false ->
    holds_after (fun s => Forall quiet_line (stdout s))
                (eigensolver a budget fuel w blocks ev).
Proof.
  intros budget fuel w blocks ev Hv.
  pose proof (Keeps.eigensolver_keeps a
                (fun s s' => exists l, stdout s' = stdout s ++ l
                                       /\ Forall quiet_line l)
                quiet_line) as H.
  assert (Hrun : holds_after
                   (fun s' => exists l,
                        stdout s' = stdout (entry a w blocks ev) ++ l
                        /\ Forall quiet_line l)
                   (eigensolver a budget fuel w blocks ev)).
  { apply H; clear H;
      try solve [intros; exists []; split;
                 [symmetry; apply app_nil_r|constructor]];
      try solve [rewrite Hv; discriminate];
      try solve [intros m Hm; exact Hm];
      try solve [intros s l Hl; now exists l].
    intros s1 s2 s3 (l1 & H1 & Hl1) (l2 & H2 & Hl2).
    exists (l1 ++ l2). rewrite H2, H1, app_assoc.
    split; [reflexivity|now apply Forall_app]. }
  destruct (eigensolver a budget fuel w blocks ev) as [k s|e s|];
    simpl in *; trivial; destruct Hrun as (l & -> & Hl); exact Hl.
Qed.

End FrameFacts.
End FrameFacts.

(** ** The driver: how a call ends *)

Module OutcomeFacts.
Section OutcomeFacts.
Context {P : Primitives}.
Import Eigensolver.
Variable a : args.
Variable fuel : nat.

(** The executions of the body that a loop goes through all have their
    counter below the cap. *)
Lemma loop_outcome (budget : nat) : forall st,
  (iteration st < EIGENSOLVER_MAX_ITERATIONS)%Z ->
  match loop a budget fuel st with
  | Done _ s =>
      (exists s0, (iteration st <= iteration s0 < EIGENSOLVER_MAX_ITERATIONS)%Z
                  /\ body a fuel s0 = Break s)
      \/ iteration s = EIGENSOLVER_MAX_ITERATIONS
  | Fatal e s =>
      exists s0, (iteration st <= iteration s0 < EIGENSOLVER_MAX_ITERATIONS)%Z
                 /\ body a fuel s0 = Abort e s
  | Timeout => True
  end.
Proof.
  induction budget as [|budget IH]; intros st Hit; [exact I|].
  change (loop a (S budget) fuel st)
    with (match body a fuel st with
          | Break st' => Done tt st'
          | Continue st' =>
              if (iteration (next st') <? EIGENSOLVER_MAX_ITERATIONS)%Z
              then loop a budget fuel (next st')
              else Done tt (next st')
          | Abort e st' => Fatal e st'
          | Stuck => Timeout
          end).
  pose proof (LoopFacts.body_iteration a fuel st) as Hbody.
  destruct (body a fuel st) as [s|s|e s|] eqn:Hst.
  - left. exists st. split; [lia|exact Hst].
  - pose proof (LoopFacts.next_iteration st s Hbody) as Hnext. rewrite Hnext.
    destruct (iteration st + 1 <? EIGENSOLVER_MAX_ITERATIONS)%Z eqn:Hlt.
    + apply Z.ltb_lt in Hlt.
      specialize (IH (next s)). rewrite Hnext in IH. specialize (IH Hlt).
      destruct (loop a budget fuel (next s)) as [u s1|e s1|]; [| |exact I].
      * destruct IH as [(s0 & Hs0 & Hb)|Hcap]; [left|now right].
        exists s0. split; [lia|exact Hb].
      * destruct IH as (s0 & Hs0 & Hb). exists s0. split; [lia|exact Hb].
    + apply Z.ltb_ge in Hlt. right. rewrite Hnext. lia.
  - exists st. split; [lia|exact Hst].
  - exact I.
Qed.

Lemma body_break st s :
  body a fuel st = Break s ->
  s = measure_trace a (normalize a st)
  /\ BADNUM (E s) = false /\ converged a s = true.
Proof.
  unfold body. cbv zeta.
  generalize (measure_trace a (normalize a st)). intros s1.
  destruct (BADNUM (E s1)) eqn:Hbad; [discriminate|].
  destruct (converged a s1) eqn:Hconv.
  - intros H. injection H as <-. now repeat split.
  - destruct (line_minimize a fuel _); discriminate.
Qed.

Lemma exact_linmin_errors st e s :
  exact_linmin a fuel st = Fatal e s ->
  e = BadInitialGuess \/ e = GuessOutOfRange \/ e = FailedToBracket.
Proof.
  unfold exact_linmin. cbv zeta.
  generalize (exact_prepare a st). generalize (exact_slope a st). intros sl st1.
  generalize (clock st1). intros c0.
  match goal with
  | |- context [Linmin.linmin ?f ?fu ?j ?x1 ?x2 ?x3 ?x4 ?x5 ?x6 ?d] =>
      pose proof (BracketFacts.linmin_errors f fu j x1 x2 x3 x4 x5 x6 d) as H;
      destruct (Linmin.linmin f fu j x1 x2 x3 x4 x5 x6 d) as [[th imp] s'|e' s'|]
  end; try discriminate.
  intros H'. injection H' as <- <-. now apply (H e' s').
Qed.

Lemma line_minimize_abort st e s :
  line_minimize a fuel st = Fatal e s ->
  (e = BadInitialGuess \/ e = GuessOutOfRange \/ e = FailedToBracket)
  /\ use_linmin s = true /\ E s = E st.
Proof.
  unfold line_minimize. cbv zeta.
  assert (HE : E (if negb (use_linmin st) then approx_linmin a st else st) = E st).
  { destruct (negb _); [|reflexivity].
    apply (Keeps.approx_linmin_keeps a (fun s s' => E s' = E s) (fun _ => True));
      try (intros; reflexivity); try (intros; exact I).
    intros s1 s2 s3 H12 H23. congruence. }
  revert HE. generalize (if negb (use_linmin st) then approx_linmin a st else st).
  intros s1 HE.
  destruct (use_linmin s1) eqn:Hsel; [|discriminate].
  intros H. split; [exact (exact_linmin_errors _ _ _ H)|].
  assert (Hk : holds_after
                 (fun s' => use_linmin s' = use_linmin s1 /\ E s' = E s1)
                 (exact_linmin a fuel s1)).
  { apply (Keeps.exact_linmin_keeps a
             (fun s s' => use_linmin s' = use_linmin s /\ E s' = E s)
             (fun _ => True));
      try (intros; now split); try (intros; exact I).
    intros s2 s3 s4 [? ?] [? ?]; split; congruence. }
  rewrite H in Hk. simpl in Hk. destruct Hk as [Hu He]. split; congruence.
Qed.

Lemma body_abort st e s :
  body a fuel st = Abort e s ->
  (e = CrazyNumber /\ s = measure_trace a (normalize a st)
   /\ BADNUM (E s) = true)
  \/ ((e = BadInitialGuess \/ e = GuessOutOfRange \/ e = FailedToBracket)
      /\ BADNUM (E s) = false /\ use_linmin s = true
      /\ E s = E (measure_trace a (normalize a st))).
Proof.
  unfold body. cbv zeta.
  generalize (measure_trace a (normalize a st)). intros s1.
  destruct (BADNUM (E s1)) eqn:Hbad.
  - intros H. injection H as <- <-. left. now repeat split.
  - destruct (converged a s1); [discriminate|].
    assert (HE : E (cg_update a (precondition a (gradient a (feedback a s1))))
                 = E s1).
    { assert (Ht : forall s2 s3 s4 : state, E s3 = E s2 -> E s4 = E s3 -> E s4 = E s2)
        by (intros; congruence).
      etransitivity;
        [apply (Keeps.cg_update_keeps a (fun s s' => E s' = E s) (fun _ => True));
         try (intros; reflexivity); try (intros; exact I); exact Ht|].
      etransitivity;
        [apply (Keeps.precondition_keeps a (fun s s' => E s' = E s));
         try (intros; reflexivity); try (intros; exact I); exact Ht|].
      etransitivity;
        [apply (Keeps.gradient_keeps a (fun s s' => E s' = E s));
         try (intros; reflexivity); try (intros; exact I); exact Ht|].
      apply (Keeps.feedback_keeps a (fun s s' => E s' = E s) (fun _ => True));
        try (intros; reflexivity); try (intros; exact I); exact Ht. }
    revert HE.
    generalize (cg_update a (precondition a (gradient a (feedback a s1)))).
    intros s2 HE.
    destruct (line_minimize a fuel s2) as [u s'|e' s'|] eqn:Hl; try discriminate.
    intros H. injection H as <- <-.
    apply line_minimize_abort in Hl. destruct Hl as (He & Hu & HE').
    right. repeat split; try assumption; congruence.
Qed.


Lemma run_outcome budget w blocks ev :
  match eigensolver a budget fuel w blocks ev with
  | Done k s =>
      (2 <= nWork a)%Z
      /\ exists s0 s1,
           (0 <= iteration s0 < EIGENSOLVER_MAX_ITERATIONS)%Z
           /\ body a fuel s0 = Break s1 /\ s = extract a s1 /\ k = iteration s1
  | Fatal e s =>
      ((nWork a < 2)%Z /\ e = NotEnoughWorkspace /\ s = entry a w blocks ev)
      \/ ((2 <= nWork a)%Z /\ e = FailureToConverge
          /\ iteration s = EIGENSOLVER_MAX_ITERATIONS)
      \/ ((2 <= nWork a)%Z
          /\ exists s0, (0 <= iteration s0 < EIGENSOLVER_MAX_ITERATIONS)%Z
                        /\ body a fuel s0 = Abort e s)
  | Timeout => True
  end.
Proof.
  unfold eigensolver. cbv zeta.
  destruct (Z.leb_spec 2 (nWork a)) as [Hw|Hw]; [|left; now repeat split].
  pose proof (LoopFacts.setup_iteration a w blocks ev) as H0.
  pose proof (loop_outcome budget (setup a (entry a w blocks ev))) as Hl.
  rewrite H0 in Hl. specialize (Hl ltac:(unfold EIGENSOLVER_MAX_ITERATIONS; lia)).
  destruct (loop a budget fuel _) as [u s|e s|]; [| |exact I].
  - destruct Hl as [(s0 & Hs0 & Hb)|Hcap].
    + pose proof (LoopFacts.body_iteration a fuel s0) as Hi. rewrite Hb in Hi.
      assert (Hlt : (iteration s <? EIGENSOLVER_MAX_ITERATIONS)%Z = true)
        by (apply Z.ltb_lt; lia).
      rewrite Hlt. split; [exact Hw|]. now exists s0, s.
    + assert (Hlt : (iteration s <? EIGENSOLVER_MAX_ITERATIONS)%Z = false)
        by (apply Z.ltb_ge; lia).
      rewrite Hlt. right. left. now repeat split.
  - destruct Hl as (s0 & Hs0 & Hb). right. right. split; [exact Hw|].
    now exists s0.
Qed.

(** X1: [eigensolver] returns only through the [break] of its convergence
    test: the number of iterations it reports is at least 1 (the test is
    not made in the first execution of the body) and below 10000, it is the
    value of the counter, the last trace is not a [BADNUM], and the last two
    traces satisfy the inequality of line 396. *)
Theorem returns_only_converged :
  forall (budget : nat) (w : world) (blocks : handle -> list scalar)
         (ev : list real) (k : Z) (s : state),
    eigensolver a budget fuel w blocks ev = Done k s ->
    (1 <= k < EIGENSOLVER_MAX_ITERATIONS)%Z
    /\ iteration s = k
    /\ BADNUM (E s) = false
    /\ (fabs (E s - prev_E s)
        <? tolerance a * 0.5 * (E s + prev_E s + 1e-7)) = true.
Proof.
  intros budget w blocks ev k s H.
  pose proof (run_outcome budget w blocks ev) as Hr. rewrite H in Hr.
  destruct Hr as (_ & s0 & s1 & Hs0 & Hb & -> & ->).
  pose proof (LoopFacts.body_iteration a fuel s0) as Hi. rewrite Hb in Hi.
  apply body_break in Hb. destruct Hb as (_ & Hbad & Hconv).
  unfold converged in Hconv. apply andb_true_iff in Hconv.
  destruct Hconv as [Hpos Hclose]. apply Z.ltb_lt in Hpos.
  change (iteration (extract a s1)) with (iteration s1).
  change (E (extract a s1)) with (E s1).
  change (prev_E (extract a s1)) with (prev_E s1).
  repeat split; try assumption; lia.
Qed.

(** X2: the fatal errors of [eigensolver].  With fewer than two workspaces
    the call dies at once with "not enough workspace", in the state it was
    entered in; that error has no other cause.  "failure to converge" is
    raised with the counter at 10000; "crazy number" with a trace that is a
    [BADNUM]; the three errors of [linmin] with a trace that is not, in the
    exact line minimisation ([use_linmin] set); the last four with the
    counter below 10000. *)
Theorem fatal_errors :
  forall (budget : nat) (w : world) (blocks : handle -> list scalar)
         (ev : list real),
    ((nWork a < 2)%Z ->
     eigensolver a budget fuel w blocks ev
     = Fatal NotEnoughWorkspace (entry a w blocks ev))
    /\ forall (e : error) (s : state),
         eigensolver a budget fuel w blocks ev = Fatal e s ->
         match e with
         | NotEnoughWorkspace => (nWork a < 2)%Z /\ s = entry a w blocks ev
         | FailureToConverge =>
             (2 <= nWork a)%Z /\ iteration s = EIGENSOLVER_MAX_ITERATIONS
         | CrazyNumber =>
             (2 <= nWork a)%Z /\ BADNUM (E s) = true
             /\ (0 <= iteration s < EIGENSOLVER_MAX_ITERATIONS)%Z
         | BadInitialGuess | GuessOutOfRange | FailedToBracket =>
             (2 <= nWork a)%Z /\ BADNUM (E s) = false /\ use_linmin s = true
             /\ (0 <= iteration s < EIGENSOLVER_MAX_ITERATIONS)%Z
         end.
Proof.
  intros budget w blocks ev. split.
  - intros Hw. unfold eigensolver. cbv zeta.
    now rewrite (proj2 (Z.leb_gt 2 (nWork a)) Hw).
  - intros e s H.
    pose proof (run_outcome budget w blocks ev) as Hr. rewrite H in Hr.
    destruct Hr as [(Hw & -> & ->)|[(Hw & -> & Hcap)|(Hw & s0 & Hs0 & Hb)]].
    + now split.
    + now split.
    + pose proof (LoopFacts.body_iteration a fuel s0) as Hi. rewrite Hb in Hi.
      apply body_abort in Hb.
      destruct Hb as [(-> & _ & Hbad)|([->|[->| ->]] & Hbad & Hu & _)];
        repeat split; try assumption; lia.
Qed.

End OutcomeFacts.
End OutcomeFacts.

(** ** The driver: the convergence test and the slope *)

Module TestFacts.
Section TestFacts.
Context {P : Primitives}.
Import Eigensolver.
Variable a : args.



(** X4: when the slope [dE] that the exact line minimisation computes is
    neither negative nor positive (a zero, or a NaN, as it is at a
    stationary point, where [D = 0]), the call dies in the first check of
    [linmin], "bad initial guess", whatever the guess: [trace_func] has not
    been evaluated, and the state is the one in which [linmin] was
    called. *)
Theorem stationary_slope_is_fatal :
  forall (fuel : nat) (st : state),
    (sl_dE (exact_slope a st) <? 0) = false ->
    (sl_dE (exact_slope a st) >? 0) = false ->
    exact_linmin a fuel st
    = Fatal BadInitialGuess (snd (clock (exact_prepare a st))).
Proof.
  intros fuel st Hneg Hpos. unfold exact_linmin. cbv zeta.
  revert Hneg Hpos.
  generalize (exact_prepare a st). generalize (exact_slope a st). intros sl st1.
  generalize (clock st1). intros c0 Hneg Hpos.
  unfold Linmin.linmin, bind, CHECK.
  destruct (sl_dE sl * (theta st1 - 0) <? 0.0) eqn:Hguess; [|reflexivity].
  apply mul_negative in Hguess. destruct Hguess as [[H _]|[H _]]; congruence.
Qed.

End TestFacts.
End TestFacts.

(** ** The driver: the forced exact strategy *)

Module ForcedFacts.
Section ForcedFacts.
Context {P : Primitives}.
Import Eigensolver.
Variable a : args.
Variable fuel : nat.

(** Up to the line minimisation, only the forced strategy writes
    [use_linmin]. *)
Lemma direction_keeps_strategy st :
  flag a EIGS_FORCE_APPROX_LINMIN = false ->
  use_linmin (cg_update a
                (precondition a
                   (gradient a (feedback a (measure_trace a (normalize a st))))))
  = use_linmin st.
Proof.
  intros Hf.
  assert (Ht : forall s2 s3 s4 : state,
             use_linmin s3 = use_linmin s2 -> use_linmin s4 = use_linmin s3 ->
             use_linmin s4 = use_linmin s2) by (intros; congruence).
  etransitivity;
    [apply (Keeps.cg_update_keeps a (fun s s' => use_linmin s' = use_linmin s)
              (fun _ => True));
     try (intros; reflexivity); try (intros; exact I); exact Ht|].
  etransitivity;
    [apply (Keeps.precondition_keeps a (fun s s' => use_linmin s' = use_linmin s));
     try (intros; reflexivity); try (intros; exact I); exact Ht|].
  etransitivity;
    [apply (Keeps.gradient_keeps a (fun s s' => use_linmin s' = use_linmin s));
     try (intros; reflexivity); try (intros; exact I); exact Ht|].
  etransitivity;
    [apply (Keeps.feedback_keeps a (fun s s' => use_linmin s' = use_linmin s)
              (fun _ => True));
     try (intros; reflexivity); try (intros; exact I); exact Ht|].
  etransitivity;
    [apply (Keeps.measure_trace_keeps a
              (fun s s' => use_linmin s' = use_linmin s));
     try (intros; reflexivity); try (intros; exact I); exact Ht|].
  unfold normalize. rewrite Hf. reflexivity.
Qed.

Lemma body_keeps_exact st s :
  flag a EIGS_FORCE_EXACT_LINMIN = true ->
  body a fuel st = Continue s -> use_linmin s = true.
Proof.
  intros Hx H. apply StrategyFacts.body_ends_in_choice in H.
  destruct H as [s1 ->].
  rewrite StrategyFacts.choose_strategy_selects.
  unfold approximate_test. now rewrite Hx.
Qed.

Lemma iterate_keeps_exact (k : nat) : forall st s,
  flag a EIGS_FORCE_EXACT_LINMIN = true ->
  use_linmin st = true ->
  iterate a fuel k st = Some s -> use_linmin s = true.
Proof.
  destruct k as [|k]; intros st s Hx H0 H; simpl in H.
  - now injection H as <-.
  - destruct (iterate a fuel k st) as [s1|]; [|discriminate].
    destruct (body a fuel s1) as [|s2| |] eqn:Hb; try discriminate.
    injection H as <-.
    change (use_linmin (next s2)) with (use_linmin s2).
    exact (body_keeps_exact s1 s2 Hx Hb).
Qed.

(** X14: under [EIGS_FORCE_EXACT_LINMIN], and without
    [EIGS_FORCE_APPROX_LINMIN], every iteration starts with [use_linmin]
    set and goes straight to the exact line minimisation: the approximate
    one never runs. *)
Theorem forced_exact_never_approximates :
  forall (w : world) (blocks : handle -> list scalar) (ev : list real)
         (k : nat) (s : state),
    flag a EIGS_FORCE_EXACT_LINMIN = true ->
    flag a EIGS_FORCE_APPROX_LINMIN = false ->
    iterate a fuel k (setup a (entry a w blocks ev)) = Some s ->
    let st := cg_update a
                (precondition a
                   (gradient a (feedback a (measure_trace a (normalize a s))))) in
    use_linmin s = true
    /\ line_minimize a fuel st = exact_linmin a fuel st.
Proof.
  intros w blocks ev k s Hx Hf Hs st.
  assert (H0 : use_linmin (setup a (entry a w blocks ev)) = true).
  { apply (Keeps.setup_keeps a (fun s s' => use_linmin s' = use_linmin s));
      try (intros; reflexivity).
    intros s1 s2 s3 H12 H23. congruence. }
  pose proof (iterate_keeps_exact k _ s Hx H0 Hs) as Hu.
  split; [exact Hu|].
  pose proof (direction_keeps_strategy s Hf) as Hd. fold st in Hd.
  unfold line_minimize. cbv zeta. rewrite Hd, Hu. simpl negb. cbv iota.
  now rewrite Hd, Hu.
Qed.

End ForcedFacts.
End ForcedFacts.

(** ** The driver: the probe of the approximate line minimisation *)

Module ProbeFacts.
Section ProbeFacts.
Context {P : Primitives}.
Import Eigensolver.
Variable a : args.

(** X16: the probe of the approximate line minimisation shifts [Y] by
    [t / d_norm] along [D], where [t] is [-|prev_theta|] for a negative
    slope [dE] and [|prev_theta|] otherwise (line 488): for a slope that is
    negative or positive, [t] is the opposite of the guess
    [dE > 0 ? -|prev_theta| : |prev_theta|] that the safeguards of the exact
    line minimisation fall back on (lines 560 and 570). *)
Theorem probe_offset_opposes_fallback :
  forall st : state,
    let pr := approx_probe a st in
    pr_t pr = (if pr_dE pr <? 0 then - fabs (prev_theta st)
               else fabs (prev_theta st))
    /\ blk (pr_state pr) HY
       = evectmatrix_aXpbY 1.0 (ld a st HY) (pr_t pr / pr_d_norm pr)
                           (ld a st (D a))
    /\ ((pr_dE pr <? 0) = true \/ (pr_dE pr >? 0) = true ->
        pr_t pr = - downhill (pr_dE pr) (prev_theta st)).
Proof.
  intros st pr.
  assert (Ht : pr_t pr = (if pr_dE pr <? 0 then - fabs (prev_theta st)
                          else fabs (prev_theta st))) by reflexivity.
  split; [exact Ht|]. split.
  - reflexivity.
  - rewrite Ht. generalize (pr_dE pr). intros dE [H|H]; unfold downhill.
    + rewrite H, (negative_not_positive _ H). reflexivity.
    + rewrite H, (positive_not_negative _ H). now rewrite opp_involutive.
Qed.

End ProbeFacts.
End ProbeFacts.

Lemma sqname_eqb_eq (m k : sqname) : sqname_eqb m k = true <-> m = k.
Proof. destruct m, k; simpl; split; try discriminate; reflexivity. Qed.

Lemma handle_eqb_refl (h : handle) : handle_eqb h h = true.
Proof. now apply handle_eqb_eq. Qed.

(** ** The driver: the workspaces at entry *)

Lemma clear_loop_nil {T : Type} (z : T) (count : nat) : forall start,
  for_loop count start (fun i l => store_at i z l) (@nil T) = [].
Proof.
  induction count as [|count IH]; intros start; [reflexivity|simpl; apply IH].
Qed.

Lemma clear_loop_shift {T : Type} (z : T) (count : nat) : forall start v l,
  for_loop count (S start) (fun i l => store_at i z l) (v :: l)
  = v :: for_loop count start (fun i l => store_at i z l) l.
Proof.
  induction count as [|count IH]; intros start v l; [reflexivity|].
  simpl. now rewrite IH.
Qed.

Lemma clear_loop {T : Type} (z : T) (count : nat) : forall l : list T,
  for_loop count 0 (fun i l => store_at i z l) l
  = repeat z (Nat.min count (length l)) ++ skipn count l.
Proof.
  induction count as [|count IH]; intros l; [reflexivity|].
  destruct l as [|v l]; [apply clear_loop_nil|].
  simpl. rewrite clear_loop_shift. now rewrite IH.
Qed.

Module EntryFacts.
Section EntryFacts.
Context {P : Primitives}.
Import Eigensolver.
Variable a : args.

Lemma zero_fill_cells h (count : nat) : forall start st,
  let st' := for_loop count start
               (fun i st => st_blk st h (store_at i scalar_zero (blk st h))) st in
  blk st' h
  = for_loop count start (fun i l => store_at i scalar_zero l) (blk st h)
  /\ (forall h', h' <> h -> blk st' h' = blk st h').
Proof.
  induction count as [|count IH]; intros start st; cbv zeta.
  - now split.
  - simpl for_loop.
    destruct (IH (S start) (st_blk st h (store_at start scalar_zero (blk st h))))
      as [Hh Hrest].
    cbv zeta in Hh, Hrest. split.
    + rewrite Hh. simpl. unfold upd. now rewrite handle_eqb_refl.
    + intros h' Hne. rewrite (Hrest h' Hne). simpl. unfold upd.
      destruct (handle_eqb h' h) eqn:Heq; [|reflexivity].
      apply handle_eqb_eq in Heq. contradiction.
Qed.

Lemma zero_fill_blocks h count st :
  blk (zero_fill h count st) h
  = repeat scalar_zero (Nat.min count (length (blk st h)))
    ++ skipn count (blk st h)
  /\ (forall h', h' <> h -> blk (zero_fill h count st) h' = blk st h').
Proof.
  destruct (zero_fill_cells h count 0 st) as [Hh Hrest]. cbv zeta in Hh, Hrest.
  split; [|exact Hrest].
  unfold zero_fill. rewrite Hh. apply clear_loop.
Qed.

Lemma for_loop_blk (body : nat -> state -> state) (count start : nat) st :
  (forall i s, blk (body i s) = blk s) ->
  blk (for_loop count start body st) = blk st.
Proof.
  intros Hbody.
  apply (for_loop_invariant (fun _ s => blk s = blk st)); [reflexivity|].
  intros i s _ Hs. now rewrite Hbody.
Qed.

Lemma setup_blocks st h :
  h <> HY \/ constraint a = None ->
  blk (setup a st) h
  = blk (if use_polak_ribiere a
         then zero_fill (prev_G a) (Yn a * Yp a)
                (if usingConjugateGradient a
                 then zero_fill (D a) (fst (dims a (D a)) * snd (dims a (D a))) st
                 else st)
         else if usingConjugateGradient a
              then zero_fill (D a) (fst (dims a (D a)) * snd (dims a (D a))) st
              else st) h.
Proof.
  intros Hh. unfold setup. cbv zeta.
  match goal with
  | |- blk (apply_constraint a ?s) h = _ =>
      assert (Hc : blk (apply_constraint a s) h = blk s h)
  end.
  { unfold apply_constraint. destruct (constraint a) as [c|] eqn:Hc;
      [|reflexivity].
    destruct Hh as [Hh|Hh]; [|discriminate].
    simpl. unfold upd.
    destruct (handle_eqb h HY) eqn:Heq; [|reflexivity].
    apply handle_eqb_eq in Heq. contradiction. }
  rewrite Hc. rewrite for_loop_blk by reflexivity. simpl fold_left.
  destruct (use_polak_ribiere a), (usingConjugateGradient a); reflexivity.
Qed.

(** X15: what the blocks hold when the first iteration starts.  With three
    workspaces or more the first [D.n D.p] cells of [Work[2]] are zero; with
    four or more the first [Y.n Y.p] cells of [Work[3]] are zero (the loop
    takes its bound from [Y], not from [Work[3]]); cells past these bounds,
    [Work[0]] and [Work[1]] are as the caller passed them, and so is [Y]
    when there is no constraint. *)
Theorem workspace_zeroed_at_entry :
  forall st : state,
    let st0 := setup a st in
    let cleared (count : nat) (l : list scalar) :=
      repeat scalar_zero (Nat.min count (length l)) ++ skipn count l in
    ((3 <= nWork a)%Z ->
     blk st0 (HWork 2)
     = cleared (fst (dims a (HWork 2)) * snd (dims a (HWork 2)))%nat
               (blk st (HWork 2)))
    /\ ((4 <= nWork a)%Z ->
        blk st0 (HWork 3) = cleared (Yn a * Yp a)%nat (blk st (HWork 3)))
    /\ blk st0 G = blk st G /\ blk st0 X = blk st X
    /\ (constraint a = None -> blk st0 HY = blk st HY).
Proof.
  intros st st0 cleared. subst st0.
  unfold cleared.
  split; [|split; [|split; [|split]]].
  - intros H3. rewrite setup_blocks by (left; discriminate).
    assert (HD : D a = HWork 2)
      by (unfold D, usingConjugateGradient;
          now rewrite (proj2 (Z.leb_le 3 _) H3)).
    unfold usingConjugateGradient. rewrite (proj2 (Z.leb_le 3 _) H3). rewrite HD.
    destruct (use_polak_ribiere a) eqn:Hpr.
    + assert (HP : prev_G a = HWork 3) by (unfold prev_G; now rewrite Hpr).
      rewrite HP.
      rewrite (proj2 (zero_fill_blocks (HWork 3) _ _)) by discriminate.
      apply zero_fill_blocks.
    + apply zero_fill_blocks.
  - intros H4. rewrite setup_blocks by (left; discriminate).
    destruct (DirectionFacts.four_workspaces a H4) as (Hpr & Hcg & HP & HD).
    rewrite Hpr, Hcg, HP, HD.
    rewrite (proj1 (zero_fill_blocks (HWork 3) _ _)).
    now rewrite (proj2 (zero_fill_blocks (HWork 2) _ _)) by discriminate.
  - rewrite setup_blocks by (left; discriminate).
    unfold D, prev_G.
    destruct (use_polak_ribiere a), (usingConjugateGradient a);
      rewrite ?(proj2 (zero_fill_blocks _ _ _)) by discriminate; reflexivity.
  - rewrite setup_blocks by (left; discriminate).
    unfold D, prev_G.
    destruct (use_polak_ribiere a), (usingConjugateGradient a);
      rewrite ?(proj2 (zero_fill_blocks _ _ _)) by discriminate; reflexivity.
  - intros Hc. rewrite setup_blocks by now right.
    unfold D, prev_G.
    destruct (use_polak_ribiere a), (usingConjugateGradient a);
      rewrite ?(proj2 (zero_fill_blocks _ _ _)) by discriminate; reflexivity.
Qed.

End EntryFacts.
End EntryFacts.

(** ** The driver: what the line search writes *)

Module ScratchFacts.
Section ScratchFacts.
Context {P : Primitives}.
Import Eigensolver.
Variable a : args.

Section Writes.
Variable d : trace_func_data.
Variable R : state -> state -> Prop.
Hypothesis R_refl : forall s, R s s.
Hypothesis R_trans : forall s1 s2 s3, R s1 s2 -> R s2 s3 -> R s1 s3.
Hypothesis R_S1 : forall s v, R s (st_sq s (t_S1 d) v).
Hypothesis R_S2 : forall s v, R s (st_sq s (t_S2 d) v).
Hypothesis R_S3 : forall s v, R s (st_sq s (t_S3 d) v).

Lemma trace_func_value_writes th s0 :
  R s0 (snd (trace_func a d false th s0)).
Proof.
  unfold trace_func. cbv zeta. simpl snd.
  repeat (eapply R_trans; [|first [apply R_S1 | apply R_S2]]).
  apply R_refl.
Qed.

Lemma trace_func_writes want th s0 :
  R s0 (snd (trace_func a d want th s0)).
Proof.
  destruct want; [|apply trace_func_value_writes].
  unfold trace_func. cbv zeta. simpl snd.
  repeat (eapply R_trans; [|first [apply R_S1 | apply R_S2 | apply R_S3]]).
  apply R_refl.
Qed.

End Writes.

Lemma set_sq_eta (s : state) : s = set_sq s (sq s).
Proof. now destruct s. Qed.

Lemma sq_write_elsewhere s m v k :
  k <> m -> sq (st_sq s m v) k = sq s k.
Proof.
  intros Hk. simpl. unfold upd.
  destruct (sqname_eqb k m) eqn:Heq; [|reflexivity].
  apply sqname_eqb_eq in Heq. contradiction.
Qed.

(** X10: [trace_func] writes the three matrices [S1], [S2], [S3] of its
    [data] and nothing else: the rest of the state is as it was, the six
    matrices it reads included (when they are other matrices); without a
    derivative to compute, it does not write [S3] either. *)
Theorem trace_func_writes_scratch_only :
  forall (d : trace_func_data) (want : bool) (th : real) (st : state),
    let s := snd (trace_func a d want th st) in
    s = set_sq st (sq s)
    /\ (forall m, m <> t_S1 d -> m <> t_S2 d -> m <> t_S3 d -> sq s m = sq st m)
    /\ (want = false ->
        forall m, m <> t_S1 d -> m <> t_S2 d -> sq s m = sq st m).
Proof.
  intros d want th st s. subst s. split; [|split].
  - apply (trace_func_writes d (fun s s' => s' = set_sq s (sq s'))).
    + apply set_sq_eta.
    + intros s1 s2 s3 H12 H23. rewrite H23 at 1. rewrite H12 at 1. reflexivity.
    + reflexivity.
    + reflexivity.
    + reflexivity.
  - intros m H1 H2 H3.
    apply (trace_func_writes d (fun s s' => sq s' m = sq s m)).
    + reflexivity.
    + intros s1 s2 s3 H12 H23. congruence.
    + intros s v. now apply sq_write_elsewhere.
    + intros s v. now apply sq_write_elsewhere.
    + intros s v. now apply sq_write_elsewhere.
  - intros -> m H1 H2.
    apply (trace_func_value_writes d (fun s s' => sq s' m = sq s m)).
    + reflexivity.
    + intros s1 s2 s3 H12 H23. congruence.
    + intros s v. now apply sq_write_elsewhere.
    + intros s v. now apply sq_write_elsewhere.
Qed.

(** X9: the line search of the exact strategy, [linmin] on [trace_func]
    with the [tfd] of the driver, works on square matrices alone: however it
    ends, the blocks, the memory of the callbacks, the clock, the output and
    every local of the driver are as they were, and of the ten matrices only
    [YtAYU], [S2] and [S3] may have changed.  The operator [A] is not applied
    during the search. *)
Theorem line_search_writes_scratch_only :
  forall (fuel : nat) (j : Linmin.junk)
         (xmin_ f_xmin_ df_xmin_ xmax_ x0_ tol dn : real) (st : state),
    holds_after
      (fun s => s = set_sq st (sq s)
                /\ forall m, m <> YtAYU -> m <> S2 -> m <> S3 -> sq s m = sq st m)
      (Linmin.linmin (trace_func a (tfd dn)) fuel j
                     xmin_ f_xmin_ df_xmin_ xmax_ x0_ tol st).
Proof.
  intros fuel j xmin_ f_xmin_ df_xmin_ xmax_ x0_ tol dn st.
  apply (LinminFrame.linmin_keeps (trace_func a (tfd dn))
           (fun s => s = set_sq st (sq s)
                     /\ forall m, m <> YtAYU -> m <> S2 -> m <> S3 ->
                                  sq s m = sq st m)).
  - intros want x s [Heta Hsq]. split.
    + assert (H1 : snd (trace_func a (tfd dn) want x s)
                   = set_sq s (sq (snd (trace_func a (tfd dn) want x s)))).
      { apply (trace_func_writes (tfd dn) (fun s s' => s' = set_sq s (sq s'))).
        - apply set_sq_eta.
        - intros s1 s2 s3 H12 H23. rewrite H23 at 1. rewrite H12 at 1.
          reflexivity.
        - reflexivity.
        - reflexivity.
        - reflexivity. }
      rewrite H1 at 1. rewrite Heta at 1. reflexivity.
    + intros m Hm1 Hm2 Hm3. rewrite <- (Hsq m Hm1 Hm2 Hm3).
      apply (trace_func_writes (tfd dn) (fun s s' => sq s' m = sq s m)).
      * reflexivity.
      * intros s1 s2 s3 H12 H23. congruence.
      * intros s0 v. now apply sq_write_elsewhere.
      * intros s0 v. now apply sq_write_elsewhere.
      * intros s0 v. now apply sq_write_elsewhere.
  - split; [apply set_sq_eta|reflexivity].
Qed.

End ScratchFacts.
End ScratchFacts.

(** ** The driver: shared workspaces and the rejected probe *)

Module AliasFacts.
Section AliasFacts.
Context {P : Primitives}.
Import Eigensolver.
Variable a : args.

Lemma two_workspaces : (nWork a < 3)%Z -> D a = X.
Proof.
  intros H. unfold D, usingConjugateGradient.
  now rewrite (proj2 (Z.leb_gt 3 _) H).
Qed.

Lemma exact_slope_blocks st h :
  blk (sl_state (exact_slope a st)) h = blk (call_A a (D a) G false X st) h.
Proof. reflexivity. Qed.

Lemma approx_probe_blocks st h :
  blk (pr_state (approx_probe a st)) h
  = blk (call_A a HY G true X
           (invert a U
              (XtX a U HY
                 (aXpbY a 1.0 HY
                    (pr_t (approx_probe a st) / pr_d_norm (approx_probe a st))
                    (D a) st)))) h.
Proof. reflexivity. Qed.

(** X18: with two workspaces ([nWork] = 2) the direction [D] is the
    workspace [X], which both line minimisations hand to the operator [A]
    as scratch: in the exact one [A] gets the same block as its input and
    as its scratch, and after either call the block [D] holds what [A] left
    in its scratch; that is the block the update of [Y] then reads. *)
Theorem two_workspaces_hand_direction_as_scratch :
  (nWork a < 3)%Z ->
  D a = X
  /\ (forall st : state,
         blk (sl_state (exact_slope a st)) (D a)
         = snd (fst (A a (ld a st X) (ld a st G) false (ld a st X) (env st))))
  /\ (forall st : state,
         let pr := approx_probe a st in
         let st1 := invert a U
                      (XtX a U HY
                         (aXpbY a 1.0 HY (pr_t pr / pr_d_norm pr) X st)) in
         blk (pr_state pr) (D a)
         = snd (fst (A a (ld a st1 HY) (ld a st1 G) true (ld a st1 X) (env st1)))
         /\ forall c : real,
              blk (aXpbY a 1.0 HY c (D a) (pr_state pr)) HY
              = evectmatrix_aXpbY 1.0 (ld a (pr_state pr) HY) c
                  (mkEvect (fst (dims a X)) (snd (dims a X))
                     (snd (fst (A a (ld a st1 HY) (ld a st1 G) true
                                  (ld a st1 X) (env st1)))))).
Proof.
  intros H. pose proof (two_workspaces H) as HD.
  split; [exact HD|]. split.
  - intros st. rewrite exact_slope_blocks. rewrite HD. reflexivity.
  - intros st pr st1.
    assert (Hblk : blk (pr_state pr) (D a)
                   = snd (fst (A a (ld a st1 HY) (ld a st1 G) true (ld a st1 X)
                                 (env st1)))).
    { subst pr st1. rewrite approx_probe_blocks. rewrite HD. reflexivity. }
    split; [exact Hblk|].
    intros c. rewrite LineFacts.aXpbY_blocks. simpl handle_eqb. cbv iota.
    unfold ld at 2. rewrite Hblk. rewrite HD. reflexivity.
Qed.

(** X19: when the approximate line minimisation rejects its probe,
    [use_linmin] is set and [Y] is moved back along [D] by the probe step,
    but [U] stays the inverse that was computed from the shifted [Y];
    [YtY] and [YtAYU] are still those from before the probe. *)
Theorem rejected_probe_leaves_its_inverse :
  forall st : state,
    approx_rejected (approx_probe a st) = true ->
    let pr := approx_probe a st in
    let shifted := evectmatrix_aXpbY 1.0 (ld a st HY) (pr_t pr / pr_d_norm pr)
                     (ld a st (D a)) in
    use_linmin (approx_linmin a st) = true
    /\ blk (approx_linmin a st) HY
       = evectmatrix_aXpbY 1.0 (mkEvect (Yn a) (Yp a) shifted)
           (- pr_t pr / pr_d_norm pr) (ld a (pr_state pr) (D a))
    /\ sq (approx_linmin a st) U
       = sqmatrix_invert
           (mkSq (Yp a)
              (evectmatrix_XtX (mkSq (Yp a) (sq st U))
                 (mkEvect (Yn a) (Yp a) shifted)))
    /\ sq (approx_linmin a st) YtY = sq st YtY
    /\ sq (approx_linmin a st) YtAYU = sq st YtAYU.
Proof.
  intros st Hrej pr shifted.
  unfold approx_linmin. cbv zeta. rewrite Hrej.
  destruct (flag a EIGS_VERBOSE); repeat split; reflexivity.
Qed.

End AliasFacts.
End AliasFacts.

(** ** The driver: the locals without an initial value *)

Module LinminMap.
Section LinminMap.
Import Linmin.
Context {S : Type}.
Variable func : bool -> real -> S -> real * real * S.

(** A change of the state that [func] does not see. *)
Variable emb : S -> S.
Hypothesis func_emb : forall want x d,
  func want x (emb d)
  = (fst (fst (func want x d)), snd (fst (func want x d)),
     emb (snd (func want x d))).

Lemma bracket_scan_emb (fuel : nat) : forall s xmin0 xmax0 dx v d,
  bracket_scan func fuel s xmin0 xmax0 dx v (emb d)
  = match bracket_scan func fuel s xmin0 xmax0 dx v d with
    | Some (sc, d') => Some (sc, emb d')
    | None => None
    end.
Proof.
  induction fuel as [|fuel IH]; intros s xmin0 xmax0 dx v d; simpl;
    [reflexivity|].
  destruct (sx v * s <=? xmax0 * s); [|reflexivity].
  rewrite func_emb.
  destruct (func true (sx v) d) as [[fx dfx] d1]. simpl.
  destruct (_ >? 0.0); [reflexivity|]. apply IH.
Qed.

Lemma bracket_round_emb fuel s v d :
  bracket_round func fuel s v (emb d)
  = match bracket_round func fuel s v d with
    | Some (b, v', d') => Some (b, v', emb d')
    | None => None
    end.
Proof.
  unfold bracket_round. rewrite bracket_scan_emb.
  destruct (bracket_scan _ _ _ _ _ _ _ _) as [[sc d1]|]; [|reflexivity].
  destruct (_ <=? _); reflexivity.
Qed.

Lemma bracket_loop_emb (rounds : nat) : forall fuel s tol v d,
  bracket_loop func rounds fuel s tol v (emb d)
  = match bracket_loop func rounds fuel s tol v d with
    | Done r d' => Done r (emb d')
    | Fatal e d' => Fatal e (emb d')
    | Timeout => Timeout
    end.
Proof.
  induction rounds as [|rounds IH]; intros fuel s tol v d; simpl;
    [reflexivity|].
  rewrite bracket_round_emb.
  destruct (bracket_round _ _ _ _ _) as [[[[] v1] d1]|]; try reflexivity.
  destruct (not_collapsed tol v1); [apply IH|reflexivity].
Qed.

Lemma ridder_loop_emb (fuel : nat) : forall tol r d,
  ridder_loop func fuel tol r (emb d)
  = match ridder_loop func fuel tol r d with
    | Done r' d' => Done r' (emb d')
    | Fatal e d' => Fatal e (emb d')
    | Timeout => Timeout
    end.
Proof.
  induction fuel as [|fuel IH]; intros tol r d; simpl; [reflexivity|].
  rewrite func_emb.
  destruct (func true (x0 (rv r)) d) as [[f_x0 df_x0] d1]. simpl.
  destruct (df_x0 =? 0); [reflexivity|].
  destruct (df_xmin (rv r) =? 0); [reflexivity|].
  destruct (df_xmax (rv r) =? 0); [reflexivity|].
  destruct (_ <? _); [reflexivity|].
  rewrite func_emb.
  match goal with
  | |- context [func true ?x1 d1] =>
      destruct (func true x1 d1) as [[f1 df1] d2]
  end.
  simpl. apply IH.
Qed.

Lemma linmin_finish_emb fuel j s tol v d :
  linmin_finish func fuel j s tol v (emb d)
  = match linmin_finish func fuel j s tol v d with
    | Done r d' => Done r (emb d')
    | Fatal e d' => Fatal e (emb d')
    | Timeout => Timeout
    end.
Proof.
  unfold linmin_finish, bind, CHECK.
  destruct (not_collapsed tol v); [|reflexivity].
  rewrite ridder_loop_emb.
  destruct (ridder_loop _ _ _ _ _) as [r' d1|e d1|]; try reflexivity.
  rewrite func_emb.
  destruct (func false (x0 (rv r')) d1) as [[f_x0 df_x0] d2]. reflexivity.
Qed.

Lemma linmin_emb fuel j xmin_ f_xmin_ df_xmin_ xmax_ x0_ tol d :
  linmin func fuel j xmin_ f_xmin_ df_xmin_ xmax_ x0_ tol (emb d)
  = match linmin func fuel j xmin_ f_xmin_ df_xmin_ xmax_ x0_ tol d with
    | Done r d' => Done r (emb d')
    | Fatal e d' => Fatal e (emb d')
    | Timeout => Timeout
    end.
Proof.
  unfold linmin, bind, CHECK.
  destruct (_ <? 0.0); [|reflexivity].
  destruct (in_range _ _ _); [|reflexivity].
  rewrite bracket_loop_emb.
  destruct (bracket_loop _ _ _ _ _ _ _) as [bv d1|e d1|]; try reflexivity.
  apply linmin_finish_emb.
Qed.

End LinminMap.
End LinminMap.

Module StackFacts.
Section StackFacts.
Context {P : Primitives}.
Import Eigensolver Stack.
Variable a : args.

Lemma scribble_nothing st : scribble untouched st = st.
Proof. now destruct st. Qed.

Lemma for_loop_scribble (o : leftover) (body : nat -> state -> state)
    (count : nat) :
  (forall i s, body i (scribble o s) = scribble o (body i s)) ->
  forall start st,
    for_loop count start body (scribble o st)
    = scribble o (for_loop count start body st).
Proof.
  intros Hbody. induction count as [|count IH]; intros start st; [reflexivity|].
  simpl. rewrite Hbody. apply IH.
Qed.

Lemma setup_scribble o st : setup a (scribble o st) = scribble o (setup a st).
Proof.
  unfold setup. cbv zeta.
  assert (Hz : forall h count s,
             zero_fill h count (scribble o s) = scribble o (zero_fill h count s)).
  { intros h count s. unfold zero_fill. apply for_loop_scribble.
    intros i s'. reflexivity. }
  assert (H1 : (if usingConjugateGradient a
                then zero_fill (D a) (fst (dims a (D a)) * snd (dims a (D a)))
                       (scribble o st)
                else scribble o st)
               = scribble o
                   (if usingConjugateGradient a
                    then zero_fill (D a)
                           (fst (dims a (D a)) * snd (dims a (D a))) st
                    else st))
    by (destruct (usingConjugateGradient a); [apply Hz|reflexivity]).
  rewrite H1.
  generalize (if usingConjugateGradient a
              then zero_fill (D a) (fst (dims a (D a)) * snd (dims a (D a))) st
              else st).
  intros s1.
  assert (H2 : (if use_polak_ribiere a
                then zero_fill (prev_G a) (Yn a * Yp a) (scribble o s1)
                else scribble o s1)
               = scribble o
                   (if use_polak_ribiere a
                    then zero_fill (prev_G a) (Yn a * Yp a) s1 else s1))
    by (destruct (use_polak_ribiere a); [apply Hz|reflexivity]).
  rewrite H2.
  generalize (if use_polak_ribiere a
              then zero_fill (prev_G a) (Yn a * Yp a) s1 else s1).
  intros s2.
  simpl fold_left.
  match goal with
  | |- apply_constraint a (for_loop ?n 0 ?f ?x) = scribble o
         (apply_constraint a (for_loop ?n 0 ?f ?y)) =>
      change x with (scribble o y);
      rewrite (for_loop_scribble o f n (fun i s => eq_refl) 0 y);
      generalize (for_loop n 0 f y)
  end.
  intros s3. unfold apply_constraint. destruct (constraint a); reflexivity.
Qed.

Lemma extract_scribble o st : extract a (scribble o st) = scribble o (extract a st).
Proof. reflexivity. Qed.

(** [normalize] assigns [time_ZtZ]. *)
Lemma normalize_scribble oE otgx oth oAZ oKZ oZtZ oZtW oZS otl oli st :
  normalize a (scribble (mkLeftover oE otgx oth oAZ oKZ oZtZ oZtW oZS otl oli) st)
  = scribble (mkLeftover oE otgx oth oAZ oKZ None oZtW oZS otl oli)
             (normalize a st).
Proof.
  unfold normalize. destruct (flag a EIGS_FORCE_APPROX_LINMIN); reflexivity.
Qed.

(** [measure_trace] assigns [time_AZ], [time_ZS], [time_ZtW] and [E]. *)
Lemma measure_trace_scribble oE otgx oth oAZ oKZ oZtZ oZtW oZS otl oli st :
  measure_trace a
    (scribble (mkLeftover oE otgx oth oAZ oKZ oZtZ oZtW oZS otl oli) st)
  = scribble (mkLeftover None otgx oth None oKZ oZtZ None None otl oli)
             (measure_trace a st).
Proof. reflexivity. Qed.

Lemma feedback_scribble otgx oth oAZ oKZ oZtZ oZtW oZS otl oli st :
  feedback a (scribble (mkLeftover None otgx oth oAZ oKZ oZtZ oZtW oZS otl oli) st)
  = scribble (mkLeftover None otgx oth oAZ oKZ oZtZ oZtW oZS otl oli)
             (feedback a st).
Proof.
  unfold feedback. cbv zeta.
  destruct (flag a EIGS_VERBOSE); [reflexivity|].
  match goal with
  | |- (if ?c then _ else _) = scribble _ (if ?c' then _ else _) =>
      change c with c'; destruct c'
  end; reflexivity.
Qed.

Lemma gradient_scribble o st :
  gradient a (scribble o st) = scribble o (gradient a st).
Proof. reflexivity. Qed.

(** [precondition] assigns [time_KZ] when there is a preconditioner. *)
Lemma precondition_scribble oE otgx oth oAZ oKZ oZtZ oZtW oZS otl oli st :
  precondition a
    (scribble (mkLeftover oE otgx oth oAZ oKZ oZtZ oZtW oZS otl oli) st)
  = scribble (mkLeftover oE otgx oth oAZ
                (match K a with Some _ => None | None => oKZ end)
                oZtZ oZtW oZS otl oli)
             (precondition a st).
Proof.
  unfold precondition.
  destruct (K a), (flag a EIGS_PROJECT_PRECONDITIONING); reflexivity.
Qed.

Lemma polak_ribiere_pass_scribble o st :
  polak_ribiere_pass a (scribble o st) = scribble o (polak_ribiere_pass a st).
Proof.
  unfold polak_ribiere_pass. apply for_loop_scribble. intros i s. reflexivity.
Qed.

(** [cg_update] assigns [traceGtX]. *)
Lemma cg_update_scribble oE otgx oth oAZ oKZ oZtZ oZtW oZS otl oli st :
  cg_update a
    (scribble (mkLeftover oE otgx oth oAZ oKZ oZtZ oZtW oZS otl oli) st)
  = scribble (mkLeftover oE None oth oAZ oKZ oZtZ oZtW oZS otl oli)
             (cg_update a st).
Proof.
  unfold cg_update. cbv zeta.
  change (set_traceGtX
            (scribble (mkLeftover oE otgx oth oAZ oKZ oZtZ oZtW oZS otl oli) st)
            (traceXtY a
               (scribble (mkLeftover oE otgx oth oAZ oKZ oZtZ oZtW oZS otl oli) st)
               G X))
    with (scribble (mkLeftover oE None oth oAZ oKZ oZtZ oZtW oZS otl oli)
            (set_traceGtX st (traceXtY a st G X))).
  generalize (set_traceGtX st (traceXtY a st G X)). intros s1.
  destruct (usingConjugateGradient a); [|reflexivity].
  unfold gamma_numerator.
  destruct (use_polak_ribiere a).
  - cbv beta iota zeta delta [fst snd].
    rewrite polak_ribiere_pass_scribble.
    generalize (polak_ribiere_pass a s1). intros s2.
    match goal with
    | |- aXpbY a _ _ _ _ (if ?c then _ else _)
         = scribble _ (aXpbY a _ _ _ _ (if ?c' then _ else _)) =>
        change c with c'; destruct c'
    end; reflexivity.
  - cbv beta iota zeta delta [fst snd].
    match goal with
    | |- aXpbY a _ _ _ _ (if ?c then _ else _)
         = scribble _ (aXpbY a _ _ _ _ (if ?c' then _ else _)) =>
        change c with c'; destruct c'
    end; reflexivity.
Qed.

(** The approximate line minimisation assigns [theta] and reads none of
    the others. *)
Lemma approx_probe_scribble oth st :
  approx_probe a
    (scribble (mkLeftover None None oth None None None None None None None) st)
  = approx_probe a st.
Proof. reflexivity. Qed.

Lemma approx_linmin_scribble oth st :
  approx_linmin a
    (scribble (mkLeftover None None oth None None None None None None None) st)
  = approx_linmin a st.
Proof. unfold approx_linmin. now rewrite approx_probe_scribble. Qed.

Lemma exact_slope_scribble o st :
  sl_d_norm (exact_slope a (scribble o st)) = sl_d_norm (exact_slope a st)
  /\ sl_dE (exact_slope a (scribble o st)) = sl_dE (exact_slope a st).
Proof. split; reflexivity. Qed.

Lemma exact_prepare_scribble oth otl oli st :
  exact_prepare a
    (scribble (mkLeftover None None oth None None None None None otl oli) st)
  = scribble (mkLeftover None None None None None None None None otl oli)
             (exact_prepare a st).
Proof. reflexivity. Qed.

Lemma sq_copy_scribble o m b s :
  sq_copy a m b (scribble o s) = scribble o (sq_copy a m b s).
Proof. reflexivity. Qed.
Lemma aApbB_scribble o r m t b s :
  aApbB a r m t b (scribble o s) = scribble o (aApbB a r m t b s).
Proof. reflexivity. Qed.
Lemma ApaB_scribble o m r b s :
  ApaB a m r b (scribble o s) = scribble o (ApaB a m r b s).
Proof. reflexivity. Qed.
Lemma invert_scribble o m s :
  invert a m (scribble o s) = scribble o (invert a m s).
Proof. reflexivity. Qed.
Lemma AeBC_scribble o m b bd c cd s :
  AeBC a m b bd c cd (scribble o s) = scribble o (AeBC a m b bd c cd s).
Proof. reflexivity. Qed.
Lemma traceAtB_scribble o m b s :
  traceAtB a (scribble o s) m b = traceAtB a s m b.
Proof. reflexivity. Qed.

Lemma trace_func_scribble o d want th st :
  trace_func a d want th (scribble o st)
  = (fst (fst (trace_func a d want th st)),
     snd (fst (trace_func a d want th st)),
     scribble o (snd (trace_func a d want th st))).
Proof.
  unfold trace_func. cbv zeta.
  destruct want; cbv beta iota delta [fst snd];
    repeat (rewrite ?sq_copy_scribble, ?aApbB_scribble, ?ApaB_scribble,
              ?invert_scribble, ?AeBC_scribble, ?traceAtB_scribble);
    reflexivity.
Qed.

Lemma linmin_exit_scribble otl oli s imp th c0 :
  set_time_linmin
    (snd (clock (set_theta
                   (set_linmin_improvement
                      (scribble (mkLeftover None None None None None None None
                                   None otl oli) s) imp) th)))
    (MPIGLUE_CLOCK_DIFF
       (fst (clock (set_theta
                      (set_linmin_improvement
                         (scribble (mkLeftover None None None None None None
                                      None None otl oli) s) imp) th))) c0)
  = set_time_linmin
      (snd (clock (set_theta (set_linmin_improvement s imp) th)))
      (MPIGLUE_CLOCK_DIFF
         (fst (clock (set_theta (set_linmin_improvement s imp) th))) c0).
Proof. destruct s. reflexivity. Qed.

Lemma clock_scribble o s :
  snd (clock (scribble o s)) = scribble o (snd (clock s))
  /\ fst (clock (scribble o s)) = fst (clock s).
Proof. split; reflexivity. Qed.

Lemma E_scribble otgx oth oAZ oKZ oZtZ oZtW oZS otl oli s :
  E (scribble (mkLeftover None otgx oth oAZ oKZ oZtZ oZtW oZS otl oli) s) = E s.
Proof. reflexivity. Qed.

Lemma theta_scribble oE otgx oAZ oKZ oZtZ oZtW oZS otl oli s :
  theta (scribble (mkLeftover oE otgx None oAZ oKZ oZtZ oZtW oZS otl oli) s)
  = theta s.
Proof. reflexivity. Qed.

Lemma use_linmin_scribble o s : use_linmin (scribble o s) = use_linmin s.
Proof. reflexivity. Qed.

Lemma iteration_scribble o s : iteration (scribble o s) = iteration s.
Proof. reflexivity. Qed.

Lemma converged_scribble otgx oth oAZ oKZ oZtZ oZtW oZS otl oli s :
  converged a (scribble (mkLeftover None otgx oth oAZ oKZ oZtZ oZtW oZS otl oli) s)
  = converged a s.
Proof. reflexivity. Qed.

(** The exact line minimisation assigns [theta], and [linmin_improvement]
    and [time_linmin] when [linmin] returns. *)
Lemma exact_linmin_scribble fuel oth otl oli st :
  exact_linmin a fuel
    (scribble (mkLeftover None None oth None None None None None otl oli) st)
  = match exact_linmin a fuel st with
    | Done u s => Done u s
    | Fatal e s =>
        Fatal e (scribble (mkLeftover None None None None None None None None
                             otl oli) s)
    | Timeout => Timeout
    end.
Proof.
  unfold exact_linmin. cbv zeta.
  rewrite exact_prepare_scribble.
  rewrite (proj1 (exact_slope_scribble _ st)).
  rewrite (proj2 (exact_slope_scribble _ st)).
  generalize (exact_prepare a st) (sl_dE (exact_slope a st))
             (sl_d_norm (exact_slope a st)).
  intros s1 dE d_norm.
  rewrite (proj1 (clock_scribble _ s1)), (proj2 (clock_scribble _ s1)),
    E_scribble, theta_scribble.
  rewrite (LinminMap.linmin_emb _ _ (trace_func_scribble _ _)).
  destruct (Linmin.linmin _ _ _ _ _ _ _ _ _ _) as [[th' imp] s2|e s2|];
    cbv beta iota; [|reflexivity|reflexivity].
  now rewrite linmin_exit_scribble.
Qed.

Lemma line_minimize_scribble fuel oth otl oli st :
  (use_linmin st = false -> otl = None /\ oli = None) ->
  line_minimize a fuel
    (scribble (mkLeftover None None oth None None None None None otl oli) st)
  = match line_minimize a fuel st with
    | Done u s => Done u s
    | Fatal e s =>
        Fatal e (scribble (mkLeftover None None None None None None None None
                             otl oli) s)
    | Timeout => Timeout
    end.
Proof.
  intros Ho. unfold line_minimize. cbv zeta.
  rewrite use_linmin_scribble.
  destruct (use_linmin st) eqn:Hu; simpl negb; cbv iota.
  - rewrite use_linmin_scribble, Hu. apply exact_linmin_scribble.
  - destruct (Ho eq_refl) as [-> ->].
    rewrite approx_linmin_scribble.
    generalize (approx_linmin a st). intros s1.
    destruct (use_linmin s1).
    + destruct (exact_linmin a fuel s1) as [u s|e s|]; try reflexivity.
      now destruct s.
    + reflexivity.
Qed.

(** The body up to the two tests: [E] is assigned, and the three times
    but [time_KZ]. *)
Lemma body_head_scribble fuel oE otgx oth oAZ oKZ oZtZ oZtW oZS otl oli st :
  body a fuel
    (scribble (mkLeftover oE otgx oth oAZ oKZ oZtZ oZtW oZS otl oli) st)
  = (let s1 := scribble (mkLeftover None otgx oth None oKZ None None None
                           otl oli) (measure_trace a (normalize a st)) in
     if BADNUM (E s1) then Abort CrazyNumber s1
     else if converged a s1 then Break s1
     else
       match line_minimize a fuel
               (cg_update a (precondition a (gradient a (feedback a s1)))) with
       | Done _ st => Continue (choose_strategy a (record_iteration a st))
       | Fatal e st => Abort e st
       | Timeout => Stuck
       end).
Proof.
  unfold body. cbv zeta.
  rewrite normalize_scribble, measure_trace_scribble. reflexivity.
Qed.

Lemma direction_scribble otgx oth oKZ otl oli s1 :
  cg_update a
    (precondition a
       (gradient a
          (feedback a
             (scribble (mkLeftover None otgx oth None oKZ None None None
                          otl oli) s1))))
  = scribble (mkLeftover None None oth None
                (match K a with Some _ => None | None => oKZ end)
                None None None otl oli)
      (cg_update a (precondition a (gradient a (feedback a s1)))).
Proof.
  now rewrite feedback_scribble, gradient_scribble, precondition_scribble,
    cg_update_scribble.
Qed.

(** One execution of the body, entered with other contents in the
    locals: it ends the same way; at its end the state is the same, and
    at a [break] or a failed [CHECK] it is the same but for these
    locals. *)
Lemma body_scribble fuel o st :
  (use_linmin
     (cg_update a
        (precondition a
           (gradient a (feedback a (measure_trace a (normalize a st))))))
   = false ->
   l_time_linmin o = None /\ l_linmin_improvement o = None) ->
  (K a = None -> l_time_KZ o = None) ->
  match body a fuel st, body a fuel (scribble o st) with
  | Break s, Break s' => exists o', s' = scribble o' s
  | Continue s, Continue s' => s' = s
  | Abort e s, Abort e' s' => e' = e /\ exists o', s' = scribble o' s
  | Stuck, Stuck => True
  | _, _ => False
  end.
Proof.
  destruct o as [oE otgx oth oAZ oKZ oZtZ oZtW oZS otl oli].
  cbn [l_time_linmin l_linmin_improvement l_time_KZ].
  intros Hl HK.
  assert (HKZ : match K a with Some _ => None | None => oKZ end = None)
    by (destruct (K a); [reflexivity|now apply HK]).
  rewrite body_head_scribble. cbv zeta.
  rewrite E_scribble, converged_scribble, direction_scribble, HKZ.
  unfold body. cbv zeta.
  revert Hl.
  generalize (measure_trace a (normalize a st)). intros s1.
  destruct (BADNUM (E s1)); [intros _; split; eauto|].
  destruct (converged a s1); [intros _; eauto|].
  generalize (cg_update a (precondition a (gradient a (feedback a s1)))).
  intros s2 Hl.
  rewrite (line_minimize_scribble fuel oth otl oli s2 Hl).
  destruct (line_minimize a fuel s2) as [[] s|e s|].
  - reflexivity.
  - split; [reflexivity|]. eauto.
  - exact I.
Qed.

(** The loop: only its first execution can see the other contents. *)
Lemma loop_scribble fuel budget o st :
  (use_linmin
     (cg_update a
        (precondition a
           (gradient a (feedback a (measure_trace a (normalize a st))))))
   = false ->
   l_time_linmin o = None /\ l_linmin_improvement o = None) ->
  (K a = None -> l_time_KZ o = None) ->
  match loop a budget fuel st, loop a budget fuel (scribble o st) with
  | Done _ s, Done _ s' => exists o', s' = scribble o' s
  | Fatal e s, Fatal e' s' => e' = e /\ exists o', s' = scribble o' s
  | Timeout, Timeout => True
  | _, _ => False
  end.
Proof.
  intros Hl HK. destruct budget as [|budget]; [exact I|].
  cbn [loop].
  pose proof (body_scribble fuel o st Hl HK) as Hb.
  destruct (body a fuel st) as [s|s|e s|],
           (body a fuel (scribble o st)) as [s'|s'|e' s'|];
    try contradiction.
  - exact Hb.
  - subst s'.
    generalize (next s). intros sn.
    destruct (iteration sn <? EIGENSOLVER_MAX_ITERATIONS)%Z.
    + destruct (loop a budget fuel sn) as [[] r|e r|].
      * exists untouched. now rewrite scribble_nothing.
      * split; [reflexivity|]. exists untouched.
        now rewrite scribble_nothing.
      * exact I.
    + exists untouched. now rewrite scribble_nothing.
  - exact Hb.
  - exact I.
Qed.

Lemma same_memory_scribble o s : same_memory s (scribble o s).
Proof. unfold same_memory. repeat split. Qed.

(** X17: of the ten locals that [eigensolver] declares without a value,
    [E], [traceGtX], [theta], [time_AZ], [time_ZtZ], [time_ZtW] and
    [time_ZS] are always assigned before they are read, [time_KZ] is when
    there is a preconditioner, and [time_linmin] and [linmin_improvement]
    are without [EIGS_FORCE_APPROX_LINMIN]: whatever these locals hold at
    entry, the call ends the same way, with the same iteration count, the
    same memory of the caller and of the callbacks and the same output. *)
Theorem locals_are_assigned_before_read :
  forall (o : leftover) (budget fuel : nat) (w : world)
         (blocks : handle -> list scalar) (ev : list real),
    (flag a EIGS_FORCE_APPROX_LINMIN = true ->
     l_time_linmin o = None /\ l_linmin_improvement o = None) ->
    (K a = None -> l_time_KZ o = None) ->
    eigensolver a budget fuel w blocks ev
    = eigensolver_from a budget fuel (entry a w blocks ev)
    /\ same_outcome (eigensolver a budget fuel w blocks ev)
         (eigensolver_from a budget fuel (scribble o (entry a w blocks ev))).
Proof.
  intros o budget fuel w blocks ev Hl HK. split; [reflexivity|].
  change (eigensolver a budget fuel w blocks ev)
    with (eigensolver_from a budget fuel (entry a w blocks ev)).
  assert (H0 : use_linmin (setup a (entry a w blocks ev)) = true).
  { apply (Keeps.setup_keeps a (fun s s' => use_linmin s' = use_linmin s));
      try (intros; reflexivity).
    intros; congruence. }
  revert H0. generalize (entry a w blocks ev). intros st H0.
  unfold eigensolver_from.
  destruct (2 <=? nWork a)%Z;
    [|split; [reflexivity|apply same_memory_scribble]].
  rewrite setup_scribble.
  assert (Hl' : use_linmin
                  (cg_update a
                     (precondition a
                        (gradient a
                           (feedback a
                              (measure_trace a (normalize a (setup a st)))))))
                = false ->
                l_time_linmin o = None /\ l_linmin_improvement o = None).
  { intros Hu. apply Hl.
    destruct (flag a EIGS_FORCE_APPROX_LINMIN) eqn:Hf; [reflexivity|].
    rewrite (ForcedFacts.direction_keeps_strategy a _ Hf) in Hu. congruence. }
  pose proof (loop_scribble fuel budget o (setup a st) Hl' HK) as Hloop.
  destruct (loop a budget fuel (setup a st)) as [u s|e s|],
           (loop a budget fuel (scribble o (setup a st))) as [u' s'|e' s'|];
    try contradiction.
  - destruct Hloop as [o' ->].
    rewrite iteration_scribble.
    destruct (iteration s <? EIGENSOLVER_MAX_ITERATIONS)%Z.
    + rewrite extract_scribble.
      split; [reflexivity|apply same_memory_scribble].
    + split; [reflexivity|apply same_memory_scribble].
  - destruct Hloop as [-> [o' ->]].
    split; [reflexivity|apply same_memory_scribble].
  - exact I.
Qed.

End StackFacts.
End StackFacts.

(** ** The driver: the forced approximate strategy *)

Module ProbedFacts.
Section ProbedFacts.
Context {P : Primitives}.
Import Eigensolver.
Variable a : args.

Lemma normalize_clears_strategy st :
  flag a EIGS_FORCE_APPROX_LINMIN = true -> use_linmin (normalize a st) = false.
Proof. intros Hf. unfold normalize. rewrite Hf. reflexivity. Qed.

Lemma direction_keeps_forced_strategy st :
  use_linmin (cg_update a (precondition a (gradient a (feedback a
                (measure_trace a st)))))
  = use_linmin st.
Proof.
  assert (Ht : forall s2 s3 s4 : state,
             use_linmin s3 = use_linmin s2 -> use_linmin s4 = use_linmin s3 ->
             use_linmin s4 = use_linmin s2) by (intros; congruence).
  etransitivity;
    [apply (Keeps.cg_update_keeps a (fun s s' => use_linmin s' = use_linmin s)
              (fun _ => True));
     try (intros; reflexivity); try (intros; exact I); exact Ht|].
  etransitivity;
    [apply (Keeps.precondition_keeps a (fun s s' => use_linmin s' = use_linmin s));
     try (intros; reflexivity); try (intros; exact I); exact Ht|].
  etransitivity;
    [apply (Keeps.gradient_keeps a (fun s s' => use_linmin s' = use_linmin s));
     try (intros; reflexivity); try (intros; exact I); exact Ht|].
  etransitivity;
    [apply (Keeps.feedback_keeps a (fun s s' => use_linmin s' = use_linmin s)
              (fun _ => True));
     try (intros; reflexivity); try (intros; exact I); exact Ht|].
  apply (Keeps.measure_trace_keeps a (fun s s' => use_linmin s' = use_linmin s));
    try (intros; reflexivity); try (intros; exact I); exact Ht.
Qed.

Lemma approx_linmin_strategy st :
  use_linmin st = false ->
  use_linmin (approx_linmin a st) = approx_rejected (approx_probe a st).
Proof.
  intros Hu. unfold approx_linmin. cbv zeta.
  destruct (approx_rejected (approx_probe a st)).
  - destruct (flag a EIGS_VERBOSE); reflexivity.
  - exact Hu.
Qed.

(** X20: [EIGS_FORCE_APPROX_LINMIN] overrides both
    [EIGS_FORCE_EXACT_LINMIN] and the choice made at the end of the
    previous iteration: whatever [use_linmin] was, every iteration runs the
    approximate probe first, and the exact line minimisation runs after it,
    in the same iteration, exactly when the probe is rejected. *)
Theorem forced_approx_always_probes :
  flag a EIGS_FORCE_APPROX_LINMIN = true ->
  forall (fuel : nat) (s : state),
    let st := cg_update a
                (precondition a
                   (gradient a (feedback a (measure_trace a (normalize a s))))) in
    use_linmin st = false
    /\ line_minimize a fuel st
       = if approx_rejected (approx_probe a st)
         then exact_linmin a fuel (approx_linmin a st)
         else Done tt (approx_linmin a st).
Proof.
  intros Hf fuel s st.
  assert (Hu : use_linmin st = false).
  { subst st. rewrite direction_keeps_forced_strategy.
    now apply normalize_clears_strategy. }
  split; [exact Hu|].
  revert Hu. generalize st. clear st. intros st Hu.
  unfold line_minimize. cbv zeta. rewrite Hu. simpl negb. cbv iota.
  rewrite (approx_linmin_strategy st Hu). reflexivity.
Qed.

End ProbedFacts.
End ProbedFacts.


(** ** The further properties at work *)

(** Witness of [returns_only_converged]: [diag(1, 2, 3)] from
    [Y = (1, 1, 1)] with three workspaces. *)
Lemma returns_only_converged_witness :
  let a := Real1.call [1; 2; 3] 3 1e-4 0 in
  exists (k : Z) (s : Eigensolver.state),
    Eigensolver.eigensolver a 100 100 0%Z (Real1.blocks [1; 1; 1]) [7]
    = Done k s
    /\ (1 <= k < EIGENSOLVER_MAX_ITERATIONS)%Z
    /\ @BADNUM Real1.primitives (Eigensolver.E s) = false.
Proof.
  cbv zeta.
  set (a := Real1.call [1; 2; 3] 3 1e-4 0).
  destruct (Eigensolver.eigensolver a 100 100 0%Z (Real1.blocks [1; 1; 1]) [7])
    as [k s|e s|] eqn:Hrun; try (exfalso; vm_compute in Hrun; discriminate).
  exists k, s. split; [reflexivity|].
  destruct (OutcomeFacts.returns_only_converged a 100 100 0%Z _ _ k s Hrun)
    as (Hk & _ & Hbad & _).
  split; assumption.
Defined.

(** Witness of [fatal_errors]: one workspace. *)
Lemma fatal_errors_witness :
  let a := Real1.call [1; 2; 3] 1 1e-4 0 in
  Eigensolver.eigensolver a 100 100 0%Z (Real1.blocks [1; 1; 1]) [7]
  = Fatal NotEnoughWorkspace
      (Eigensolver.entry a 0%Z (Real1.blocks [1; 1; 1]) [7]).
Proof.
  cbv zeta.
  apply (proj1 (OutcomeFacts.fatal_errors (Real1.call [1; 2; 3] 1 1e-4 0)
                  100 100 0%Z (Real1.blocks [1; 1; 1]) [7])).
  reflexivity.
Defined.


(** Witness of [stationary_slope_is_fatal]: [Y = (1, 0, 0)] is an
    eigenvector of [diag(1, 2, 3)]; the gradient vanishes, [D = 0], and the
    slope is 0/0. *)
Lemma stationary_slope_is_fatal_witness :
  let a := Real1.call [1; 2; 3] 3 1e-4 0 in
  let st := Eigensolver.cg_update a
              (Eigensolver.precondition a
                 (Eigensolver.gradient a
                    (Eigensolver.feedback a
                       (Eigensolver.measure_trace a
                          (Eigensolver.normalize a
                             (Eigensolver.setup a
                                (Eigensolver.entry a 0%Z
                                   (Real1.blocks [1; 0; 0]) [7]))))))) in
  Eigensolver.exact_linmin a 100 st
  = Fatal BadInitialGuess
      (snd (Eigensolver.clock (Eigensolver.exact_prepare a st))).
Proof.
  cbv zeta.
  apply TestFacts.stationary_slope_is_fatal; vm_compute; reflexivity.
Defined.

(** Witness of [linmin_evaluations]: [(x - 5)^2] from [xmin = 0] with the
    guess [x0 = 1]; the evaluations are at 2, 4, 6, 5 and 5. *)
Lemma linmin_evaluations_witness :
  exists (d' : nat) (log l : list (bool * real)),
    Linmin.linmin (Trail.traced (Probe.parabola 5)) 20 Probe.no_junk
      0 25 (-10) 100 1 0.001 (0%nat, [])
    = Done (5, 0) (d', log)
    /\ log = l ++ [(false, 5)]
    /\ Forall (fun c => fst c = true) l.
Proof.
  assert (Hrun : Linmin.linmin (Trail.traced (Probe.parabola 5)) 20
                   Probe.no_junk 0 25 (-10) 100 1 0.001 (0%nat, [])
                 = Done (5, 0)
                     (5%nat,
                      [(true, 2); (true, 4); (true, 6); (true, 5); (false, 5)]))
    by (vm_compute; reflexivity).
  destruct (EvaluationFacts.linmin_evaluations _ _ _ _ _ _ _ _ _ _ _ _ _ _ Hrun)
    as (l & Hl & Hw & _).
  eexists _, _, l. split; [exact Hrun|]. split; assumption.
Defined.

(** Witness of [bracketing_finds_sign_change]: the same function; two
    rounds fail before the third finds the bracket [4, 6]. *)
Lemma bracketing_finds_sign_change_witness :
  let v := Linmin.mkVars 0 25 (-10) 6 0 0 4 0 0 0 in
  exists (v' : Linmin.vars) (d' : nat),
    Linmin.bracket_loop (Probe.parabola 5) 10 10 1 0.125 v 0%nat
    = Done (true, v') d'
    /\ Linmin.xmax v' = Linmin.xmin v' + (Linmin.x0 v' - 0) * 2.0
    /\ exists k : nat, Linmin.x0 v' = Trail.halvings k 0 4.
Proof.
  cbv zeta.
  destruct (Linmin.bracket_loop (Probe.parabola 5) 10 10 1 0.125
              (Linmin.mkVars 0 25 (-10) 6 0 0 4 0 0 0) 0%nat)
    as [[[] v'] d'|e d'|] eqn:Hrun;
    try (exfalso; vm_compute in Hrun; discriminate).
  exists v', d'. split; [reflexivity|].
  destruct (BracketFacts.bracketing_finds_sign_change (Probe.parabola 5)
              _ _ _ _ _ _ _ _ Hrun) as (_ & _ & _ & Hwide & Hk).
  split; assumption.
Defined.

(** Witness of [unused_workspace_untouched]: [Work[3]] in a call with
    three workspaces. *)
Lemma unused_workspace_untouched_witness :
  let a := Real1.call [1; 2; 3] 3 1e-4 0 in
  holds_after
    (fun s : @Eigensolver.state Real1.primitives =>
       Eigensolver.blk s (HWork 3) = Real1.blocks [1; 1; 1] (HWork 3))
    (Eigensolver.eigensolver a 100 100 0%Z (Real1.blocks [1; 1; 1]) [7]).
Proof.
  cbv zeta.
  apply (FrameFacts.unused_workspace_untouched (Real1.call [1; 2; 3] 3 1e-4 0)).
  - repeat constructor.
  - right. vm_compute. discriminate.
Defined.

(** Witness of [preconditioner_time_never_assigned], on a stack that holds
    -10 where [time_KZ] is allocated; and the same call on a stack that
    holds 0 there, which ends with another trace and another strategy. *)
Lemma preconditioner_time_never_assigned_witness :
  let run (kz : real) :=
    Eigensolver.eigensolver (Stale.call kz [1; 2; 3] 3 1e-6 0) 100 100 0%Z
      (Real1.blocks [1; 1; 1]) [7] in
  holds_after (fun s : @Eigensolver.state Real1.primitives =>
                 Eigensolver.time_KZ s = -10) (run (-10))
  /\ run 0 <> run (-10).
Proof.
  cbv zeta. split.
  - exact (proj2 (FrameFacts.preconditioner_time_never_assigned
                    (Stale.call (-10) [1; 2; 3] 3 1e-6 0) 100 100 0%Z
                    (Real1.blocks [1; 1; 1]) [7] eq_refl)).
  - intros H.
    apply (f_equal (fun r => match r with
                             | Done _ s => Eigensolver.use_linmin s
                             | _ => false
                             end)) in H.
    vm_compute in H. discriminate H.
Defined.

(** Witness of [quiet_run_prints_two_kinds_of_lines]: a call under
    [EIGS_FORCE_APPROX_LINMIN], which prints nine progress lines and three
    lines of derivatives. *)
Lemma quiet_run_prints_two_kinds_of_lines_witness :
  let a := Real1.call [1; 2; 3] 4 1e-4 16 in
  holds_after (fun s : @Eigensolver.state Real1.primitives =>
                 Forall quiet_line (Eigensolver.stdout s))
    (Eigensolver.eigensolver a 100 100 0%Z (Real1.blocks [1; 1; 1]) [7]).
Proof.
  cbv zeta.
  apply (FrameFacts.quiet_run_prints_two_kinds_of_lines
           (Real1.call [1; 2; 3] 4 1e-4 16)).
  reflexivity.
Defined.

(** Witness of [forced_exact_never_approximates]: the third iteration of a
    call under [EIGS_FORCE_EXACT_LINMIN]. *)
Lemma forced_exact_never_approximates_witness :
  let a := Real1.call [1; 2; 3] 3 1e-4 8 in
  exists s : Eigensolver.state,
    Eigensolver.iterate a 100 2
      (Eigensolver.setup a
         (Eigensolver.entry a 0%Z (Real1.blocks [1; 1; 1]) [7]))
    = Some s
    /\ Eigensolver.use_linmin s = true.
Proof.
  cbv zeta.
  set (a := Real1.call [1; 2; 3] 3 1e-4 8).
  destruct (Eigensolver.iterate a 100 2 _) as [s|] eqn:Hs;
    [|exfalso; vm_compute in Hs; discriminate].
  exists s. split; [reflexivity|].
  exact (proj1 (ForcedFacts.forced_exact_never_approximates a 100 0%Z
                  (Real1.blocks [1; 1; 1]) [7] 2 s eq_refl eq_refl Hs)).
Defined.

(** Witness of [two_workspaces_hand_direction_as_scratch]: a call with two
    workspaces, in the state it is entered in. *)
Lemma two_workspaces_hand_direction_as_scratch_witness :
  let a := Real1.call [1; 2; 3] 2 1e-6 0 in
  let st := Eigensolver.entry a 0%Z (Real1.blocks [1; 1; 1]) [7] in
  Eigensolver.D a = Eigensolver.X
  /\ Eigensolver.blk (Eigensolver.sl_state (Eigensolver.exact_slope a st))
       (Eigensolver.D a)
     = snd (fst (Eigensolver.A a (Eigensolver.ld a st Eigensolver.X)
                   (Eigensolver.ld a st Eigensolver.G) false
                   (Eigensolver.ld a st Eigensolver.X)
                   (Eigensolver.env st))).
Proof.
  cbv zeta.
  pose proof (AliasFacts.two_workspaces_hand_direction_as_scratch
                (Real1.call [1; 2; 3] 2 1e-6 0) eq_refl) as H.
  exact (conj (proj1 H) (proj1 (proj2 H) _)).
Defined.

(** Witness of [rejected_probe_leaves_its_inverse]: the first iteration of
    a call under [EIGS_FORCE_APPROX_LINMIN], whose probe finds a negative
    second derivative. *)
Lemma rejected_probe_leaves_its_inverse_witness :
  let a := Real1.call [1; 2; 3] 3 1e-6 16 in
  let st := Eigensolver.cg_update a
              (Eigensolver.precondition a
                 (Eigensolver.gradient a
                    (Eigensolver.feedback a
                       (Eigensolver.measure_trace a
                          (Eigensolver.normalize a
                             (Eigensolver.setup a
                                (Eigensolver.entry a 0%Z
                                   (Real1.blocks [1; 1; 1]) [7]))))))) in
  Eigensolver.approx_rejected (Eigensolver.approx_probe a st) = true
  /\ Eigensolver.use_linmin (Eigensolver.approx_linmin a st) = true
  /\ Eigensolver.sq (Eigensolver.approx_linmin a st) YtY
     = Eigensolver.sq st YtY.
Proof.
  cbv zeta.
  assert (Hrej : Eigensolver.approx_rejected
                   (Eigensolver.approx_probe (Real1.call [1; 2; 3] 3 1e-6 16)
                      (Eigensolver.cg_update (Real1.call [1; 2; 3] 3 1e-6 16)
                         (Eigensolver.precondition
                            (Real1.call [1; 2; 3] 3 1e-6 16)
                            (Eigensolver.gradient
                               (Real1.call [1; 2; 3] 3 1e-6 16)
                               (Eigensolver.feedback
                                  (Real1.call [1; 2; 3] 3 1e-6 16)
                                  (Eigensolver.measure_trace
                                     (Real1.call [1; 2; 3] 3 1e-6 16)
                                     (Eigensolver.normalize
                                        (Real1.call [1; 2; 3] 3 1e-6 16)
                                        (Eigensolver.setup
                                           (Real1.call [1; 2; 3] 3 1e-6 16)
                                           (Eigensolver.entry
                                              (Real1.call [1; 2; 3] 3 1e-6 16)
                                              0%Z (Real1.blocks [1; 1; 1])
                                              [7]))))))))) = true)
    by (vm_compute; reflexivity).
  pose proof (AliasFacts.rejected_probe_leaves_its_inverse _ _ Hrej) as H.
  cbv zeta in H.
  exact (conj Hrej (conj (proj1 H) (proj1 (proj2 (proj2 (proj2 H)))))).
Defined.

Lemma same_outcome_output (r r' : outcome (@Eigensolver.state Real1.primitives) Z) :
  Stack.same_outcome r r' ->
  match r, r' with
  | Done _ s, Done _ s' => Eigensolver.stdout s' = Eigensolver.stdout s
  | _, _ => True
  end.
Proof.
  destruct r as [k s|e s|], r' as [k' s'|e' s'|]; try (intros; exact I).
  intros [_ (_ & _ & _ & _ & H)]. exact H.
Qed.

(** Witness of [locals_are_assigned_before_read]: a call that is entered
    with 1, 2, ... in the nine locals other than [time_KZ]; and a call
    under [EIGS_FORCE_APPROX_LINMIN] and [EIGS_VERBOSE], whose output
    depends on what [time_linmin] and [linmin_improvement] hold at
    entry. *)
Lemma locals_are_assigned_before_read_witness :
  let a := Real1.call [1; 2; 3] 3 1e-6 0 in
  let o := Stack.mkLeftover (Some 1) (Some 2) (Some 3) (Some 4) None (Some 5)
             (Some 6) (Some 7) (Some 8) (Some 9) in
  let a' := Real1.call [1; 2; 3] 3 1e-6 17 in
  let o' := Stack.mkLeftover None None None None None None None None
              (Some 1000) (Some 0.01) in
  Stack.same_outcome
    (Eigensolver.eigensolver a 100 100 0%Z (Real1.blocks [1; 1; 1]) [7])
    (Stack.eigensolver_from a 100 100
       (Stack.scribble o
          (Eigensolver.entry a 0%Z (Real1.blocks [1; 1; 1]) [7])))
  /\ ~ Stack.same_outcome
         (Eigensolver.eigensolver a' 100 100 0%Z
            (Real1.blocks [1; 0.1; 0.1]) [7])
         (Stack.eigensolver_from a' 100 100
            (Stack.scribble o'
               (Eigensolver.entry a' 0%Z (Real1.blocks [1; 0.1; 0.1]) [7]))).
Proof.
  cbv zeta. split.
  - apply (proj2 (StackFacts.locals_are_assigned_before_read
                    (Real1.call [1; 2; 3] 3 1e-6 0)
                    (Stack.mkLeftover (Some 1) (Some 2) (Some 3) (Some 4) None
                       (Some 5) (Some 6) (Some 7) (Some 8) (Some 9))
                    100 100 0%Z (Real1.blocks [1; 1; 1]) [7]
                    (fun H => False_ind _ (Bool.diff_false_true H))
                    (fun _ => eq_refl))).
  - intros H. apply same_outcome_output in H.
    vm_compute in H. discriminate H.
Defined.

(** Witness of [forced_approx_always_probes]: the first iteration of a
    call with both flags set. *)
Lemma forced_approx_always_probes_witness :
  let a := Real1.call [1; 2; 3] 3 1e-6 24 in
  let s := Eigensolver.setup a
             (Eigensolver.entry a 0%Z (Real1.blocks [1; 1; 1]) [7]) in
  Eigensolver.flag a (@EIGS_FORCE_EXACT_LINMIN Real1.primitives) = true
  /\ Eigensolver.use_linmin s = true
  /\ Eigensolver.use_linmin
       (Eigensolver.cg_update a
          (Eigensolver.precondition a
             (Eigensolver.gradient a
                (Eigensolver.feedback a
                   (Eigensolver.measure_trace a
                      (Eigensolver.normalize a s)))))) = false.
Proof.
  cbv zeta. split; [reflexivity|]. split; [reflexivity|].
  exact (proj1 (ProbedFacts.forced_approx_always_probes
                  (Real1.call [1; 2; 3] 3 1e-6 24) eq_refl 100
                  (Eigensolver.setup (Real1.call [1; 2; 3] 3 1e-6 24)
                     (Eigensolver.entry (Real1.call [1; 2; 3] 3 1e-6 24) 0%Z
                        (Real1.blocks [1; 1; 1]) [7])))).
Defined.
